(** * Transaction extraction and classification pipeline

    A shallow embedding of the parsing, deduplication, classification and
    aggregation code of the credit-card statement scripts
    ([batch_extract_all.py], [ai_workflow.py], [ai_workflow_brain.py],
    [format_for_sheets.py], [extract_transactions.py]) and the properties
    of the specification checked against it.

    Python [str] values are modelled as lists of characters.  The model covers
    ASCII text: a character of code 128 or more stands for a byte of UTF-8
    encoded text and is taken to be neither a space nor a digit and to have no
    upper-case form.  Python [float] values are IEEE-754 binary64 numbers,
    modelled with the [SpecFloat] operations at precision 53. *)

From Stdlib Require Import ZArith QArith List Ascii String Bool Lia.
From Stdlib Require Import Floats.SpecFloat.
From stdpp Require Import gmap strings list.

Local Open Scope Z_scope.
Local Open Scope nat_scope.

(** ** Python string primitives *)

Module PyStr.

Abbreviation str := (list ascii).

(** String literals of the source. *)
Definition py (s : string) : str := list_ascii_of_string s.

Definition code (c : ascii) : nat := nat_of_ascii c.

(** [str.isspace] on one ASCII character: TAB, LF, VT, FF, CR, the four
    separators FS, GS, RS, US and the space. *)
Definition isspace (c : ascii) : bool :=
  let n := code c in
  ((9 <=? n) && (n <=? 13)) || ((28 <=? n) && (n <=? 31)) || (n =? 32).

(** [\d] on one ASCII character. *)
Definition isdigit (c : ascii) : bool :=
  let n := code c in (48 <=? n) && (n <=? 57).

Definition upper_char (c : ascii) : ascii :=
  let n := code c in
  if (97 <=? n) && (n <=? 122) then ascii_of_nat (n - 32) else c.

(** [s.upper()] *)
Definition upper (s : str) : str := map upper_char s.

(** Stripping the characters of a class from both ends. *)
Fixpoint lstrip_by (p : ascii -> bool) (s : str) : str :=
  match s with
  | c :: s' => if p c then lstrip_by p s' else s
  | [] => []
  end.

Definition rstrip_by (p : ascii -> bool) (s : str) : str :=
  rev (lstrip_by p (rev s)).

Definition strip_by (p : ascii -> bool) (s : str) : str :=
  rstrip_by p (lstrip_by p s).

(** [s.lstrip()], [s.rstrip()], [s.strip()] *)
Definition lstrip : str -> str := lstrip_by isspace.
Definition rstrip : str -> str := rstrip_by isspace.
Definition strip : str -> str := strip_by isspace.

(** [s.startswith(p)] *)
Fixpoint startswith (p s : str) : bool :=
  match p, s with
  | [], _ => true
  | a :: p', b :: s' => if ascii_dec a b then startswith p' s' else false
  | _ :: _, [] => false
  end.

(** [needle in hay] *)
Fixpoint contains (needle hay : str) : bool :=
  startswith needle hay ||
  match hay with
  | [] => false
  | _ :: hay' => contains needle hay'
  end.

(** [s.split(sep)] for a one-character separator: [k] occurrences of the
    separator give [k + 1] segments. *)
Fixpoint split (sep : ascii) (s : str) : list str :=
  match s with
  | [] => [[]]
  | c :: s' =>
      if ascii_dec c sep then [] :: split sep s'
      else match split sep s' with
           | seg :: segs => (c :: seg) :: segs
           | [] => [[c]]
           end
  end.

(** [s.replace(c, '')] for a one-character [c]. *)
Definition remove_char (c : ascii) (s : str) : str :=
  filter (fun x => negb (if ascii_dec x c then true else false)) s.

Definition str_eqb (a b : str) : bool := bool_decide (a = b).

Definition nl : ascii := ascii_of_nat 10.

End PyStr.

Import PyStr.

(** ** Regular expressions of the source

    The patterns of the scripts only repeat one-character atoms
    ([\d{2}], [\s+], [.+?], [[\d,]+], [-?], [.*]) and group flat sequences, so
    a pattern is a list of repeated character classes and group marks.  The
    matcher backtracks in the order of Python's [re]: a greedy repetition
    tries the longest run first, a lazy one the shortest. *)

Module Re.

Inductive cclass :=
| CChar (c : ascii)          (* a literal character *)
| CDigit                     (* \d *)
| CSpace                     (* \s *)
| CDot                       (* .  (anything but a newline) *)
| COr (a b : cclass).        (* [ab] *)

Fixpoint in_class (cl : cclass) (c : ascii) : bool :=
  match cl with
  | CChar x => if ascii_dec x c then true else false
  | CDigit => isdigit c
  | CSpace => isspace c
  | CDot => negb (if ascii_dec c nl then true else false)
  | COr a b => in_class a c || in_class b c
  end.

Inductive node :=
| Rep (cl : cclass) (lo : nat) (hi : option nat) (greedy : bool)
| Mark.                      (* a group parenthesis *)

Definition regex := list node.

Definition lit (c : ascii) : node := Rep (CChar c) 1 (Some 1) true.
Definition lits (s : string) : regex := map lit (py s).
Definition exactly (cl : cclass) (n : nat) : node := Rep cl n (Some n) true.
Definition plus (cl : cclass) : node := Rep cl 1 None true.
Definition plus_lazy (cl : cclass) : node := Rep cl 1 None false.
Definition star (cl : cclass) : node := Rep cl 0 None true.
Definition opt (cl : cclass) : node := Rep cl 0 (Some 1) true.

Definition below (hi : option nat) (n : nat) : bool :=
  match hi with Some h => n <? h | None => true end.

Definition upto (hi : option nat) (n : nat) : Prop :=
  match hi with Some h => n <= h | None => True end.

Section Repeat.
Context {R : Type}.
Variable cl : ascii -> bool.
Variable lo : nat.
Variable hi : option nat.
Variable k : str -> nat -> option R.

Definition stop (n : nat) (s : str) (pos : nat) : option R :=
  if lo <=? n then k s pos else None.

Fixpoint rep_greedy (n : nat) (s : str) (pos : nat) : option R :=
  match s with
  | c :: s' =>
      if cl c && below hi n then
        match rep_greedy (S n) s' (S pos) with
        | Some r => Some r
        | None => stop n s pos
        end
      else stop n s pos
  | [] => stop n s pos
  end.

Fixpoint rep_lazy (n : nat) (s : str) (pos : nat) : option R :=
  match stop n s pos with
  | Some r => Some r
  | None =>
      match s with
      | c :: s' =>
          if cl c && below hi n then rep_lazy (S n) s' (S pos) else None
      | [] => None
      end
  end.
End Repeat.

(** [run re anchored s pos]: match [re] at the start of [s], which begins at
    offset [pos] of the subject; the result lists the offsets of the group
    marks, followed by the offset where the match ends. *)
Fixpoint run (re : regex) (anchored : bool) (s : str) (pos : nat)
  : option (list nat) :=
  match re with
  | [] =>
      if anchored then match s with [] => Some [pos] | _ => None end
      else Some [pos]
  | Mark :: re' => cons pos <$> run re' anchored s pos
  | Rep cl lo hi g :: re' =>
      (if g then rep_greedy else rep_lazy)
        (in_class cl) lo hi (run re' anchored) 0 s pos
  end.

(** [re.match(re, s)] *)
Definition match_ (re : regex) (s : str) : option (list nat) :=
  run re false s 0.

(** [re.match(re + '$', s)] without a trailing newline *)
Definition fullmatch (re : regex) (s : str) : option (list nat) :=
  run re true s 0.

(** [re.search(re, s)], as a truth value *)
Fixpoint search (re : regex) (s : str) : bool :=
  match match_ re s with
  | Some _ => true
  | None => match s with [] => false | _ :: s' => search re s' end
  end.

(** [m.group(i)], for [i >= 1], from the offsets of a match *)
Definition slice (s : str) (a b : nat) : str := firstn (b - a) (skipn a s).

Definition group (s : str) (m : list nat) (i : nat) : str :=
  slice s (nth (2 * (i - 1)) m 0) (nth (2 * (i - 1) + 1) m 0).

(** The words of a pattern, declaratively. *)
Inductive lang : regex -> str -> Prop :=
| lang_nil : lang [] []
| lang_mark re s : lang re s -> lang (Mark :: re) s
| lang_rep cl lo hi g re w s :
    Forall (fun c => in_class cl c = true) w ->
    lo <= length w -> upto hi (length w) ->
    lang re s ->
    lang (Rep cl lo hi g :: re) (w ++ s).

(** Some prefix of [s] is a word of the pattern. *)
Definition prefix_in (re : regex) (s : str) : Prop :=
  exists w rest, s = w ++ rest /\ lang re w.

End Re.

(** The date token [\d{2}/\d{2}/\d{2}]. *)
Definition date_re : Re.regex :=
  [Re.exactly Re.CDigit 2; Re.lit "/"; Re.exactly Re.CDigit 2; Re.lit "/";
   Re.exactly Re.CDigit 2].

(** [re.match(r'\d{2}/\d{2}/\d{2}', s)] as a truth value *)
Definition match_date (s : str) : bool :=
  match Re.match_ date_re s with Some _ => true | None => false end.


(** ** Python floats

    [float(s)] reads a decimal literal and rounds it to the nearest binary64
    number (ties to even); [+] on floats is the IEEE-754 addition. *)

Module PyFloat.

Definition prec : Z := 53%Z.
Definition emax : Z := 1024%Z.

Abbreviation float := spec_float.

Definition fzero : float := S754_zero false.

(** [x + y] *)
Definition fadd (x y : float) : float := SFadd prec emax x y.

(** [x > 0], [x <= y] *)
Definition gt0 (x : float) : bool := SFltb fzero x.
Definition fle (x y : float) : bool := SFleb x y.

(** What a float literal denotes before rounding. *)
Inductive literal :=
| LInf (neg : bool)
| LNan
| LDec (neg : bool) (m : Z) (e : Z).    (* (-1)^neg * m * 10^e, 0 <= m *)

(** The binary64 number nearest to [(-1)^neg * m * 10^e]. *)
Definition round_decimal (neg : bool) (m e : Z) : float :=
  match m with
  | Z0 => S754_zero neg
  | Zpos _ =>
      if (0 <=? e)%Z then
        binary_normalize prec emax (cond_Zopp neg (m * 10 ^ e)) 0 false
      else
        let '(q, e', l) :=
          SFdiv_core_binary prec emax m 0 (10 ^ (- e)) 0 in
        binary_round_aux prec emax neg q e' l
  | Zneg _ => S754_nan
  end.

Definition float_of_literal (l : literal) : float :=
  match l with
  | LInf neg => S754_infinity neg
  | LNan => S754_nan
  | LDec neg m e => round_decimal neg m e
  end.

(** The exact value of a decimal literal and of a finite float. *)
Definition Q_of_literal (l : literal) : option Q :=
  match l with
  | LDec neg m e =>
      Some (if (0 <=? e)%Z then inject_Z (cond_Zopp neg (m * 10 ^ e))
            else Qmake (cond_Zopp neg m) (Z.to_pos (10 ^ (- e))))
  | _ => None
  end.

Definition Q_of_float (x : float) : option Q :=
  match x with
  | S754_zero _ => Some (inject_Z 0)
  | S754_finite s m e =>
      Some (if (0 <=? e)%Z then inject_Z (cond_Zopp s (Zpos m * 2 ^ e))
            else Qmake (cond_Zopp s (Zpos m)) (Z.to_pos (2 ^ (- e))))
  | _ => None
  end.

(** *** The grammar of [float(s)] *)

Definition lower_char (c : ascii) : ascii :=
  let n := code c in
  if (65 <=? n) && (n <=? 90) then ascii_of_nat (n + 32) else c.

Definition is_char (x c : ascii) : bool :=
  if ascii_dec x c then true else false.

(** Underscores are dropped; each must stand between two digits. *)
Fixpoint drop_underscores (prev : ascii) (s : str) : option str :=
  match s with
  | [] => if is_char prev "_" then None else Some []
  | c :: s' =>
      if is_char c "_" then
        if isdigit prev then drop_underscores c s' else None
      else if is_char prev "_" && negb (isdigit c) then None
      else cons c <$> drop_underscores c s'
  end.

Fixpoint span (p : ascii -> bool) (s : str) : str * str :=
  match s with
  | c :: s' => if p c then let '(a, b) := span p s' in (c :: a, b)
               else ([], s)
  | [] => ([], [])
  end.

Definition digit_val (c : ascii) : Z := Z.of_nat (code c - 48).

(** The number written by a run of digits. *)
Definition digits_val (ds : str) : Z :=
  fold_left (fun acc c => (10 * acc + digit_val c)%Z) ds 0%Z.

Definition take_sign (s : str) : bool * str :=
  match s with
  | c :: s' =>
      if is_char c "-" then (true, s')
      else if is_char c "+" then (false, s')
      else (false, s)
  | [] => (false, [])
  end.

Definition parse_number (neg : bool) (s : str) : option literal :=
  let '(ip, r1) := span isdigit s in
  let '(fp, r2) :=
    match r1 with
    | c :: r => if is_char c "." then span isdigit r else ([], r1)
    | [] => ([], [])
    end in
  match ip ++ fp with
  | [] => None
  | _ :: _ =>
      let m := digits_val (ip ++ fp) in
      let scale := Z.of_nat (length fp) in
      match r2 with
      | [] => Some (LDec neg m (- scale))
      | c :: r3 =>
          if is_char (lower_char c) "e" then
            let '(eneg, r4) := take_sign r3 in
            let '(ed, r5) := span isdigit r4 in
            match ed, r5 with
            | _ :: _, [] =>
                Some (LDec neg m (cond_Zopp eneg (digits_val ed) - scale))
            | _, _ => None
            end
          else None
      end
  end.

(** The spaces that [float] strips from an ASCII string:
    TAB, LF, VT, FF, CR and the space. *)
Definition is_c_space (c : ascii) : bool :=
  let n := code c in ((9 <=? n) && (n <=? 13)) || (n =? 32).

Definition parse_literal (s0 : str) : option literal :=
  match drop_underscores "000" s0 with
  | None => None
  | Some s1 =>
      let '(neg, body) := take_sign (strip_by is_c_space s1) in
      let low := map lower_char body in
      if str_eqb low (py "inf") || str_eqb low (py "infinity")
      then Some (LInf neg)
      else if str_eqb low (py "nan") then Some LNan
      else parse_number neg body
  end.

(** [float(s)]; [None] when Python raises [ValueError]. *)
Definition float_of_str (s : str) : option float :=
  float_of_literal <$> parse_literal s.

(** The exact decimal value written by [s], when it is a finite literal. *)
Definition exact_of_str (s : str) : option Q :=
  parse_literal s ≫= Q_of_literal.

(** [float(s.replace(',', ''))], the amount parser of every script *)
Definition parse_amount (s : str) : option float :=
  float_of_str (remove_char "," s).

Definition exact_amount (s : str) : option Q :=
  exact_of_str (remove_char "," s).

End PyFloat.

Import PyFloat.

(** ** Transaction records

    The dictionaries built by the parsers, and the rows of the CSV files
    written from them (columns [Statement ID], [Page], [Transaction Date],
    [Posting Date], [Description], [Amount (THB)]). *)

Record transaction := {
  statement_id : str;
  page : str;
  transaction_date : str;
  posting_date : str;
  description : str;
  amount : str
}.

Global Instance transaction_eq_dec : EqDecision transaction.
Proof. solve_decision. Defined.

(** ** batch_extract_all.py *)

Module Batch.

(** The body of the [for line in lines] loop of [parse_transactions]. *)
Definition parse_line (sid pg : str) (transactions : list transaction)
    (line0 : str) : list transaction :=
  let line := strip line0 in
  if str_eqb line [] || str_eqb line (py "NO_TRANSACTIONS") then transactions
  else if startswith (py "```") line || startswith (py "DATE|POSTING") line
  then transactions
  else
    let parts := split "|" line in
    if 4 <=? length parts then
      let trans_date := strip (nth 0 parts []) in
      let post_date := strip (nth 1 parts []) in
      let descr := strip (nth 2 parts []) in
      let amt := strip (nth 3 parts []) in
      if match_date trans_date then
        transactions ++
          [{| statement_id := sid; page := pg;
              transaction_date := trans_date; posting_date := post_date;
              description := descr; amount := amt |}]
      else transactions
    else transactions.

(** [parse_transactions(output, statement_id, page_num)] *)
Definition parse_transactions (output sid pg : str) : list transaction :=
  if str_eqb output [] || str_eqb output (py "NO_TRANSACTIONS")
     || contains (py "ERROR") output
  then []
  else fold_left (parse_line sid pg) (split nl output) [].

(** The comparison key of [deduplicate_transactions]. *)
Definition key : Type := str * str * str * str.

Definition key_of (t : transaction) : key :=
  (transaction_date t, posting_date t, description t, amount t).

(** The body of the loop: [seen] and [unique_transactions]. *)
Definition dedup_step (st : gset key * list transaction) (t : transaction)
  : gset key * list transaction :=
  let '(seen, unique_transactions) := st in
  if decide (key_of t ∈ seen) then st
  else ({[ key_of t ]} ∪ seen, unique_transactions ++ [t]).

(** [deduplicate_transactions(transactions)] *)
Definition deduplicate_transactions (transactions : list transaction)
  : list transaction :=
  snd (fold_left dedup_step transactions (∅, [])).

End Batch.

(** ** Aggregate buckets: the values of [ai_services] / [service_totals] *)

Record bucket := { count : nat; total : float }.

Definition empty_bucket : bucket := {| count := 0; total := fzero |}.

(** [d[service]['count'] += 1; d[service]['total'] += amount], after the
    bucket was created when absent. *)
Definition add_to_bucket (service : str) (a : float)
    (d : gmap str bucket) : gmap str bucket :=
  let b := default empty_bucket (d !! service) in
  <[ service := {| count := S (count b); total := fadd (total b) a |} ]> d.

(** ** ai_workflow.py *)

Module Workflow.

(** The body of the loop of [extract_transactions_with_opencode]. *)
Definition parse_line (sid pg : str) (transactions : list transaction)
    (line0 : str) : list transaction :=
  let line := strip line0 in
  if contains (py "|") line && match_date line then
    let parts := split "|" line in
    if 4 <=? length parts then
      transactions ++
        [{| statement_id := sid; page := pg;
            transaction_date := strip (nth 0 parts []);
            posting_date := strip (nth 1 parts []);
            description := strip (nth 2 parts []);
            amount := strip (nth 3 parts []) |}]
    else transactions
  else transactions.

(** [extract_transactions_with_opencode], from the standard output of the
    external tool on. *)
Definition extract_transactions_with_opencode (stdout sid pg : str)
  : list transaction :=
  let output := strip stdout in
  if negb (str_eqb output []) && negb (contains (py "NO_TRANSACTIONS") output)
  then fold_left (parse_line sid pg) (split nl output) []
  else [].

(** [ai_keywords], each read as a regular expression by [re.search]. *)
Definition ai_keywords : list Re.regex :=
  [ Re.lits "OPENROUTER"; Re.lits "ANTHROPIC"; Re.lits "RUNPOD";
    Re.lits "KIE" ++ [Re.exactly Re.CDot 1] ++ Re.lits "AI";
    Re.lits "KIE AI"; Re.lits "BUDGIEAI"; Re.lits "BUDGIE AI";
    Re.lits "DIGITALOCEAN";
    Re.lits "STRIPE" ++ [Re.star Re.CDot] ++ Re.lits "Z.AI";
    Re.lits "GOOGLE" ++ [Re.star Re.CDot] ++ Re.lits "CLOUD" ].

Definition is_ai (row : transaction) : bool :=
  let desc := upper (description row) in
  existsb (fun keyword => Re.search keyword desc) ai_keywords.

(** The body of the loop of [filter_ai_transactions]; a [ValueError] of
    [float] is caught and the row is passed over. *)
Definition filter_step (ai_transactions : list transaction)
    (row : transaction) : list transaction :=
  if is_ai row then
    match parse_amount (amount row) with
    | Some a => if gt0 a then ai_transactions ++ [row] else ai_transactions
    | None => ai_transactions
    end
  else ai_transactions.

(** [filter_ai_transactions], from the rows of the input CSV on. *)
Definition filter_ai_transactions (rows : list transaction)
  : list transaction :=
  fold_left filter_step rows [].

(** The [if]/[elif] chain of [generate_summary]. *)
Definition service_of (desc : str) : str :=
  if contains (py "OPENROUTER") desc then py "OpenRouter AI"
  else if contains (py "ANTHROPIC") desc then py "Anthropic AI"
  else if contains (py "RUNPOD") desc then py "RunPod GPU"
  else if contains (py "KIE.AI") desc || contains (py "KIE AI") desc
  then py "Kie.ai"
  else if contains (py "BUDGIEAI") desc || contains (py "BUDGIE AI") desc
  then py "BudgieAI"
  else if contains (py "DIGITALOCEAN") desc then py "DigitalOcean"
  else if contains (py "STRIPE") desc && contains (py "Z.AI") desc
  then py "Z.AI Service"
  else if contains (py "GOOGLE") desc && contains (py "CLOUD") desc
  then py "Google Cloud"
  else py "Other AI Service".

(** The label given to a row. *)
Definition classify (description : str) : str :=
  service_of (upper description).

(** The state of the loop of [generate_summary]: [ai_services] and
    [total_amount]. *)
Definition summary : Type := gmap str bucket * float.

(** The body of the loop; [None] when [float] raises, which ends
    [generate_summary]. *)
Definition summary_step (st : summary) (row : transaction)
  : option summary :=
  let '(ai_services, total_amount) := st in
  let desc := upper (description row) in
  match parse_amount (amount row) with
  | None => None
  | Some a =>
      let service := service_of desc in
      Some (add_to_bucket service a ai_services, fadd total_amount a)
  end.

Fixpoint summary_loop (st : summary) (rows : list transaction)
  : option summary :=
  match rows with
  | [] => Some st
  | row :: rows' =>
      match summary_step st row with
      | Some st' => summary_loop st' rows'
      | None => None
      end
  end.

(** [generate_summary(ai_transactions)], up to the printing. *)
Definition generate_summary (ai_transactions : list transaction)
  : option summary :=
  summary_loop (∅, fzero) ai_transactions.

End Workflow.

(** ** ai_workflow_brain.py *)

Module Brain.

(** A transaction with the [service] label given by the external tool. *)
Record ai_transaction := { txn : transaction; service : str }.

Definition summary : Type := gmap str bucket * float.

(** The body of the summary loop of [save_and_summarize]; a [ValueError]
    of [float] is caught and the record is passed over. *)
Definition summary_step (st : summary) (t : ai_transaction) : summary :=
  let '(service_totals, total_amount) := st in
  match parse_amount (amount (txn t)) with
  | Some a =>
      (add_to_bucket (service t) a service_totals, fadd total_amount a)
  | None => st
  end.

(** [save_and_summarize(transactions, output_file)], its summary. *)
Definition save_and_summarize (transactions : list ai_transaction)
  : summary :=
  fold_left summary_step transactions (∅, fzero).

End Brain.

(** ** format_for_sheets.py *)

Module Sheets.

(** A calendar date, as [datetime.strptime] returns it. *)
Record date := { year : nat; month : nat; day : nat }.

Definition between (lo hi : string) (c : ascii) : bool :=
  match py lo, py hi with
  | [a], [b] => (code a <=? code c) && (code c <=? code b)
  | _, _ => false
  end.

Definition digit_nat (c : ascii) : nat := code c - 48.

(** The directive [%d]: [3[0-1]|[1-2]\d|0[1-9]|[1-9]| [1-9]]. *)
Definition parse_day (s : str) : option nat :=
  match s with
  | [a; b] =>
      if (is_char a "3" && between "0" "1" b)
         || (between "1" "2" a && isdigit b)
         || (is_char a "0" && between "1" "9" b)
      then Some (10 * digit_nat a + digit_nat b)
      else if is_char a " " && between "1" "9" b then Some (digit_nat b)
      else None
  | [a] => if between "1" "9" a then Some (digit_nat a) else None
  | _ => None
  end.

(** The directive [%m]: [1[0-2]|0[1-9]|[1-9]]. *)
Definition parse_month (s : str) : option nat :=
  match s with
  | [a; b] =>
      if (is_char a "1" && between "0" "2" b)
         || (is_char a "0" && between "1" "9" b)
      then Some (10 * digit_nat a + digit_nat b)
      else None
  | [a] => if between "1" "9" a then Some (digit_nat a) else None
  | _ => None
  end.

(** The directive [%Y]: [\d\d\d\d], with nothing left over. *)
Definition parse_year (s : str) : option nat :=
  match s with
  | [a; b; c; d] =>
      if isdigit a && isdigit b && isdigit c && isdigit d
      then Some (1000 * digit_nat a + 100 * digit_nat b
                 + 10 * digit_nat c + digit_nat d)
      else None
  | _ => None
  end.

Definition is_leap (y : nat) : bool :=
  ((y mod 4 =? 0) && negb (y mod 100 =? 0)) || (y mod 400 =? 0).

Definition days_in_month (y m : nat) : nat :=
  match m with
  | 2 => if is_leap y then 29 else 28
  | 4 | 6 | 9 | 11 => 30
  | _ => 31
  end.

(** [datetime.strptime(s, "%d/%m/%Y")] on the three fields of [s]. *)
Definition strptime (d m y : str) : option date :=
  match parse_day d, parse_month m, parse_year y with
  | Some dd, Some mm, Some yy =>
      if (1 <=? yy) && (dd <=? days_in_month yy mm)
      then Some {| year := yy; month := mm; day := dd |}
      else None
  | _, _, _ => None
  end.

(** [parse_date(date_str)]; [None] for every exception. *)
Definition parse_date (date_str : str) : option date :=
  match split "/" date_str with
  | [d; m; year_short] => strptime d m (py "20" ++ year_short)
  | _ => None
  end.

Definition months_thai : list str :=
  map py ["January"; "February"; "March"; "April"; "May"; "June"; "July";
          "August"; "September"; "October"; "November"; "December"].

Definition get_month_thai (d : date) : str :=
  nth (month d - 1) months_thai [].

(** A row of the spreadsheet export. *)
Record sheet_row := {
  row_date : str;
  row_month : str;
  row_description : str;
  row_price : float;
  row_quantity : nat;
  row_total : float
}.

(** The [if]/[elif] chain: [None] stands for [is_ai = False]. *)
Definition service_name_of (desc : str) : option str :=
  if contains (py "OPENROUTER") desc then Some (py "OpenRouter AI")
  else if contains (py "GOOGLE") desc && contains (py "CLOUD") desc
  then Some (py "Google Cloud")
  else if contains (py "ANTHROPIC") desc then Some (py "Anthropic AI")
  else if contains (py "RUNPOD") desc then Some (py "RunPod GPU")
  else if contains (py "KIE.AI") desc || contains (py "KIE AI") desc
  then Some (py "Kie.ai")
  else if contains (py "BUDGIEAI") desc || contains (py "BUDGIE AI") desc
  then Some (py "BudgieAI")
  else if contains (py "DIGITALOCEAN") desc then Some (py "DigitalOcean")
  else if contains (py "STRIPE") desc && contains (py "Z.AI") desc
  then Some (py "Z.AI Service")
  else None.

Definition classify (description : str) : option str :=
  service_name_of (upper description).

(** The body of the reading loop; [None] when [float] raises, which ends
    the script. *)
Definition format_step (ai_transactions : list sheet_row)
    (row : transaction) : option (list sheet_row) :=
  let desc := upper (description row) in
  match parse_amount (amount row) with
  | None => None
  | Some a =>
      match service_name_of desc with
      | Some service_name =>
          if gt0 a then
            let trans_date := transaction_date row in
            match parse_date trans_date with
            | Some date_obj =>
                Some (ai_transactions ++
                  [{| row_date := trans_date;
                      row_month := get_month_thai date_obj;
                      row_description := service_name;
                      row_price := a; row_quantity := 1;
                      row_total := a |}])
            | None => Some ai_transactions
            end
          else Some ai_transactions
      | None => Some ai_transactions
      end
  end.

Fixpoint format_loop (acc : list sheet_row) (rows : list transaction)
  : option (list sheet_row) :=
  match rows with
  | [] => Some acc
  | row :: rows' =>
      match format_step acc row with
      | Some acc' => format_loop acc' rows'
      | None => None
      end
  end.

(** The sort key [parse_date(x['date']) or datetime.min]. *)
Definition sort_key (r : sheet_row) : nat * nat * nat :=
  match parse_date (row_date r) with
  | Some d => (year d, month d, day d)
  | None => (1, 1, 1)
  end.

Definition key_ltb (a b : nat * nat * nat) : bool :=
  let '(y1, m1, d1) := a in
  let '(y2, m2, d2) := b in
  (y1 <? y2) || ((y1 =? y2) && ((m1 <? m2) || ((m1 =? m2) && (d1 <? d2)))).

(** [list.sort(key=...)]: a stable sort. *)
Fixpoint insert_sorted (x : sheet_row) (l : list sheet_row)
  : list sheet_row :=
  match l with
  | [] => [x]
  | y :: l' =>
      if key_ltb (sort_key y) (sort_key x) then y :: insert_sorted x l'
      else x :: l
  end.

Definition sort_by_date (l : list sheet_row) : list sheet_row :=
  foldr insert_sorted [] l.

(** [format_for_google_sheets()], from the rows of [all_transactions.csv]
    to the rows written out. *)
Definition format_for_google_sheets (rows : list transaction)
  : option (list sheet_row) :=
  sort_by_date <$> format_loop [] rows.

End Sheets.

(** ** extract_transactions.py *)

Module Ocr.

Record transaction := {
  transaction_date : str;
  posting_date : str;
  description : str;
  amount : str
}.

(** [(\d{2}/\d{2}/\d{2,4})\s+(\d{2}/\d{2}/\d{2,4})\s+(.+?)\s+(-?[\d,]+\.\d{2})] *)
Definition date_group : Re.regex :=
  [Re.Mark; Re.exactly Re.CDigit 2; Re.lit "/"; Re.exactly Re.CDigit 2;
   Re.lit "/"; Re.Rep Re.CDigit 2 (Some 4) true; Re.Mark].

Definition pattern : Re.regex :=
  date_group ++ [Re.plus Re.CSpace] ++
  date_group ++ [Re.plus Re.CSpace] ++
  [Re.Mark; Re.plus_lazy Re.CDot; Re.Mark] ++ [Re.plus Re.CSpace] ++
  [Re.Mark; Re.opt (Re.CChar "-"); Re.plus (Re.COr Re.CDigit (Re.CChar ","));
   Re.lit "."; Re.exactly Re.CDigit 2; Re.Mark].

(** The body of the loop of [parse_transactions]. *)
Definition parse_line (transactions : list transaction) (line : str)
  : list transaction :=
  let subject := strip line in
  match Re.match_ pattern subject with
  | Some m =>
      transactions ++
        [{| transaction_date := Re.group subject m 1;
            posting_date := Re.group subject m 2;
            description := strip (Re.group subject m 3);
            amount := Re.group subject m 4 |}]
  | None => transactions
  end.

(** [parse_transactions(text)] *)
Definition parse_transactions (text : str) : list transaction :=
  fold_left parse_line (split nl text) [].

End Ocr.

(** ** Definitions used to state the properties *)

(** The record made of the first four stripped segments of a line. *)
Definition record_of_segments (sid pg : str) (segs : list str)
  : transaction :=
  {| statement_id := sid; page := pg;
     transaction_date := strip (nth 0 segs []);
     posting_date := strip (nth 1 segs []);
     description := strip (nth 2 segs []);
     amount := strip (nth 3 segs []) |}.

(** A character that is neither a space nor the pipe. *)
Definition plain (c : ascii) : Prop := isspace c = false /\ c <> "|"%char.

(** A run of [n + length w] characters of the class [cl], [w] of them in
    front of the subject, within the bounds [lo] and [hi] and followed by a
    remainder accepted by [K]. *)
Definition rep_word (cl : ascii -> bool) (lo : nat) (hi : option nat)
    (K : str -> Prop) (n : nat) (s : str) : Prop :=
  exists w s', s = w ++ s' /\ Forall (fun c => cl c = true) w /\
    lo <= n + length w /\ Re.upto hi (n + length w) /\ K s'.

(** *** The deduplicator, in the words of the specification *)

(** Two records are exact duplicates when their transaction date, posting
    date, description and amount are equal; the statement and the page are
    left out of the comparison. *)
Definition same_key (a b : transaction) : Prop :=
  transaction_date a = transaction_date b /\
  posting_date a = posting_date b /\
  description a = description b /\
  amount a = amount b.

Global Instance same_key_dec a b : Decision (same_key a b).
Proof. unfold same_key. apply _. Defined.

(** The records of [ts] that are no exact duplicate of a record before them,
    in their order; [earlier] lists the records that come before [ts]. *)
Fixpoint first_occurrences_from (earlier ts : list transaction)
  : list transaction :=
  match ts with
  | [] => []
  | t :: ts' =>
      (if decide (Exists (fun e => same_key e t) earlier) then [] else [t])
      ++ first_occurrences_from (earlier ++ [t]) ts'
  end.

Definition first_occurrences (ts : list transaction) : list transaction :=
  first_occurrences_from [] ts.

(** *** The vendor classifier, in the words of the specification *)

(** A vendor rule: a test on the upper-cased description, and the label it
    gives. *)
Definition vendor_rule : Type := (str -> bool) * str.

(** Rules are tried in order and the first one that matches wins. *)
Fixpoint first_match (rules : list vendor_rule) (desc : str) : option str :=
  match rules with
  | [] => None
  | (test, label) :: rules' =>
      if test desc then Some label else first_match rules' desc
  end.

(** [desc] contains the signature [kw]. *)
Definition has (kw : string) (desc : str) : bool := contains (py kw) desc.

(** The table of section 4.4, by priority. *)
Definition vendor_table : list vendor_rule :=
  [ (has "OPENROUTER", py "OpenRouter AI");
    (has "ANTHROPIC", py "Anthropic AI");
    (has "RUNPOD", py "RunPod GPU");
    (fun d => has "KIE.AI" d || has "KIE AI" d, py "Kie.ai");
    (fun d => has "BUDGIEAI" d || has "BUDGIE AI" d, py "BudgieAI");
    (has "DIGITALOCEAN", py "DigitalOcean");
    (fun d => has "STRIPE" d && has "Z.AI" d, py "Z.AI Service");
    (fun d => has "GOOGLE" d && has "CLOUD" d, py "Google Cloud") ].

(** The same rules with the Google Cloud rule in second place. *)
Definition sheets_table : list vendor_rule :=
  [ (has "OPENROUTER", py "OpenRouter AI");
    (fun d => has "GOOGLE" d && has "CLOUD" d, py "Google Cloud");
    (has "ANTHROPIC", py "Anthropic AI");
    (has "RUNPOD", py "RunPod GPU");
    (fun d => has "KIE.AI" d || has "KIE AI" d, py "Kie.ai");
    (fun d => has "BUDGIEAI" d || has "BUDGIE AI" d, py "BudgieAI");
    (has "DIGITALOCEAN", py "DigitalOcean");
    (fun d => has "STRIPE" d && has "Z.AI" d, py "Z.AI Service") ].

(** *** Records used in the examples *)

Definition mk_txn (d1 d2 desc amt : string) : transaction :=
  {| statement_id := py "2025-01-25"; page := py "1";
     transaction_date := py d1; posting_date := py d2;
     description := py desc; amount := py amt |}.

(** The statement payment of the second end-to-end scenario. *)
Definition ktb_payment : transaction :=
  mk_txn "07/01/25" "07/01/25" "Payment-KTB Internet" "-8,851.33".

(** *** The aggregator, in the words of the specification *)

(** The float sum of the amounts, added one by one to 0. *)
Definition fsum (amounts : list float) : float :=
  fold_left fadd amounts fzero.

(** The bucket of a label to which these amounts were attributed, in this
    order; no bucket when there is none. *)
Definition bucket_of (amounts : list float) : option bucket :=
  match amounts with
  | [] => None
  | _ :: _ => Some {| count := length amounts; total := fsum amounts |}
  end.

(** The parsed amounts of the rows that [generate_summary] attributes to
    [label], and of all its rows. *)
Definition workflow_amounts (label : str) (rows : list transaction)
  : list float :=
  omap (fun row => parse_amount (amount row))
       (filter (fun row => Workflow.classify (description row) = label) rows).

Definition all_amounts (rows : list transaction) : list float :=
  omap (fun row => parse_amount (amount row)) rows.

(** The parsed amounts of the records that [save_and_summarize] attributes
    to [label], and of all its records; a record whose amount does not parse
    is attributed to no bucket. *)
Definition brain_amounts (label : str) (ts : list Brain.ai_transaction)
  : list float :=
  omap (fun t => parse_amount (amount (Brain.txn t)))
       (filter (fun t => Brain.service t = label) ts).

Definition brain_all_amounts (ts : list Brain.ai_transaction) : list float :=
  omap (fun t => parse_amount (amount (Brain.txn t))) ts.

(** The count of a label in a summary; 0 when it has no bucket. *)
Definition count_of (label : str) (d : gmap str bucket) : nat :=
  match d !! label with Some b => count b | None => 0 end.

(** A record of [ai_workflow_brain.py]. *)
Definition mk_ai (d1 d2 desc amt svc : string) : Brain.ai_transaction :=
  {| Brain.txn := mk_txn d1 d2 desc amt; Brain.service := py svc |}.

(** *** Floats that arise from sums of positive amounts *)

(** The outcome of rounding a number with mantissa [m1] at the exponent
    [E]: zero only when [m1] is zero; otherwise infinity or a valid finite
    number whose exponent is above [E], or is [E] with a mantissa that is at
    least [m1]. *)
Inductive rounded (s : bool) (m1 E : Z) : float -> Prop :=
| rounded_zero : m1 = 0%Z -> rounded s m1 E (S754_zero s)
| rounded_finite p e :
    SpecFloat.bounded prec emax p e = true ->
    (E < e \/ (e = E /\ m1 <= Zpos p))%Z ->
    rounded s m1 E (S754_finite s p e)
| rounded_infinity : rounded s m1 E (S754_infinity s).

(** A float that is not negative and not a NaN, in canonical form. *)
Definition sound_nonneg (x : float) : Prop :=
  match x with
  | S754_zero _ => True
  | S754_finite false m e => SpecFloat.bounded prec emax m e = true
  | S754_infinity false => True
  | _ => False
  end.

(** A positive float in canonical form. *)
Definition sound_pos (x : float) : Prop :=
  match x with
  | S754_finite false m e => SpecFloat.bounded prec emax m e = true
  | S754_infinity false => True
  | _ => False
  end.

(** The total of a label in a summary; 0 when it has no bucket. *)
Definition total_of (label : str) (d : gmap str bucket) : float :=
  match d !! label with Some b => total b | None => fzero end.

(** A row whose amount parses to a number above zero, as the filter of the
    classify-and-filter mode leaves them. *)
Definition positive_amount (row : transaction) : Prop :=
  exists a, parse_amount (amount row) = Some a /\ gt0 a = true.
(** ** The rest of the scripts

    The clean-up of the tool's answer, the naming of the page images and
    its reading back, the main loops and the parsers of
    [ai_workflow_brain.py] and [extract_transactions_opencode.py]. *)

From Stdlib Require Import DecimalString DecimalNat Sorted.

(** *** Substitution and replacement *)

(** [\w] on ASCII text: the digits, the letters and the underscore. *)
Definition word_class : Re.cclass :=
  foldr (fun c cl => Re.COr (Re.CChar c) cl) Re.CDigit
    (py "_abcdefghijklmnopqrstuvwxyzABCDEFGHIJKLMNOPQRSTUVWXYZ").

(** The offset where a match ends. *)
Definition match_end (m : list nat) : nat := List.last m 0.

(** [re.sub(re, '', s)]: the subject is read from left to right; where the
    pattern matches, the matched characters are dropped and the search goes
    on after them; an empty match drops nothing.  [skip] counts the
    characters of the current match that are still to be dropped. *)
Fixpoint sub_from (re : Re.regex) (skip : nat) (s : str) : str :=
  match s with
  | [] => []
  | c :: s' =>
      match skip with
      | S k => sub_from re k s'
      | 0 =>
          match Re.match_ re s with
          | Some m =>
              match match_end m with
              | S e => sub_from re e s'
              | 0 => c :: sub_from re 0 s'
              end
          | None => c :: sub_from re 0 s'
          end
      end
  end.

Definition re_sub_empty (re : Re.regex) (s : str) : str := sub_from re 0 s.

(** [s.replace(old, new)] for a non-empty [old]: the occurrences of [old]
    are replaced from left to right, without overlap. *)
Fixpoint replace_from (old new : str) (skip : nat) (s : str) : str :=
  match s with
  | [] => []
  | c :: s' =>
      match skip with
      | S k => replace_from old new k s'
      | 0 =>
          if startswith old s
          then new ++ replace_from old new (length old - 1) s'
          else c :: replace_from old new 0 s'
      end
  end.

Definition replace (old new s : str) : str := replace_from old new 0 s.

(** [str(n)] for a natural number. *)
Definition str_of_nat (n : nat) : str :=
  py (NilEmpty.string_of_uint (Nat.to_uint n)).

(** *** The clean-up of the answer of the external tool *)

(** The three backquotes of a code fence. *)
Definition fence : str := py "```".

(** [```[\w]*\n?] and [\n```] *)
Definition fence_open : Re.regex :=
  Re.lits "```" ++ [Re.star word_class; Re.opt (Re.CChar nl)].

Definition fence_close : Re.regex := Re.lit nl :: Re.lits "```".

(** The four statements after [subprocess.run] in
    [extract_transactions_from_image] and in
    [extract_and_identify_ai_transactions]. *)
Definition clean_output (stdout : str) : str :=
  let output := strip stdout in
  let output := re_sub_empty fence_open output in
  let output := re_sub_empty fence_close output in
  strip output.

(** *** pdf_converter.py *)

Module Converter.

(** [f"{pdf_name}_page_{page_num + 1}.jpg"] *)
Definition jpeg_filename (pdf_name : str) (page_num : nat) : str :=
  pdf_name ++ py "_page_" ++ str_of_nat (page_num + 1) ++ py ".jpg".

(** [convert_pdf_to_jpeg]: the names of the images written for a document
    of [total_pages] pages, and the number of pages. *)
Definition convert_pdf_to_jpeg (pdf_name : str) (total_pages : nat)
  : list str * nat :=
  if total_pages =? 0 then ([], 0)
  else (map (jpeg_filename pdf_name) (seq 0 total_pages), total_pages).

End Converter.

(** *** The main loop of batch_extract_all.py *)

Module BatchMain.

(** What [subprocess.run] does: it returns the standard output, runs out of
    time, or raises another exception with a message. *)
Inductive tool_result :=
| Stdout (s : str)
| Timeout
| Failure (message : str).

(** [extract_transactions_from_image], from the outcome of the call on. *)
Definition extract_transactions_from_image (r : tool_result) : str :=
  match r with
  | Stdout s => clean_output s
  | Timeout => py "ERROR: Timeout"
  | Failure message => py "ERROR: " ++ message
  end.

(** [(\d{4}-\d{2}-\d{2})_page_(\d+)\.jpg] *)
Definition image_name_re : Re.regex :=
  [Re.Mark; Re.exactly Re.CDigit 4; Re.lit "-"; Re.exactly Re.CDigit 2;
   Re.lit "-"; Re.exactly Re.CDigit 2; Re.Mark] ++
  Re.lits "_page_" ++ [Re.Mark; Re.plus Re.CDigit; Re.Mark] ++
  Re.lits ".jpg".

(** The statement id and the page number read from the name of an image. *)
Definition statement_and_page (img_file : str) : str * str :=
  match Re.match_ image_name_re img_file with
  | Some m => (Re.group img_file m 1, Re.group img_file m 2)
  | None => (replace (py ".jpg") [] img_file, py "1")
  end.

(** The body of the loop over the images. *)
Definition process_image (all_transactions : list transaction)
    (img : str * tool_result) : list transaction :=
  let '(img_file, r) := img in
  let '(statement_id, page_num) := statement_and_page img_file in
  let result := extract_transactions_from_image r in
  if startswith (py "ERROR") result then all_transactions
  else if str_eqb result (py "NO_TRANSACTIONS") then all_transactions
  else
    match Batch.parse_transactions result statement_id page_num with
    | [] => all_transactions
    | transactions => all_transactions ++ transactions
    end.

(** [main], from the sorted list of the images, each with the outcome of
    the tool on it, to the rows written to the CSV file. *)
Definition main (all_images : list (str * tool_result))
  : list transaction :=
  Batch.deduplicate_transactions (fold_left process_image all_images []).

End BatchMain.

(** *** The loop over the images of ai_workflow.py and ai_workflow_brain.py *)

(** [(\d{4}-\d{2}-\d{2})_page_(\d+)], matched on the stem of the path. *)
Definition stem_re : Re.regex :=
  [Re.Mark; Re.exactly Re.CDigit 4; Re.lit "-"; Re.exactly Re.CDigit 2;
   Re.lit "-"; Re.exactly Re.CDigit 2; Re.Mark] ++
  Re.lits "_page_" ++ [Re.Mark; Re.plus Re.CDigit; Re.Mark].

(** The statement id and the page number of [extract_all_transactions] and
    of [process_all_images], from [Path(img_path).stem]. *)
Definition statement_and_page_of_stem (filename : str) : str * str :=
  match Re.match_ stem_re filename with
  | Some m => (Re.group filename m 1, Re.group filename m 2)
  | None => (filename, py "1")
  end.

(** *** The parser of ai_workflow_brain.py *)

Module BrainExtract.

(** The body of the loop of [extract_and_identify_ai_transactions]. *)
Definition parse_line (sid pg : str)
    (transactions : list Brain.ai_transaction) (line0 : str)
  : list Brain.ai_transaction :=
  let line := strip line0 in
  if contains (py "|") line then
    let parts := split "|" line in
    if (5 <=? length parts) && match_date (nth 0 parts []) then
      transactions ++
        [{| Brain.txn :=
              {| statement_id := sid; page := pg;
                 transaction_date := strip (nth 0 parts []);
                 posting_date := strip (nth 1 parts []);
                 description := strip (nth 2 parts []);
                 amount := strip (nth 3 parts []) |};
            Brain.service := strip (nth 4 parts []) |}]
    else transactions
  else transactions.

(** [extract_and_identify_ai_transactions], from the standard output of the
    external tool on. *)
Definition extract_and_identify_ai_transactions (stdout sid pg : str)
  : list Brain.ai_transaction :=
  let output := clean_output stdout in
  if negb (str_eqb output []) && negb (contains (py "NO_AI") (upper output))
  then fold_left (parse_line sid pg) (split nl output) []
  else [].

End BrainExtract.

(** *** extract_transactions_opencode.py *)

Module Opencode.

Record transaction := {
  statement : str;
  transaction_date : str;
  posting_date : str;
  description : str;
  amount : str
}.

(** The body of the loop over the lines in [main]. *)
Definition parse_line (statement_name : str)
    (all_transactions : list transaction) (line : str)
  : list transaction :=
  if contains (py "|") line then
    let parts := split "|" line in
    if 4 <=? length parts then
      all_transactions ++
        [{| statement := statement_name;
            transaction_date := strip (nth 0 parts []);
            posting_date := strip (nth 1 parts []);
            description := strip (nth 2 parts []);
            amount := strip (nth 3 parts []) |}]
    else all_transactions
  else all_transactions.

(** The body of the loop over the images in [main], from the value
    returned by [extract_transactions_with_opencode] on. *)
Definition process_result (statement_name result : str)
    (all_transactions : list transaction) : list transaction :=
  if negb (str_eqb result []) && negb (startswith (py "ERROR") result)
  then fold_left (parse_line statement_name) (split nl result)
         all_transactions
  else all_transactions.

End Opencode.

(** *** Definitions used to state the further properties *)

(** [sum(d['count'] for d in ai_services.values())] *)
Definition total_count (d : gmap str bucket) : nat :=
  map_fold (fun _ b n => count b + n) 0 d.

(** The shape [\d{4}-\d{2}-\d{2}] of a statement id. *)
Definition statement_id_re : Re.regex :=
  [Re.exactly Re.CDigit 4; Re.lit "-"; Re.exactly Re.CDigit 2; Re.lit "-";
   Re.exactly Re.CDigit 2].

(** A word of a pattern together with the offsets of its group marks and of
    its end, the word starting at offset [pos]. *)
Inductive marked : Re.regex -> str -> nat -> list nat -> Prop :=
| marked_nil pos : marked [] [] pos [pos]
| marked_mark re w pos ms :
    marked re w pos ms -> marked (Re.Mark :: re) w pos (pos :: ms)
| marked_rep cl lo hi g re w v pos ms :
    Forall (fun c => Re.in_class cl c = true) w ->
    lo <= length w -> Re.upto hi (length w) ->
    marked re v (pos + length w) ms ->
    marked (Re.Rep cl lo hi g :: re) (w ++ v) pos ms.

(** The way a pattern of greedy repetitions reads a subject when every
    repetition can take the longest run: each run stops at its upper bound
    or in front of a character outside its class. *)
Inductive munch : Re.regex -> str -> nat -> list nat -> Prop :=
| munch_nil s pos : munch [] s pos [pos]
| munch_mark re s pos ms :
    munch re s pos ms -> munch (Re.Mark :: re) s pos (pos :: ms)
| munch_rep cl lo hi re w s pos ms :
    Forall (fun c => Re.in_class cl c = true) w ->
    lo <= length w -> Re.upto hi (length w) ->
    hi = Some (length w) \/
      match s with c :: _ => Re.in_class cl c = false | [] => True end ->
    munch re s (pos + length w) ms ->
    munch (Re.Rep cl lo hi true :: re) (w ++ s) pos ms.

(** The record of [extract_transactions_opencode.py] with the four fields
    of a record of the batch parser. *)
Definition opencode_record (statement_name : str) (t : transaction)
  : Opencode.transaction :=
  {| Opencode.statement := statement_name;
     Opencode.transaction_date := transaction_date t;
     Opencode.posting_date := posting_date t;
     Opencode.description := description t;
     Opencode.amount := amount t |}.

(** The sort order of the export: not later than. *)
Definition date_le (a b : Sheets.sheet_row) : Prop :=
  Sheets.key_ltb (Sheets.sort_key b) (Sheets.sort_key a) = false.

(** The backquote. *)
Definition backquote : ascii := "`"%char.

(** *** The export and the OCR parser, row by row *)

(** The row that the loop of [format_for_google_sheets] appends for a row
    of its input, when it appends one: the row has a vendor signature, its
    amount is above zero and its transaction date is a calendar date. *)
Definition sheet_row_of (row : transaction) : option Sheets.sheet_row :=
  match parse_amount (amount row), Sheets.classify (description row) with
  | Some a, Some service_name =>
      if gt0 a then
        match Sheets.parse_date (transaction_date row) with
        | Some date_obj =>
            Some {| Sheets.row_date := transaction_date row;
                    Sheets.row_month := Sheets.get_month_thai date_obj;
                    Sheets.row_description := service_name;
                    Sheets.row_price := a; Sheets.row_quantity := 1;
                    Sheets.row_total := a |}
        | None => None
        end
      else None
  | _, _ => None
  end.

(** The run that a repetition reads, with [n] characters read before
    [s], between [lo] and [hi] in all, [k] reading the rest and [K] telling
    where [k] succeeds; [greedy] tells which runs are tried before it. *)
Definition picks {R : Type} (cl : ascii -> bool) (lo : nat) (hi : option nat)
    (k : str -> nat -> option R) (K : str -> Prop)
    (greedy : bool) (n : nat) (s : str) (pos : nat) (r : R) : Prop :=
  exists w s', s = w ++ s' /\ Forall (fun c => cl c = true) w /\
    lo <= n + length w /\ Re.upto hi (n + length w) /\
    k s' (pos + length w) = Some r /\
    forall w2 s2,
      s = w2 ++ s2 -> Forall (fun c => cl c = true) w2 ->
      lo <= n + length w2 -> Re.upto hi (n + length w2) ->
      (if greedy then length w < length w2 else length w2 < length w) ->
      ~ K s2.

(** The way the matcher reads a subject: it reads a word of the pattern,
    and for every repetition no run that it tries before the one it reads
    (a longer one when the repetition is greedy, a shorter one when it is
    lazy) is followed by a match of the rest of the pattern. *)
Inductive chosen : Re.regex -> str -> nat -> list nat -> Prop :=
| chosen_nil s pos : chosen [] s pos [pos]
| chosen_mark re s pos ms :
    chosen re s pos ms -> chosen (Re.Mark :: re) s pos (pos :: ms)
| chosen_rep cl lo hi (g : bool) re w s pos ms :
    Forall (fun c => Re.in_class cl c = true) w ->
    lo <= length w -> Re.upto hi (length w) ->
    (forall w2 s2,
        w ++ s = w2 ++ s2 ->
        Forall (fun c => Re.in_class cl c = true) w2 ->
        lo <= length w2 -> Re.upto hi (length w2) ->
        (if g then length w < length w2 else length w2 < length w) ->
        ~ Re.prefix_in re s2) ->
    chosen re s (pos + length w) ms ->
    chosen (Re.Rep cl lo hi g :: re) (w ++ s) pos ms.

(** The last two groups of the pattern of the OCR parser:
    [(.+?)] and [(-?[\d,]+\.\d{2})]. *)
Definition ocr_description_group : Re.regex :=
  [Re.Mark; Re.plus_lazy Re.CDot; Re.Mark].

Definition ocr_amount_group : Re.regex :=
  [Re.Mark; Re.opt (Re.CChar "-"); Re.plus (Re.COr Re.CDigit (Re.CChar ","));
   Re.lit "."; Re.exactly Re.CDigit 2; Re.Mark].

(** A non-empty run of white space. *)
Definition spaces (s : str) : Prop :=
  s <> [] /\ Forall (fun c => isspace c = true) s.

(** The record that the OCR parser reads from a stripped line: the line
    starts with two dates, a description and an amount, each after white
    space; the white space in front of the description is the longest
    that leaves a description and an amount, and the description is then
    the shortest that is followed by white space and an amount. *)
Definition ocr_reads (subject : str) (t : Ocr.transaction) : Prop :=
  exists d1 s1 d2 s2 desc s3 amt rest,
    subject = d1 ++ s1 ++ d2 ++ s2 ++ desc ++ s3 ++ amt ++ rest /\
    t = {| Ocr.transaction_date := d1; Ocr.posting_date := d2;
           Ocr.description := strip desc; Ocr.amount := amt |} /\
    Re.lang Ocr.date_group d1 /\ Re.lang Ocr.date_group d2 /\
    spaces s1 /\ spaces s2 /\ spaces s3 /\
    desc <> [] /\ Forall (fun c => c <> nl) desc /\
    Re.lang ocr_amount_group amt /\
    (forall s2' tail,
        s2 ++ desc ++ s3 ++ amt ++ rest = s2' ++ tail ->
        spaces s2' -> length s2 < length s2' ->
        ~ Re.prefix_in
            (ocr_description_group ++ [Re.plus Re.CSpace] ++ ocr_amount_group)
            tail) /\
    (forall desc' tail,
        desc ++ s3 ++ amt ++ rest = desc' ++ tail ->
        desc' <> [] -> length desc' < length desc ->
        ~ Re.prefix_in ([Re.plus Re.CSpace] ++ ocr_amount_group) tail).
(** * Properties *)

(** ** Sanity checks of the string primitives *)

Example strip_ex : strip (py "  ab c  ") = py "ab c".
Proof. reflexivity. Qed.

Example split_ex : split "|" (py "a|b||c") = [py "a"; py "b"; py ""; py "c"].
Proof. reflexivity. Qed.

Example contains_ex : contains (py "Z.AI") (upper (py "stripe z.ai x")) = true.
Proof. reflexivity. Qed.

Example match_date_ex1 : match_date (py "19/05/2025 x") = true.
Proof. reflexivity. Qed.
Example match_date_ex2 : match_date (py "9/05/25") = false.
Proof. reflexivity. Qed.

(** ** Sanity checks of the float model *)

Example float_ex_tenth :
  float_of_str (py "0.1") = Some (S754_finite false 7205759403792794 (-56)).
Proof. vm_compute. reflexivity. Qed.

Example float_ex_amount :
  parse_amount (py "-8,851.33")
  = Some (S754_finite true 4866070128141271 (-39)).
Proof. vm_compute. reflexivity. Qed.

Example float_ex_sum :
  fadd (S754_finite false 7205759403792794 (-56))
       (S754_finite false 7205759403792794 (-55))
  = S754_finite false 5404319552844596 (-54).
Proof. vm_compute. reflexivity. Qed.

Example float_ex_bad : float_of_str (py "12.3.4") = None.
Proof. vm_compute. reflexivity. Qed.

Example float_ex_exp : float_of_str (py " 1_0e-1 ") = Some (S754_finite false 4503599627370496 (-52)).
Proof. vm_compute. reflexivity. Qed.

Example float_ex_huge : float_of_str (py "1e400") = Some (S754_infinity false).
Proof. vm_compute. reflexivity. Qed.

Example float_ex_tiny : float_of_str (py "1e-400") = Some (S754_zero false).
Proof. vm_compute. reflexivity. Qed.

(** ** Sanity checks of the parsers *)

Example batch_ex :
  Batch.parse_transactions
    (py "19/05/25|20/05/25|ANTHROPIC ANTHROPIC.COMUS USD 5.35|182.70")
    (py "2025-05-25") (py "1")
  = [{| statement_id := py "2025-05-25"; page := py "1";
        transaction_date := py "19/05/25"; posting_date := py "20/05/25";
        description := py "ANTHROPIC ANTHROPIC.COMUS USD 5.35";
        amount := py "182.70" |}].
Proof. vm_compute. reflexivity. Qed.

Example ocr_ex :
  Ocr.parse_transactions (py "  18/12/24 20/12/24 SHOPEE BANGKOK TH 1,199.00")
  = [{| Ocr.transaction_date := py "18/12/24";
        Ocr.posting_date := py "20/12/24";
        Ocr.description := py "SHOPEE BANGKOK TH";
        Ocr.amount := py "1,199.00" |}].
Proof. vm_compute. reflexivity. Qed.

Example ocr_ex_usd :
  Ocr.parse_transactions (py "19/05/25 20/05/25 ANTHROPIC USD 5.35 182.70")
  = [{| Ocr.transaction_date := py "19/05/25";
        Ocr.posting_date := py "20/05/25";
        Ocr.description := py "ANTHROPIC USD";
        Ocr.amount := py "5.35" |}].
Proof. vm_compute. reflexivity. Qed.

Example parse_date_ex1 :
  Sheets.parse_date (py "29/02/24")
  = Some {| Sheets.year := 2024; Sheets.month := 2; Sheets.day := 29 |}.
Proof. vm_compute. reflexivity. Qed.

Example parse_date_ex2 : Sheets.parse_date (py "29/02/25") = None.
Proof. vm_compute. reflexivity. Qed.

Example parse_date_ex3 : Sheets.parse_date (py "19/05/2025") = None.
Proof. vm_compute. reflexivity. Qed.

(** ** The matcher decides the language of a pattern *)

Section RepeatFacts.
Context {R : Type}.
Variable cl : ascii -> bool.
Variable lo : nat.
Variable hi : option nat.
Variable k : str -> nat -> option R.
Variable K : str -> Prop.
Hypothesis k_K : forall s pos, is_Some (k s pos) <-> K s.

Local Abbreviation rep_word := (rep_word cl lo hi K).

Lemma below_upto n : Re.below hi n = true -> Re.upto hi (S n).
Proof.
  unfold Re.below, Re.upto. destruct hi; [|done].
  intros H%Nat.ltb_lt. lia.
Qed.

Lemma upto_below n m : Re.upto hi (n + S m) -> Re.below hi n = true.
Proof.
  unfold Re.below, Re.upto. destruct hi; [|done].
  intros H. apply Nat.ltb_lt. lia.
Qed.

Lemma stop_some n s pos :
  is_Some (Re.stop lo k n s pos) <-> lo <= n /\ K s.
Proof.
  unfold Re.stop. destruct (Nat.leb_spec lo n).
  - rewrite k_K. tauto.
  - split; [intros [? ?]; discriminate | lia].
Qed.

Lemma rep_word_nil n : Re.upto hi n -> rep_word n [] <-> lo <= n /\ K [].
Proof.
  intros Hn. split.
  - intros (w & s' & E & _ & Hlo & _ & HK).
    symmetry in E. apply app_eq_nil in E as [-> ->]. simpl in Hlo.
    split; [lia | done].
  - intros [Hlo HK]. exists [], []. simpl. rewrite Nat.add_0_r.
    repeat split; auto.
Qed.

Lemma rep_word_cons n c s :
  Re.upto hi n ->
  rep_word n (c :: s) <->
  (lo <= n /\ K (c :: s)) \/
  (cl c = true /\ Re.below hi n = true /\ rep_word (S n) s).
Proof.
  intros Hn. split.
  - intros (w & s' & E & Hw & Hlo & Hhi & HK). destruct w as [|c' w].
    + simpl in *. subst s'. left. split; [lia | done].
    + simpl in E. injection E as <- ->. right.
      apply Forall_cons in Hw as [Hc Hw]. simpl in Hlo, Hhi.
      split; [done|]. split; [by eapply upto_below|].
      exists w, s'. repeat split; auto.
      * lia.
      * by replace (S n + length w) with (n + S (length w)) by lia.
  - intros [[Hlo HK] | (Hc & Hb & w & s' & -> & Hw & Hlo & Hhi & HK)].
    + exists [], (c :: s). simpl. rewrite Nat.add_0_r. repeat split; auto.
    + exists (c :: w), s'. simpl. repeat split; auto.
      * lia.
      * by replace (n + S (length w)) with (S n + length w) by lia.
Qed.

Lemma rep_greedy_some s : forall n pos,
  Re.upto hi n ->
  is_Some (Re.rep_greedy cl lo hi k n s pos) <-> rep_word n s.
Proof.
  induction s as [|c s IH]; intros n pos Hn; simpl.
  - rewrite stop_some. by rewrite rep_word_nil.
  - rewrite rep_word_cons by done.
    destruct (cl c) eqn:Hc; simpl.
    2:{ rewrite stop_some. split; [tauto|].
        intros [?|(? & _)]; [done | discriminate]. }
    destruct (Re.below hi n) eqn:Hb.
    2:{ rewrite stop_some. split; [tauto|].
        intros [?|(_ & ? & _)]; [done | discriminate]. }
    specialize (IH (S n) (S pos) (below_upto _ Hb)).
    destruct (Re.rep_greedy cl lo hi k (S n) s (S pos)) eqn:E.
    + split; [|eauto]. intros _. right. repeat split; auto.
      apply IH. eauto.
    + rewrite stop_some. split; [tauto|].
      intros [?|(_ & _ & Hw)]; [done|].
      apply IH in Hw. by destruct Hw.
Qed.

Lemma rep_lazy_some s : forall n pos,
  Re.upto hi n ->
  is_Some (Re.rep_lazy cl lo hi k n s pos) <-> rep_word n s.
Proof.
  induction s as [|c s IH]; intros n pos Hn; simpl.
  - rewrite rep_word_nil by done. rewrite <- (stop_some n [] pos).
    by destruct (Re.stop lo k n [] pos).
  - rewrite rep_word_cons by done. rewrite <- (stop_some n (c :: s) pos).
    destruct (Re.stop lo k n (c :: s) pos) eqn:E.
    { split; eauto. }
    destruct (cl c) eqn:Hc; simpl.
    2:{ split; [intros [? ?]; discriminate|].
        intros [[? ?]|(? & _)]; discriminate. }
    destruct (Re.below hi n) eqn:Hb.
    2:{ split; [intros [? ?]; discriminate|].
        intros [[? ?]|(_ & ? & _)]; discriminate. }
    rewrite (IH (S n) (S pos) (below_upto _ Hb)).
    split; [intros; right; auto|].
    intros [[? ?]|(_ & _ & ?)]; [discriminate | done].
Qed.
End RepeatFacts.

(** [run] succeeds exactly when a prefix of the subject (the whole subject,
    if anchored) is a word of the pattern. *)
Lemma run_some re anchored : forall s pos,
  is_Some (Re.run re anchored s pos) <->
  exists w rest, s = w ++ rest /\ Re.lang re w /\
                 (anchored = true -> rest = []).
Proof.
  induction re as [|nd re IH]; intros s pos.
  - simpl. split.
    + intros H. exists [], s. split; [done|]. split; [constructor|].
      intros ->. destruct s; [done|]. by destruct H.
    + intros (w & rest & -> & Hw & Ha). inversion Hw; subst. simpl.
      destruct anchored; [|eauto]. rewrite Ha by done. eauto.
  - destruct nd as [cl lo hi g|].
    + simpl.
      set (K := fun s => exists w rest, s = w ++ rest /\ Re.lang re w /\
                                       (anchored = true -> rest = [])).
      assert (HK : forall s pos, is_Some (Re.run re anchored s pos) <-> K s)
        by apply IH.
      assert (Hrep : is_Some ((if g then Re.rep_greedy else Re.rep_lazy)
                 (Re.in_class cl) lo hi (Re.run re anchored) 0 s pos)
               <-> rep_word (Re.in_class cl) lo hi K 0 s).
      { destruct g; [eapply rep_greedy_some | eapply rep_lazy_some]; eauto;
          destruct hi; simpl; auto with lia. }
      rewrite Hrep. unfold rep_word, K. simpl. split.
      * intros (w & s' & -> & Hw & Hlo & Hhi & w' & rest & -> & Hl & Ha).
        exists (w ++ w'), rest. rewrite <- app_assoc. split; [done|].
        split; [|done]. by constructor.
      * intros (w & rest & -> & Hl & Ha). inversion Hl; subst.
        eexists _, _. rewrite <- app_assoc. split; [done|].
        repeat split; eauto.
    + simpl. rewrite fmap_is_Some, IH. split.
      * intros (w & rest & -> & Hl & Ha). exists w, rest.
        repeat split; auto. by constructor.
      * intros (w & rest & -> & Hl & Ha). inversion Hl; subst. eauto.
Qed.

(** [re.match] accepts exactly the subjects with a prefix in the language. *)
Lemma match_some re s : is_Some (Re.match_ re s) <-> Re.prefix_in re s.
Proof.
  unfold Re.match_, Re.prefix_in. rewrite run_some.
  split.
  - intros (w & rest & ? & ? & ?). by exists w, rest.
  - intros (w & rest & ? & ?). exists w, rest. repeat split; auto.
    discriminate.
Qed.

(** The anchored matcher accepts exactly the words of the language. *)
Lemma fullmatch_some re s : is_Some (Re.fullmatch re s) <-> Re.lang re s.
Proof.
  unfold Re.fullmatch. rewrite run_some. split.
  - intros (w & rest & -> & Hl & Ha). rewrite Ha by done.
    by rewrite app_nil_r.
  - intros Hl. exists s, []. rewrite app_nil_r. auto.
Qed.

(** ** Stripping and splitting *)

Section StripFacts.
Variable p : ascii -> bool.

Lemma lstrip_by_app x y :
  lstrip_by p (x ++ y) =
  match lstrip_by p x with
  | [] => lstrip_by p y
  | _ :: _ => lstrip_by p x ++ y
  end.
Proof.
  induction x as [|c x IH]; simpl; [done|].
  destruct (p c); [done | done].
Qed.

Lemma rstrip_by_nil : rstrip_by p [] = [].
Proof. done. Qed.

Lemma rstrip_by_cons c s :
  rstrip_by p (c :: s) =
  match rstrip_by p s with
  | [] => if p c then [] else [c]
  | _ :: _ => c :: rstrip_by p s
  end.
Proof.
  unfold rstrip_by. simpl. rewrite lstrip_by_app.
  destruct (lstrip_by p (rev s)) as [|a l] eqn:E; simpl.
  - by destruct (p c).
  - rewrite rev_app_distr. simpl. by destruct (rev l).
Qed.

Lemma rstrip_by_cons_keep c s :
  p c = false -> rstrip_by p (c :: s) = c :: rstrip_by p s.
Proof.
  intros Hc. rewrite rstrip_by_cons, Hc. by destruct (rstrip_by p s).
Qed.

Lemma strip_by_cons_keep c s :
  p c = false -> strip_by p (c :: s) = c :: rstrip_by p s.
Proof.
  intros Hc. unfold strip_by. simpl. rewrite Hc.
  by apply rstrip_by_cons_keep.
Qed.

Lemma strip_by_cons_drop c s :
  p c = true -> strip_by p (c :: s) = strip_by p s.
Proof. intros Hc. unfold strip_by. simpl. by rewrite Hc. Qed.

(** A stripped string neither starts nor ends with a stripped
    character, so stripping again changes nothing. *)
Lemma lstrip_by_idem s : lstrip_by p (lstrip_by p s) = lstrip_by p s.
Proof.
  induction s as [|c s IH]; simpl; [done|].
  destruct (p c) eqn:Hc; [done|]. simpl. by rewrite Hc.
Qed.

Lemma lstrip_by_rstrip_by s :
  lstrip_by p (rstrip_by p s) = rstrip_by p (lstrip_by p s).
Proof.
  induction s as [|c s IH]; simpl; [done|].
  rewrite rstrip_by_cons. destruct (p c) eqn:Hc.
  - destruct (rstrip_by p s) eqn:E; simpl; rewrite ?Hc.
    + rewrite <- IH. done.
    + rewrite <- IH. done.
  - rewrite rstrip_by_cons, Hc.
    destruct (rstrip_by p s); simpl; by rewrite Hc.
Qed.

Lemma rstrip_by_idem s : rstrip_by p (rstrip_by p s) = rstrip_by p s.
Proof.
  unfold rstrip_by. by rewrite rev_involutive, lstrip_by_idem.
Qed.

Lemma strip_by_lstrip_by s : strip_by p (lstrip_by p s) = strip_by p s.
Proof. unfold strip_by. by rewrite lstrip_by_idem. Qed.

Lemma strip_by_rstrip_by s : strip_by p (rstrip_by p s) = strip_by p s.
Proof.
  unfold strip_by. by rewrite lstrip_by_rstrip_by, rstrip_by_idem.
Qed.

Lemma strip_by_idem s : strip_by p (strip_by p s) = strip_by p s.
Proof.
  unfold strip_by at 2. by rewrite strip_by_rstrip_by, strip_by_lstrip_by.
Qed.

Lemma rstrip_by_all s :
  Forall (fun c => p c = true) s -> rstrip_by p s = [].
Proof.
  induction 1 as [|c s Hc _ IH]; [done|].
  by rewrite rstrip_by_cons, IH, Hc.
Qed.

Lemma rstrip_by_nil_inv s :
  rstrip_by p s = [] -> Forall (fun c => p c = true) s.
Proof.
  induction s as [|c s IH]; [constructor|].
  rewrite rstrip_by_cons. destruct (rstrip_by p s); [|discriminate].
  destruct (p c) eqn:Hc; [|discriminate]. intros _. constructor; auto.
Qed.
End StripFacts.

Section SplitFacts.
Variable sep : ascii.

Lemma split_nonempty s : split sep s <> [].
Proof.
  destruct s as [|c s]; simpl; [done|].
  destruct (ascii_dec c sep); [done|]. by destruct (split sep s).
Qed.

Lemma split_cons_sep s : split sep (sep :: s) = [] :: split sep s.
Proof. simpl. by destruct (ascii_dec sep sep). Qed.

Lemma split_cons_other c s :
  c <> sep ->
  split sep (c :: s) = (c :: hd [] (split sep s)) :: tl (split sep s).
Proof.
  intros Hc. simpl. destruct (ascii_dec c sep); [done|].
  pose proof (split_nonempty s). by destruct (split sep s).
Qed.

(** A string without the separator is one segment. *)
Lemma split_none s :
  Forall (fun c => c <> sep) s -> split sep s = [s].
Proof.
  induction 1 as [|c s Hc _ IH]; [done|].
  rewrite split_cons_other by done. by rewrite IH.
Qed.

Lemma contains_sep_split s :
  contains [sep] s = false -> split sep s = [s].
Proof.
  intros H. apply split_none. induction s as [|c s IH]; [constructor|].
  simpl in H. destruct (ascii_dec sep c) as [->|Hne].
  - destruct s; discriminate.
  - constructor; [congruence|]. apply IH.
    by destruct (contains [sep] s).
Qed.

Variable p : ascii -> bool.
Hypothesis sep_kept : p sep = false.

(** Stripping the left end of a line strips its first segment. *)
Lemma split_lstrip_by s :
  split sep (lstrip_by p s) =
  lstrip_by p (hd [] (split sep s)) :: tl (split sep s).
Proof.
  induction s as [|c s IH]; simpl; [done|].
  destruct (p c) eqn:Hc.
  - destruct (ascii_dec c sep) as [->|Hne]; [congruence|].
    rewrite IH. pose proof (split_nonempty s).
    destruct (split sep s); [done|]. simpl. by rewrite Hc.
  - destruct (ascii_dec c sep) as [->|Hne]; simpl.
    + by destruct (ascii_dec sep sep).
    + destruct (ascii_dec c sep); [done|].
      pose proof (split_nonempty s).
      destruct (split sep s); [done|]. simpl. by rewrite Hc.
Qed.

(** Stripping the right end of a line strips its last segment. *)
Lemma split_rstrip_by s :
  split sep (rstrip_by p s) =
  removelast (split sep s) ++ [rstrip_by p (List.last (split sep s) [])].
Proof.
  induction s as [|c s IH]; [done|].
  rewrite rstrip_by_cons.
  destruct (rstrip_by p s) as [|a r] eqn:E.
  - pose proof (rstrip_by_nil_inv p s E) as Hall.
    assert (Hs : split sep s = [s]).
    { apply split_none. eapply Forall_impl; [exact Hall|].
      simpl. intros x Hx ->. congruence. }
    destruct (ascii_dec c sep) as [->|Hne].
    + rewrite sep_kept, (split_cons_sep s), Hs. simpl.
      destruct (ascii_dec sep sep); [|done]. simpl. by rewrite E.
    + rewrite (split_cons_other c s), Hs by done. simpl.
      rewrite rstrip_by_cons, E.
      destruct (p c); simpl; [done|].
      by destruct (ascii_dec c sep).
  - assert (Hnn : rstrip_by p s <> []) by (by rewrite E).
    rewrite <- E in *. clear E.
    pose proof (split_nonempty s) as Hne.
    destruct (ascii_dec c sep) as [->|Hc].
    + rewrite !split_cons_sep, IH. simpl.
      destruct (split sep s) eqn:Es; [done|]. done.
    + rewrite (split_cons_other c s) by done.
      rewrite (split_cons_other c (rstrip_by p s)) by done. rewrite IH.
      destruct (split sep s) as [|seg segs] eqn:Es; [done|].
      destruct segs as [|seg' segs]; simpl; [|done].
      rewrite rstrip_by_cons.
      destruct (rstrip_by p seg) eqn:E1; [|done].
      exfalso. simpl in IH. rewrite E1 in IH.
      destruct (rstrip_by p s) as [|x y] eqn:E2; [done|].
      simpl in IH. destruct (ascii_dec x sep).
      * injection IH as IH. by apply split_nonempty in IH.
      * destruct (split sep y); discriminate.
Qed.
End SplitFacts.

(** *** Segments of a stripped line *)

Lemma pipe_not_space : isspace "|" = false.
Proof. reflexivity. Qed.

Lemma strip_nil : strip [] = [].
Proof. reflexivity. Qed.

Lemma hd_tl_split sep s :
  hd [] (split sep s) :: tl (split sep s) = split sep s.
Proof. pose proof (split_nonempty sep s). by destruct (split sep s). Qed.

Lemma map_strip_last (l : list str) :
  l <> [] ->
  map strip (removelast l ++ [rstrip_by isspace (List.last l [])])
  = map strip l.
Proof.
  intros Hl. rewrite (app_removelast_last [] Hl) at 3.
  rewrite !map_app. simpl. do 2 f_equal. apply strip_by_rstrip_by.
Qed.

(** Stripping a line before splitting it changes no stripped segment. *)
Lemma map_strip_split_strip sep s :
  isspace sep = false ->
  map strip (split sep (strip s)) = map strip (split sep s).
Proof.
  intros Hsep. unfold strip at 2, strip_by.
  rewrite (split_rstrip_by sep isspace Hsep).
  rewrite (split_lstrip_by sep isspace Hsep).
  rewrite map_strip_last by done.
  rewrite <- (hd_tl_split sep s) at 3. simpl. f_equal.
  apply strip_by_lstrip_by.
Qed.

Lemma length_split_strip sep s :
  isspace sep = false ->
  length (split sep (strip s)) = length (split sep s).
Proof.
  intros H. rewrite <- (length_map strip (split sep (strip s))).
  rewrite map_strip_split_strip by done. apply length_map.
Qed.

Lemma nth_split_strip sep s i :
  isspace sep = false ->
  strip (nth i (split sep (strip s)) []) = strip (nth i (split sep s) []).
Proof.
  intros H. rewrite <- !(map_nth strip). by rewrite map_strip_split_strip.
Qed.

(** The first segment is a prefix of the line. *)
Lemma hd_split_prefix sep s :
  exists rest, s = hd [] (split sep s) ++ rest.
Proof.
  induction s as [|c s [rest IH]]; [by exists []|].
  destruct (ascii_dec c sep) as [->|Hc].
  - rewrite split_cons_sep. by exists (sep :: s).
  - rewrite split_cons_other by done. simpl. exists rest. by f_equal.
Qed.

Section StripShape.
Variable p : ascii -> bool.

Lemma lstrip_by_head s c r : lstrip_by p s = c :: r -> p c = false.
Proof.
  induction s as [|a s IH]; simpl; [done|].
  destruct (p a) eqn:Ha; [done|]. by intros [= <- _].
Qed.

Lemma strip_by_head s c r : strip_by p s = c :: r -> p c = false.
Proof.
  unfold strip_by. destruct (lstrip_by p s) as [|a l] eqn:E; [done|].
  rewrite rstrip_by_cons_keep by (by eapply lstrip_by_head).
  by intros [= <- _]; eapply lstrip_by_head.
Qed.

Lemma rstrip_by_prefix s : exists ws, s = rstrip_by p s ++ ws.
Proof.
  induction s as [|c s [ws IH]]; [by exists []|].
  rewrite rstrip_by_cons. destruct (rstrip_by p s) eqn:E.
  - destruct (p c); [by exists (c :: s) | by exists s].
  - exists ws. simpl. f_equal. exact IH.
Qed.

Lemma strip_by_keep_app tok r :
  tok <> [] -> Forall (fun c => p c = false) tok ->
  strip_by p (tok ++ r) = tok ++ rstrip_by p r.
Proof.
  intros Hne Htok. destruct Htok as [|c tok Hc Htok]; [done|]. simpl.
  rewrite strip_by_cons_keep by done. f_equal.
  induction Htok as [|a tok Ha _ IH]; [done|]. simpl.
  by rewrite rstrip_by_cons_keep, IH.
Qed.
End StripShape.

(** *** The date token *)

Lemma digit_not_space c : isdigit c = true -> isspace c = false.
Proof.
  unfold isdigit, isspace. intros H.
  apply andb_true_iff in H as [H1%Nat.leb_le H2%Nat.leb_le].
  repeat match goal with
         | |- context [?a <=? ?b] => destruct (Nat.leb_spec a b); try lia
         | |- context [?a =? ?b] => destruct (Nat.eqb_spec a b); try lia
         end; done.
Qed.

Lemma lang_rep_inv cl lo hi g re w :
  Re.lang (Re.Rep cl lo hi g :: re) w ->
  exists w1 w2, w = w1 ++ w2 /\
    Forall (fun c => Re.in_class cl c = true) w1 /\
    lo <= length w1 /\ Re.upto hi (length w1) /\ Re.lang re w2.
Proof. inversion 1; subst. eauto 10. Qed.

Lemma lang_mark_inv re w : Re.lang (Re.Mark :: re) w -> Re.lang re w.
Proof. by inversion 1. Qed.

Lemma lang_nil_inv w : Re.lang [] w -> w = [].
Proof. by inversion 1. Qed.

Ltac lang_inv H :=
  repeat match type of H with
  | Re.lang (Re.Mark :: _) _ => apply lang_mark_inv in H
  | Re.lang (Re.Rep _ _ _ _ :: _) _ =>
      let w1 := fresh "w" in let w2 := fresh "v" in
      let E := fresh "E" in let F := fresh "F" in
      let L := fresh "L" in let U := fresh "U" in
      apply lang_rep_inv in H as (w1 & w2 & E & F & L & U & H);
      simpl in L, U; subst
  | Re.lang [] _ => apply lang_nil_inv in H; subst
  end.

(** A word of the date pattern: eight characters, digits and slashes. *)
Lemma lang_date_re w :
  Re.lang date_re w <->
  exists a b c d e f,
    w = [a; b; "/"; c; d; "/"; e; f]%char /\
    Forall (fun x => isdigit x = true) [a; b; c; d; e; f].
Proof.
  split.
  - intros H. unfold date_re, Re.exactly, Re.lit in H. lang_inv H.
    repeat match goal with
    | H : Forall _ ?l, L : _ <= length ?l, U : length ?l <= _ |- _ =>
        is_var l; destruct l as [|? [|? [|? ?]]]; simpl in L, U; try lia;
        clear L U
    end.
    repeat match goal with
    | H : Forall _ (_ :: _) |- _ => apply Forall_cons in H as [? H]
    end. cbv beta in *. cbn [Re.in_class] in *.
    repeat match goal with
    | H : (if ascii_dec ?x ?y then true else false) = true |- _ =>
        destruct (ascii_dec x y); [subst | discriminate]
    end.
    eexists _, _, _, _, _, _. split; [reflexivity|].
    repeat constructor; done.
  - intros (a & b & c & d & e & f & -> & H).
    repeat match goal with
    | H : Forall _ (_ :: _) |- _ => apply Forall_cons in H as [? H]
    end.
    unfold date_re, Re.exactly, Re.lit.
    apply (Re.lang_rep _ _ _ _ _ [a; b]); simpl; auto.
    apply (Re.lang_rep _ _ _ _ _ ["/"%char]); simpl; auto.
    apply (Re.lang_rep _ _ _ _ _ [c; d]); simpl; auto.
    apply (Re.lang_rep _ _ _ _ _ ["/"%char]); simpl; auto.
    apply (Re.lang_rep _ _ _ _ _ [e; f] []); simpl; auto.
    constructor.
Qed.

Lemma match_date_prefix s : match_date s = true <-> Re.prefix_in date_re s.
Proof.
  unfold match_date. rewrite <- match_some.
  destruct (Re.match_ date_re s); split; eauto; try done.
Qed.

Lemma date_token_plain tok :
  Re.lang date_re tok ->
  Forall plain tok /\ exists d r, tok = d :: r /\ isdigit d = true.
Proof.
  intros (a & b & c & d & e & f & -> & H)%lang_date_re.
  repeat match goal with
  | H : Forall _ (_ :: _) |- _ => apply Forall_cons in H as [? H]
  end.
  split; [|eauto].
  assert (Hd : forall x, isdigit x = true -> plain x).
  { intros x Hx. split; [by apply digit_not_space|]. by intros ->. }
  assert (Hs : plain "/") by (by split).
  repeat (apply Forall_cons; split; [by auto|]). by apply Forall_nil.
Qed.

(** ** The pipe-delimited line parsers *)

Lemma startswith_head_ne p s :
  match p, s with
  | a :: _, b :: _ => a <> b
  | _, _ => False
  end -> startswith p s = false.
Proof.
  destruct p as [|a p], s as [|b s]; try done. simpl.
  by destruct (ascii_dec a b).
Qed.

Lemma str_eqb_head_ne (a b : str) :
  match a, b with
  | x :: _, y :: _ => x <> y
  | [], [] => False
  | _, _ => True
  end -> str_eqb a b = false.
Proof.
  intros H. apply bool_decide_eq_false. intros ->.
  destruct b; [done | by apply H].
Qed.

Section AcceptedLine.
Variable line0 : str.
Hypothesis four : 4 <= length (split "|" line0).
Hypothesis dated :
  Re.prefix_in date_re (strip (nth 0 (split "|" line0) [])).

Lemma accepted_starts_with_token :
  Re.prefix_in date_re (strip line0) /\
  exists d r, strip line0 = d :: r /\ isdigit d = true.
Proof.
  destruct dated as (tok & r0 & Hseg & Htok).
  destruct (date_token_plain _ Htok) as (Hplain & d & tk & -> & Hd).
  rewrite <- (nth_split_strip "|" line0 0 pipe_not_space) in Hseg.
  destruct (hd_split_prefix "|" (strip line0)) as [rest Hline].
  replace (nth 0 (split "|" (strip line0)) []) with
    (hd [] (split "|" (strip line0))) in Hseg
    by (by destruct (split "|" (strip line0))).
  destruct (strip line0) as [|c l] eqn:El; [discriminate|].
  pose proof (strip_by_head isspace line0 c l El) as Hc.
  destruct (ascii_dec c "|") as [->|Hne].
  { rewrite split_cons_sep in Hseg. discriminate. }
  rewrite split_cons_other in Hseg, Hline by done. simpl in Hseg, Hline.
  set (h := hd [] (split "|" l)) in *.
  unfold strip in Hseg. rewrite strip_by_cons_keep in Hseg by done.
  destruct (rstrip_by_prefix isspace (c :: h)) as [ws Hws].
  rewrite rstrip_by_cons_keep in Hws by done. rewrite Hseg in Hws.
  change (c :: h ++ rest) with ((c :: h) ++ rest) in Hline.
  rewrite Hws in Hline. injection Hseg as -> _.
  split.
  - exists (d :: tk), (r0 ++ ws ++ rest). split; [|done].
    rewrite Hline. simpl. by rewrite <- !app_assoc.
  - eauto.
Qed.

Lemma accepted_has_pipe : contains (py "|") (strip line0) = true.
Proof.
  destruct (contains (py "|") (strip line0)) eqn:E; [done|].
  apply (contains_sep_split "|") in E.
  pose proof (length_split_strip "|" line0 pipe_not_space) as Hl.
  rewrite E in Hl. simpl in Hl. lia.
Qed.

Lemma batch_parse_line_accepted sid pg acc :
  Batch.parse_line sid pg acc line0 =
  acc ++ [record_of_segments sid pg (split "|" line0)].
Proof.
  destruct accepted_starts_with_token as (Hpre & d & r & El & Hd).
  unfold Batch.parse_line.
  rewrite (length_split_strip "|" line0 pipe_not_space).
  rewrite !(nth_split_strip "|" line0 _ pipe_not_space).
  rewrite El.
  rewrite (str_eqb_head_ne (d :: r) []) by done.
  rewrite (str_eqb_head_ne (d :: r) (py "NO_TRANSACTIONS"))
    by (cbn; intros ->; discriminate).
  rewrite (startswith_head_ne (py "```") (d :: r))
    by (cbn; intros <-; discriminate).
  rewrite (startswith_head_ne (py "DATE|POSTING") (d :: r))
    by (cbn; intros <-; discriminate).
  cbn [orb].
  destruct (Nat.leb_spec 4 (length (split "|" line0))); [|lia].
  assert (Hm : match_date (strip (nth 0 (split "|" line0) [])) = true)
    by (by apply match_date_prefix).
  by rewrite Hm.
Qed.

Lemma workflow_parse_line_accepted sid pg acc :
  Workflow.parse_line sid pg acc line0 =
  acc ++ [record_of_segments sid pg (split "|" line0)].
Proof.
  destruct accepted_starts_with_token as (Hpre & _).
  unfold Workflow.parse_line.
  rewrite accepted_has_pipe.
  apply match_date_prefix in Hpre. rewrite Hpre. cbn [andb].
  rewrite (length_split_strip "|" line0 pipe_not_space).
  rewrite !(nth_split_strip "|" line0 _ pipe_not_space).
  by destruct (Nat.leb_spec 4 (length (split "|" line0))); [|lia].
Qed.
End AcceptedLine.

(** A token at the start of a segment is still there once the segment is
    stripped. *)
Lemma date_prefix_strip s :
  Re.prefix_in date_re s -> Re.prefix_in date_re (strip s).
Proof.
  intros (tok & r & -> & Htok).
  destruct (date_token_plain _ Htok) as (Hplain & d & tk & E & Hd).
  exists tok, (rstrip r). split; [|done].
  apply (strip_by_keep_app isspace); [by rewrite E|].
  eapply Forall_impl; [exact Hplain|]. by intros x [? _].
Qed.

(** Each parser adds to its accumulator, whatever it holds. *)
Lemma batch_parse_line_acc sid pg acc line0 :
  Batch.parse_line sid pg acc line0 =
  acc ++ Batch.parse_line sid pg [] line0.
Proof.
  unfold Batch.parse_line.
  repeat match goal with
  | |- context [if ?b then _ else _] => destruct b
  end; by rewrite ?app_nil_r.
Qed.

Lemma workflow_parse_line_acc sid pg acc line0 :
  Workflow.parse_line sid pg acc line0 =
  acc ++ Workflow.parse_line sid pg [] line0.
Proof.
  unfold Workflow.parse_line.
  repeat match goal with
  | |- context [if ?b then _ else _] => destruct b
  end; by rewrite ?app_nil_r.
Qed.

Lemma fold_left_acc {A B} (f : list B -> A -> list B) (l : list A) :
  (forall acc x, f acc x = acc ++ f [] x) ->
  forall acc, fold_left f l acc = acc ++ flat_map (f []) l.
Proof.
  intros Hf. induction l as [|x l IH]; intros acc; simpl.
  - by rewrite app_nil_r.
  - by rewrite IH, Hf, <- app_assoc.
Qed.

(** *** The whole output *)

Lemma batch_parse_transactions_lines output sid pg :
  Batch.parse_transactions output sid pg =
  if str_eqb output [] || str_eqb output (py "NO_TRANSACTIONS")
     || contains (py "ERROR") output
  then []
  else flat_map (Batch.parse_line sid pg []) (split nl output).
Proof.
  unfold Batch.parse_transactions.
  destruct (_ || _); [done|].
  by rewrite (fold_left_acc _ _ (batch_parse_line_acc sid pg)).
Qed.

Lemma workflow_extract_lines stdout sid pg :
  Workflow.extract_transactions_with_opencode stdout sid pg =
  if negb (str_eqb (strip stdout) [])
     && negb (contains (py "NO_TRANSACTIONS") (strip stdout))
  then flat_map (Workflow.parse_line sid pg []) (split nl (strip stdout))
  else [].
Proof.
  unfold Workflow.extract_transactions_with_opencode.
  destruct (_ && _); [|done].
  by rewrite (fold_left_acc _ _ (workflow_parse_line_acc sid pg)).
Qed.

(** C2. For every input line whose split on the pipe yields at least four
    segments and whose first segment begins with a token matching
    [\d{2}/\d{2}/\d{2}], the line parser of [batch_extract_all.py] and the one
    of [ai_workflow.py] (the bodies of their loops over the lines) add exactly
    one record, whose transaction date, posting date, description and amount
    are the segments 0, 1, 2 and 3, each stripped; and the records of an
    output are those of its lines, in the order of the lines: the record of
    such a line stands between the records of the lines before it and those
    of the lines after it (an output that the guard in front of the loop
    turns down gives no record at all). *)
Theorem line_parser_keeps_dated_lines (sid pg : str) :
  (forall line acc,
      4 <= length (split "|" line) ->
      match_date (nth 0 (split "|" line) []) = true ->
      Batch.parse_line sid pg acc line
        = acc ++ [record_of_segments sid pg (split "|" line)] /\
      Workflow.parse_line sid pg acc line
        = acc ++ [record_of_segments sid pg (split "|" line)]) /\
  (forall output,
      Batch.parse_transactions output sid pg =
      if str_eqb output [] || str_eqb output (py "NO_TRANSACTIONS")
         || contains (py "ERROR") output
      then []
      else flat_map (Batch.parse_line sid pg []) (split nl output)) /\
  (forall stdout,
      Workflow.extract_transactions_with_opencode stdout sid pg =
      if negb (str_eqb (strip stdout) [])
         && negb (contains (py "NO_TRANSACTIONS") (strip stdout))
      then flat_map (Workflow.parse_line sid pg []) (split nl (strip stdout))
      else []) /\
  (forall before line after,
      4 <= length (split "|" line) ->
      match_date (nth 0 (split "|" line) []) = true ->
      flat_map (Batch.parse_line sid pg []) (before ++ line :: after)
      = flat_map (Batch.parse_line sid pg []) before
        ++ [record_of_segments sid pg (split "|" line)]
        ++ flat_map (Batch.parse_line sid pg []) after /\
      flat_map (Workflow.parse_line sid pg []) (before ++ line :: after)
      = flat_map (Workflow.parse_line sid pg []) before
        ++ [record_of_segments sid pg (split "|" line)]
        ++ flat_map (Workflow.parse_line sid pg []) after).
Proof.
  assert (Hline : forall line acc,
      4 <= length (split "|" line) ->
      match_date (nth 0 (split "|" line) []) = true ->
      Batch.parse_line sid pg acc line
        = acc ++ [record_of_segments sid pg (split "|" line)] /\
      Workflow.parse_line sid pg acc line
        = acc ++ [record_of_segments sid pg (split "|" line)]).
  { intros line acc Hfour Hdate.
    apply match_date_prefix, date_prefix_strip in Hdate.
    split.
    - by apply batch_parse_line_accepted.
    - by apply workflow_parse_line_accepted. }
  split; [exact Hline|]. split; [|split].
  - intros output. apply batch_parse_transactions_lines.
  - intros stdout. apply workflow_extract_lines.
  - intros before line after Hfour Hdate.
    destruct (Hline line [] Hfour Hdate) as [Hb Hw].
    rewrite !flat_map_app. simpl. by rewrite Hb, Hw.
Qed.

Lemma line_parser_keeps_dated_lines_witness :
  let line :=
    py "19/05/25 |20/05/25| ANTHROPIC ANTHROPIC.COMUS USD 5.35 |182.70" in
  Batch.parse_line (py "2025-05-25") (py "1") [] line
  = [{| statement_id := py "2025-05-25"; page := py "1";
        transaction_date := py "19/05/25"; posting_date := py "20/05/25";
        description := py "ANTHROPIC ANTHROPIC.COMUS USD 5.35";
        amount := py "182.70" |}].
Proof.
  intros line.
  refine (proj1 (proj1 (line_parser_keeps_dated_lines (py "2025-05-25") (py "1"))
    line [] _ _)).
  - vm_compute. lia.
  - vm_compute. reflexivity.
Defined.

(** C10. In [batch_extract_all.py], [parse_transactions] returns the empty
    list for every output that contains the substring [ERROR] anywhere, also
    inside the description of a line that the line parser accepts. *)
Theorem error_substring_discards_output (output sid pg : str) :
  contains (py "ERROR") output = true ->
  Batch.parse_transactions output sid pg = [].
Proof.
  intros H. unfold Batch.parse_transactions. rewrite H.
  by rewrite orb_true_r.
Qed.

Lemma error_substring_discards_output_witness :
  let line := py "19/05/25|20/05/25|ERRORLESS SHOP|100.00" in
  Batch.parse_line (py "s") (py "1") [] line
  = [{| statement_id := py "s"; page := py "1";
        transaction_date := py "19/05/25"; posting_date := py "20/05/25";
        description := py "ERRORLESS SHOP"; amount := py "100.00" |}]
  /\ Batch.parse_transactions line (py "s") (py "1") = [].
Proof.
  split.
  - vm_compute. reflexivity.
  - apply error_substring_discards_output. vm_compute. reflexivity.
Defined.

(** ** What the parsers validate *)

Lemma hd_split_app sep tok r :
  Forall (fun c => c <> sep) tok ->
  hd [] (split sep (tok ++ r)) = tok ++ hd [] (split sep r).
Proof.
  induction 1 as [|c tok Hc _ IH]; [done|]. simpl app.
  rewrite split_cons_other by done. simpl. by rewrite IH.
Qed.

(** A line that begins with the date token has a first segment that begins
    with it, stripped or not. *)
Lemma match_date_first_segment s :
  match_date s = true ->
  match_date (strip (nth 0 (split "|" s) [])) = true.
Proof.
  intros (tok & r & -> & Htok)%match_date_prefix.
  apply match_date_prefix.
  destruct (date_token_plain _ Htok) as (Hplain & d & tk & E & Hd).
  replace (nth 0 (split "|" (tok ++ r)) [])
    with (hd [] (split "|" (tok ++ r)))
    by (by destruct (split "|" (tok ++ r))).
  rewrite hd_split_app
    by (eapply Forall_impl; [exact Hplain|]; by intros x [_ ?]).
  exists tok, (rstrip (hd [] (split "|" r))). split; [|done].
  apply (strip_by_keep_app isspace); [by rewrite E|].
  eapply Forall_impl; [exact Hplain|]. by intros x [? _].
Qed.

Lemma batch_parse_line_dated sid pg line t :
  t ∈ Batch.parse_line sid pg [] line ->
  match_date (transaction_date t) = true.
Proof.
  unfold Batch.parse_line.
  repeat match goal with
  | |- context [if ?b then _ else _] => destruct b eqn:?
  end; try (by intros ?%elem_of_nil).
  simpl. intros ->%list_elem_of_singleton. done.
Qed.

Lemma workflow_parse_line_dated sid pg line t :
  t ∈ Workflow.parse_line sid pg [] line ->
  match_date (transaction_date t) = true.
Proof.
  unfold Workflow.parse_line.
  destruct (contains (py "|") (strip line) && match_date (strip line))
    eqn:E; [|by intros ?%elem_of_nil].
  apply andb_true_iff in E as [_ E].
  destruct (4 <=? _); [|by intros ?%elem_of_nil].
  simpl. intros ->%list_elem_of_singleton. simpl.
  by apply match_date_first_segment.
Qed.

Lemma filter_step_acc acc row :
  Workflow.filter_step acc row = acc ++ Workflow.filter_step [] row.
Proof.
  unfold Workflow.filter_step.
  destruct (Workflow.is_ai row); [|by rewrite app_nil_r].
  destruct (parse_amount (amount row)) as [a|]; [|by rewrite app_nil_r].
  destruct (gt0 a); by rewrite ?app_nil_r.
Qed.

(** The filter of [ai_workflow.py] keeps the rows that match a keyword and
    whose amount parses to a positive number, in their order. *)
Lemma filter_ai_transactions_filter rows :
  Workflow.filter_ai_transactions rows =
  List.filter
    (fun row => Workflow.is_ai row &&
       match parse_amount (amount row) with
       | Some a => gt0 a
       | None => false
       end) rows.
Proof.
  unfold Workflow.filter_ai_transactions.
  rewrite (fold_left_acc _ _ filter_step_acc). simpl.
  induction rows as [|row rows IH]; [done|]. simpl. rewrite IH.
  unfold Workflow.filter_step.
  destruct (Workflow.is_ai row); [|done]. simpl.
  destruct (parse_amount (amount row)) as [a|]; [|done].
  by destruct (gt0 a).
Qed.

Lemma filter_ai_transactions_elem rows row :
  row ∈ Workflow.filter_ai_transactions rows <->
  row ∈ rows /\ Workflow.is_ai row = true /\
  exists a, parse_amount (amount row) = Some a /\ gt0 a = true.
Proof.
  rewrite filter_ai_transactions_filter, !list_elem_of_In, filter_In.
  rewrite andb_true_iff.
  destruct (parse_amount (amount row)) as [a|].
  - split; [intros (? & ? & ?); eauto 6|].
    intros (? & ? & a' & [= <-] & ?). auto.
  - split; [intros (? & ? & ?); discriminate|].
    intros (? & ? & a' & ? & ?). discriminate.
Qed.

(** C3, as amended.  The parsers forward a candidate record only if its
    transaction date begins with the date token (two digits, slash, two
    digits, slash, two digits); they check neither the posting date nor the
    amount.  A record whose amount does not parse is turned down later, by the
    filter of [ai_workflow.py], which keeps a row only if its amount, without
    the commas, parses to a number greater than zero. *)
Theorem parsers_validate_transaction_date (sid pg : str) (t : transaction) :
  (forall output,
      t ∈ Batch.parse_transactions output sid pg ->
      match_date (transaction_date t) = true) /\
  (forall stdout,
      t ∈ Workflow.extract_transactions_with_opencode stdout sid pg ->
      match_date (transaction_date t) = true) /\
  (forall rows,
      t ∈ Workflow.filter_ai_transactions rows ->
      exists a, parse_amount (amount t) = Some a /\ gt0 a = true).
Proof.
  split; [|split].
  - intros output. rewrite batch_parse_transactions_lines.
    destruct (_ || _); [by intros ?%elem_of_nil|].
    rewrite list_elem_of_In, in_flat_map. intros (line & _ & Hin).
    apply list_elem_of_In in Hin. by eapply batch_parse_line_dated.
  - intros stdout. rewrite workflow_extract_lines.
    destruct (_ && _); [|by intros ?%elem_of_nil].
    rewrite list_elem_of_In, in_flat_map. intros (line & _ & Hin).
    apply list_elem_of_In in Hin. by eapply workflow_parse_line_dated.
  - intros rows (_ & _ & H)%filter_ai_transactions_elem. exact H.
Qed.

Lemma parsers_validate_transaction_date_witness :
  let t := {| statement_id := py "s"; page := py "1";
              transaction_date := py "18/12/24";
              posting_date := py "20/12/24";
              description := py "SHOPEE BANGKOK TH";
              amount := py "199.00" |} in
  match_date (transaction_date t) = true.
Proof.
  intros t.
  refine (proj1 (parsers_validate_transaction_date (py "s") (py "1") t)
            (py "18/12/24|20/12/24|SHOPEE BANGKOK TH|199.00") _).
  vm_compute. apply list_elem_of_here.
Defined.

(** C3, the claim as stated fails: the parser forwards a record whose posting
    date is no date and whose amount does not parse. *)
Lemma parser_forwards_unparseable_amount :
  Batch.parse_transactions (py "19/05/25|soon|SHOP|abc") (py "s") (py "1")
  = [{| statement_id := py "s"; page := py "1";
        transaction_date := py "19/05/25"; posting_date := py "soon";
        description := py "SHOP"; amount := py "abc" |}]
  /\ Workflow.extract_transactions_with_opencode
       (py "19/05/25|soon|SHOP|abc") (py "s") (py "1")
  = [{| statement_id := py "s"; page := py "1";
        transaction_date := py "19/05/25"; posting_date := py "soon";
        description := py "SHOP"; amount := py "abc" |}]
  /\ match_date (py "soon") = false
  /\ parse_amount (py "abc") = None.
Proof. vm_compute. repeat split. Qed.

(** ** The deduplicator *)

Lemma same_key_key_of a b : same_key a b <-> Batch.key_of a = Batch.key_of b.
Proof.
  unfold same_key, Batch.key_of. split.
  - by intros (-> & -> & -> & ->).
  - intros [= ? ? ? ?]. auto.
Qed.

Lemma exists_same_key earlier t :
  Exists (fun e => same_key e t) earlier <->
  Batch.key_of t ∈ map Batch.key_of earlier.
Proof.
  rewrite Exists_exists, list_elem_of_In, in_map_iff. split.
  - intros (e & He & Hk). exists e.
    split; [by apply same_key_key_of | by apply list_elem_of_In].
  - intros (e & Hk & He). exists e.
    split; [by apply list_elem_of_In | by apply same_key_key_of].
Qed.

(** The loop, started on the records [earlier] already seen. *)
Lemma dedup_fold ts : forall earlier seen unique,
  (forall k, k ∈ seen <-> k ∈ map Batch.key_of earlier) ->
  snd (fold_left Batch.dedup_step ts (seen, unique)) =
  unique ++ first_occurrences_from earlier ts.
Proof.
  induction ts as [|t ts IH]; intros earlier seen unique Hseen; simpl.
  - by rewrite app_nil_r.
  - destruct (decide (Batch.key_of t ∈ seen)) as [Hin|Hout].
    + rewrite decide_True by (by apply exists_same_key, Hseen).
      simpl. apply IH. intros k.
      rewrite map_app, elem_of_app, <- Hseen. simpl.
      rewrite list_elem_of_singleton. split; [auto|].
      by intros [?| ->].
    + rewrite decide_False
        by (by intros ?%exists_same_key%Hseen).
      rewrite (IH (earlier ++ [t])).
      * by rewrite <- app_assoc.
      * intros k. rewrite map_app, elem_of_app, <- Hseen. simpl.
        rewrite list_elem_of_singleton, elem_of_union, elem_of_singleton.
        tauto.
Qed.

Lemma deduplicate_first_occurrences ts :
  Batch.deduplicate_transactions ts = first_occurrences ts.
Proof.
  unfold Batch.deduplicate_transactions, first_occurrences.
  rewrite (dedup_fold ts [] ∅ []); [done|].
  intros k. simpl. set_solver.
Qed.

Lemma first_occurrences_sublist ts : forall earlier,
  sublist (first_occurrences_from earlier ts) ts.
Proof.
  induction ts as [|t ts IH]; intros earlier; simpl; [constructor|].
  destruct (decide _); simpl.
  - apply sublist_cons, IH.
  - apply sublist_skip, IH.
Qed.

(** The keys of the survivors are pairwise different and none is the key of
    an earlier record. *)
Lemma first_occurrences_fresh ts : forall earlier,
  NoDup (map Batch.key_of (first_occurrences_from earlier ts)) /\
  forall k, k ∈ map Batch.key_of (first_occurrences_from earlier ts) ->
            k ∉ map Batch.key_of earlier.
Proof.
  induction ts as [|t ts IH]; intros earlier; simpl.
  - split; [constructor|]. by intros k ?%elem_of_nil.
  - destruct (IH (earlier ++ [t])) as [Hnd Hfresh].
    assert (Hfresh' : forall k,
      k ∈ map Batch.key_of (first_occurrences_from (earlier ++ [t]) ts) ->
      (k ∉ map Batch.key_of earlier) /\ k <> Batch.key_of t).
    { intros k Hk. specialize (Hfresh k Hk).
      rewrite map_app, elem_of_app in Hfresh. simpl in Hfresh.
      rewrite list_elem_of_singleton in Hfresh. tauto. }
    destruct (decide _) as [Hdup|Hnew]; simpl.
    + split; [done|]. intros k Hk. by apply Hfresh'.
    + split.
      * constructor; [|done]. intros Hk. by apply Hfresh' in Hk as [_ ?].
      * intros k [->|Hk]%elem_of_cons.
        -- by rewrite <- exists_same_key.
        -- by apply Hfresh'.
Qed.

(** A sequence without duplicates is left as it is. *)
Lemma first_occurrences_id ts : forall earlier,
  NoDup (map Batch.key_of ts) ->
  (forall k, k ∈ map Batch.key_of ts -> k ∉ map Batch.key_of earlier) ->
  first_occurrences_from earlier ts = ts.
Proof.
  induction ts as [|t ts IH]; intros earlier Hnd Hfresh; simpl; [done|].
  apply NoDup_cons in Hnd as [Ht Hnd].
  rewrite decide_False.
  2:{ rewrite exists_same_key. apply Hfresh. simpl. apply elem_of_cons.
      by left. }
  simpl. f_equal. apply IH; [done|].
  intros k Hk. rewrite map_app, elem_of_app. simpl.
  rewrite list_elem_of_singleton. intros [Hin| ->].
  - apply (Hfresh k); [|done]. simpl. apply elem_of_cons. by right.
  - done.
Qed.

(** C5. The deduplicator removes exactly the records that are exact
    duplicates of an earlier record of the sequence, where two records are
    exact duplicates when their transaction date, posting date, description
    and amount are equal ([statement_id] and [page] are not compared); the
    first occurrence of each key stays, unchanged, and the survivors keep
    their order. *)
Theorem deduplicate_keeps_first_occurrences (ts : list transaction) :
  Batch.deduplicate_transactions ts = first_occurrences ts /\
  sublist (Batch.deduplicate_transactions ts) ts /\
  NoDup (map Batch.key_of (Batch.deduplicate_transactions ts)) /\
  (forall t, t ∈ ts ->
     exists t', t' ∈ Batch.deduplicate_transactions ts /\ same_key t' t).
Proof.
  rewrite deduplicate_first_occurrences. unfold first_occurrences.
  split; [done|]. split; [apply first_occurrences_sublist|].
  split; [apply first_occurrences_fresh|].
  assert (H : forall ts earlier t, t ∈ ts ->
    Exists (fun e => same_key e t) (earlier ++ first_occurrences_from earlier ts)).
  { clear ts. induction ts as [|x ts IH]; intros earlier t Hin.
    - by apply elem_of_nil in Hin.
    - simpl. apply elem_of_cons in Hin as [->|Hin].
      + destruct (decide _) as [Hdup|Hnew]; simpl.
        * apply Exists_app. by left.
        * apply Exists_app. right. apply Exists_cons. left.
          by apply same_key_key_of.
      + specialize (IH (earlier ++ [x]) t Hin).
        rewrite <- app_assoc in IH. simpl in IH.
        destruct (decide _) as [Hdup|Hnew]; simpl; [|done].
        apply Exists_app in IH as [IH|IH]; [apply Exists_app; by left|].
        apply Exists_cons in IH as [IH|IH]; [|apply Exists_app; by right].
        apply Exists_app. left.
        apply Exists_exists in Hdup as (e & He & Hk).
        apply Exists_exists. exists e. split; [done|].
        apply same_key_key_of. apply same_key_key_of in Hk, IH. congruence. }
  intros t Hin. specialize (H ts [] t Hin). simpl in H.
  apply Exists_exists in H as (t' & ? & ?). eauto.
Qed.

(** C9. Deduplication is idempotent. *)
Theorem deduplicate_idempotent (ts : list transaction) :
  Batch.deduplicate_transactions (Batch.deduplicate_transactions ts)
  = Batch.deduplicate_transactions ts.
Proof.
  rewrite !deduplicate_first_occurrences. unfold first_occurrences.
  destruct (first_occurrences_fresh ts []) as [Hnd _].
  apply first_occurrences_id; [done|].
  intros k _. simpl. apply not_elem_of_nil.
Qed.

(** The same line read on two pages is kept once, with the page of its first
    occurrence. *)
Example deduplicate_across_pages :
  Batch.deduplicate_transactions
    [ {| statement_id := py "2025-05-25"; page := py "1";
         transaction_date := py "18/12/24"; posting_date := py "20/12/24";
         description := py "SHOPEE BANGKOK TH"; amount := py "199.00" |};
      {| statement_id := py "2025-05-25"; page := py "2";
         transaction_date := py "18/12/24"; posting_date := py "20/12/24";
         description := py "SHOPEE BANGKOK TH"; amount := py "199.00" |} ]
  = [ {| statement_id := py "2025-05-25"; page := py "1";
         transaction_date := py "18/12/24"; posting_date := py "20/12/24";
         description := py "SHOPEE BANGKOK TH"; amount := py "199.00" |} ].
Proof. vm_compute. reflexivity. Qed.

(** ** The vendor classifier *)

Ltac case_has :=
  repeat match goal with
  | |- context [has ?k ?d] =>
      let E := fresh "E" in destruct (has k d) eqn:E; cbn [orb andb]
  end.

Lemma workflow_service_of_table u :
  Workflow.service_of u
  = default (py "Other AI Service") (first_match vendor_table u).
Proof.
  unfold Workflow.service_of. cbn [first_match vendor_table].
  repeat change (contains (py ?k) u) with (has k u).
  case_has; reflexivity.
Qed.

Lemma sheets_service_name_of_table u :
  Sheets.service_name_of u = first_match sheets_table u.
Proof.
  unfold Sheets.service_name_of. cbn [first_match sheets_table].
  repeat change (contains (py ?k) u) with (has k u).
  case_has; reflexivity.
Qed.

(** C1, as amended.  The classifier upper-cases the description and gives
    the label of the first rule that matches.  In [generate_summary] the
    rules are tried in the order of the table of the specification, with
    "Other AI Service" when none matches; in [format_for_sheets.py] the
    Google Cloud rule is tried second, right after OpenRouter, and the other
    rules keep their order.  A description that contains STRIPE and Z.AI and
    matches none of the six rules above resolves to "Z.AI Service" in
    [generate_summary], whether it contains GOOGLE or not, and in
    [format_for_sheets.py] as well unless it contains both GOOGLE and CLOUD. *)
Theorem classifier_first_match (d : str) :
  Workflow.classify d
    = default (py "Other AI Service") (first_match vendor_table (upper d)) /\
  Sheets.classify d = first_match sheets_table (upper d) /\
  (has "STRIPE" (upper d) = true -> has "Z.AI" (upper d) = true ->
   first_match (take 6 vendor_table) (upper d) = None ->
   Workflow.classify d = py "Z.AI Service" /\
   (has "GOOGLE" (upper d) && has "CLOUD" (upper d) = false ->
    Sheets.classify d = Some (py "Z.AI Service"))).
Proof.
  unfold Workflow.classify, Sheets.classify.
  rewrite workflow_service_of_table, sheets_service_name_of_table.
  split; [done|]. split; [done|].
  intros Hs Hz. cbn [take first_match vendor_table sheets_table].
  rewrite Hs, Hz. cbn [andb].
  case_has; intros H6; try discriminate H6; split; try reflexivity;
    intros; try discriminate; reflexivity.
Qed.

Lemma classifier_first_match_witness :
  Workflow.classify (py "Stripe *z.ai google") = py "Z.AI Service" /\
  Sheets.classify (py "Stripe *z.ai google") = Some (py "Z.AI Service").
Proof.
  pose proof (proj2 (proj2 (classifier_first_match
                              (py "Stripe *z.ai google")))) as H.
  split.
  - apply H; vm_compute; reflexivity.
  - apply H; vm_compute; reflexivity.
Defined.

(** C1, the claim as stated fails in [format_for_sheets.py]: a description
    that contains STRIPE, Z.AI and GOOGLE, and CLOUD too, is labelled
    "Google Cloud", where the first matching rule of the table gives
    "Z.AI Service". *)
Lemma sheets_classifier_prefers_google_cloud :
  has "STRIPE" (upper (py "Stripe z.ai google cloud")) = true /\
  has "Z.AI" (upper (py "Stripe z.ai google cloud")) = true /\
  has "GOOGLE" (upper (py "Stripe z.ai google cloud")) = true /\
  first_match vendor_table (upper (py "Stripe z.ai google cloud"))
    = Some (py "Z.AI Service") /\
  Sheets.classify (py "Stripe z.ai google cloud") = Some (py "Google Cloud").
Proof. vm_compute. repeat split. Qed.

(** ** The filter of the classify-and-filter mode *)

Lemma insert_sorted_perm x l : Sheets.insert_sorted x l ≡ₚ x :: l.
Proof.
  induction l as [|y l IH]; simpl; [done|].
  destruct (Sheets.key_ltb _ _); [|done].
  rewrite IH. apply Permutation_swap.
Qed.

Lemma sort_by_date_perm l : Sheets.sort_by_date l ≡ₚ l.
Proof.
  induction l as [|x l IH]; simpl; [done|].
  by rewrite insert_sorted_perm, IH.
Qed.

(** One step of the loop of [format_for_sheets.py] on a classified row whose
    amount parses. *)
Lemma format_step_classified acc row a svc :
  parse_amount (amount row) = Some a ->
  Sheets.classify (description row) = Some svc ->
  Sheets.format_step acc row =
  Some (if gt0 a then
          match Sheets.parse_date (transaction_date row) with
          | Some date_obj =>
              acc ++ [{| Sheets.row_date := transaction_date row;
                         Sheets.row_month := Sheets.get_month_thai date_obj;
                         Sheets.row_description := svc;
                         Sheets.row_price := a;
                         Sheets.row_quantity := 1;
                         Sheets.row_total := a |}]
          | None => acc
          end
        else acc).
Proof.
  unfold Sheets.format_step, Sheets.classify. intros -> ->.
  destruct (gt0 a); [|done]. by destruct (Sheets.parse_date _).
Qed.

(** ** The fixed-column parser of the OCR text *)

Lemma ocr_parse_line_acc acc line :
  Ocr.parse_line acc line = acc ++ Ocr.parse_line [] line.
Proof.
  unfold Ocr.parse_line.
  destruct (Re.match_ Ocr.pattern (strip line)); by rewrite ?app_nil_r.
Qed.

(** ** The aggregator *)

Lemma fsum_snoc l a : fsum (l ++ [a]) = fadd (fsum l) a.
Proof. unfold fsum. by rewrite fold_left_app. Qed.

Lemma bucket_of_snoc l a :
  bucket_of (l ++ [a]) =
  Some {| count := S (count (default empty_bucket (bucket_of l)));
          total := fadd (total (default empty_bucket (bucket_of l))) a |}.
Proof.
  destruct l as [|b l]; [done|].
  transitivity (Some {| count := length ((b :: l) ++ [a]);
                        total := fsum ((b :: l) ++ [a]) |}); [done|].
  rewrite fsum_snoc, length_app, Nat.add_1_r. reflexivity.
Qed.

(** Adding an amount to the bucket of [service] leaves the other buckets. *)
Lemma add_to_bucket_lookup service a d label (l : list float) :
  d !! label = bucket_of l ->
  add_to_bucket service a d !! label =
  bucket_of (l ++ if decide (service = label) then [a] else []).
Proof.
  intros Hd. unfold add_to_bucket.
  destruct (decide (service = label)) as [->|Hne].
  - rewrite lookup_insert_eq, bucket_of_snoc, Hd. done.
  - rewrite lookup_insert_ne by done. by rewrite app_nil_r.
Qed.

Lemma add_to_bucket_count service a d label :
  count_of label d <= count_of label (add_to_bucket service a d).
Proof.
  unfold count_of, add_to_bucket.
  destruct (decide (service = label)) as [->|Hne].
  - rewrite lookup_insert_eq. simpl. destruct (d !! label); simpl; lia.
  - by rewrite lookup_insert_ne.
Qed.

Lemma summary_loop_snoc rows row : forall st,
  Workflow.summary_loop st (rows ++ [row]) =
  Workflow.summary_loop st rows ≫= fun st' => Workflow.summary_step st' row.
Proof.
  induction rows as [|r rows IH]; intros st; simpl.
  - by destruct (Workflow.summary_step st row).
  - destruct (Workflow.summary_step st r); [apply IH | done].
Qed.

(** What [generate_summary] holds after its loop. *)
Lemma generate_summary_spec rows : forall d tot,
  Workflow.generate_summary rows = Some (d, tot) ->
  (forall label, d !! label = bucket_of (workflow_amounts label rows)) /\
  tot = fsum (all_amounts rows) /\
  Forall (fun row => is_Some (parse_amount (amount row))) rows.
Proof.
  unfold Workflow.generate_summary.
  induction rows as [|row rows IH] using rev_ind; intros d tot.
  - intros [= <- <-]. split; [|by split]. intros label. apply lookup_empty.
  - rewrite summary_loop_snoc.
    destruct (Workflow.summary_loop (∅, fzero) rows) as [[d0 tot0]|];
      [|done].
    destruct (IH d0 tot0 eq_refl) as (Hd & Htot & Hlen). simpl.
    destruct (parse_amount (amount row)) as [a|] eqn:Ha; [|done].
    intros [= <- <-]. split; [|split].
    + intros label. unfold workflow_amounts.
      rewrite filter_app, omap_app.
      rewrite (add_to_bucket_lookup _ _ _ _ _ (Hd label)). f_equal. f_equal.
      unfold Workflow.classify.
      destruct (decide (Workflow.service_of (upper (description row)) = label))
        as [E|E].
      * rewrite filter_cons_True by done. simpl. by rewrite Ha.
      * by rewrite filter_cons_False.
    + unfold all_amounts. rewrite omap_app. simpl. rewrite Ha. simpl.
      by rewrite fsum_snoc, Htot.
    + apply Forall_app. split; [done|]. apply Forall_singleton. eauto.
Qed.

(** What [save_and_summarize] holds after its loop. *)
Lemma save_and_summarize_spec ts :
  (forall label,
     (Brain.save_and_summarize ts).1 !! label
     = bucket_of (brain_amounts label ts)) /\
  (Brain.save_and_summarize ts).2 = fsum (brain_all_amounts ts).
Proof.
  unfold Brain.save_and_summarize.
  induction ts as [|t ts IH] using rev_ind.
  - split; [|done]. intros label. apply lookup_empty.
  - rewrite fold_left_app. simpl.
    destruct (fold_left Brain.summary_step ts (∅, fzero)) as [d0 tot0].
    destruct IH as [Hd Htot]. simpl in Hd, Htot.
    unfold Brain.summary_step, brain_amounts, brain_all_amounts.
    setoid_rewrite filter_app. rewrite !omap_app.
    destruct (parse_amount (amount (Brain.txn t))) as [a|] eqn:Ha; simpl.
    + split.
      * intros label. setoid_rewrite omap_app.
        rewrite (add_to_bucket_lookup _ _ _ _ _ (Hd label)). f_equal. f_equal.
        destruct (decide (Brain.service t = label)) as [E|E].
        -- rewrite filter_cons_True by done. simpl. by rewrite Ha.
        -- by rewrite filter_cons_False.
      * rewrite Ha. simpl. by rewrite fsum_snoc, Htot.
    + split.
      * intros label. setoid_rewrite omap_app. rewrite Hd.
        destruct (decide (Brain.service t = label)) as [E|E].
        -- rewrite filter_cons_True by done. simpl. rewrite Ha.
           by rewrite app_nil_r.
        -- rewrite filter_cons_False by done. by rewrite app_nil_r.
      * rewrite Ha. simpl. by rewrite app_nil_r.
Qed.

Lemma length_omap_all {A B} (f : A -> option B) (l : list A) :
  Forall (fun x => is_Some (f x)) l -> length (omap f l) = length l.
Proof.
  induction 1 as [|x l [y Hy] _ IH]; [done|].
  simpl. rewrite Hy. simpl. f_equal. exact IH.
Qed.

Lemma Forall_filter_keep {A} (P Q : A -> Prop) `{!forall x, Decision (Q x)}
    (l : list A) :
  Forall P l -> Forall P (filter Q l).
Proof.
  induction 1 as [|x l Hx _ IH]; [done|].
  rewrite filter_cons. destruct (decide (Q x)); [by constructor | done].
Qed.

(** [generate_summary] ends without an exception when every amount parses. *)
Lemma generate_summary_total rows :
  Forall (fun row => is_Some (parse_amount (amount row))) rows ->
  exists d tot, Workflow.generate_summary rows = Some (d, tot).
Proof.
  unfold Workflow.generate_summary. intros H.
  generalize (∅ : gmap str bucket, fzero).
  induction H as [|row rows [a Ha] _ IH]; intros [d tot]; simpl; [eauto|].
  rewrite Ha. apply IH.
Qed.


(** ** Rounding to binary64

    Enough of the behaviour of the rounding of [SpecFloat] to see that the
    numbers that arise are valid and that adding a positive number to a
    number that is not negative does not lower it. *)

Section FloatFacts.
Local Open Scope Z_scope.

Local Abbreviation fexp := (SpecFloat.fexp prec emax).
Local Abbreviation digits := SpecFloat.Zdigits2.

Lemma fexp_max e : fexp e = Z.max (e - 53) (-1074).
Proof. reflexivity. Qed.

Lemma fexp_mono a b : a <= b -> fexp a <= fexp b.
Proof. rewrite !fexp_max. lia. Qed.

Lemma digits2_pos_log2 p :
  Zpos (SpecFloat.digits2_pos p) = Z.log2 (Zpos p) + 1.
Proof.
  induction p as [p IH|p IH|]; simpl SpecFloat.digits2_pos;
    rewrite ?Pos2Z.inj_succ, ?IH; try reflexivity.
  - change (Zpos p~1) with (2 * Zpos p + 1).
    rewrite Z.log2_succ_double by done. lia.
  - change (Zpos p~0) with (2 * Zpos p).
    rewrite Z.log2_double by done. lia.
Qed.

Lemma digits_log2 m : 0 < m -> digits m = Z.log2 m + 1.
Proof. destruct m as [|p|p]; try done. intros _. apply digits2_pos_log2. Qed.

Lemma digits_nonneg m : 0 <= digits m.
Proof. by destruct m. Qed.

Lemma digits_pos m : 0 < m -> 0 < digits m.
Proof. by destruct m. Qed.

Lemma digits_bounds m : 0 < m -> 2 ^ (digits m - 1) <= m < 2 ^ digits m.
Proof.
  intros Hm. rewrite digits_log2 by done.
  replace (Z.log2 m + 1 - 1) with (Z.log2 m) by lia.
  replace (Z.log2 m + 1) with (Z.succ (Z.log2 m)) by lia.
  by apply Z.log2_spec.
Qed.

Lemma digits_unique m d : 0 < d -> 2 ^ (d - 1) <= m < 2 ^ d -> digits m = d.
Proof.
  intros Hd Hm. assert (0 < m) by (pose proof (Z.pow_pos_nonneg 2 (d - 1)); lia).
  rewrite digits_log2 by done.
  assert (Z.log2 m = d - 1); [|lia].
  apply Z.log2_unique; [lia|]. by replace (Z.succ (d - 1)) with d by lia.
Qed.

Lemma digits_mono a b : 0 <= a <= b -> digits a <= digits b.
Proof.
  intros [Ha Hab]. destruct (Z.eq_dec a 0) as [->|Hne].
  - apply digits_nonneg.
  - rewrite !digits_log2 by lia. pose proof (Z.log2_le_mono a b Hab). lia.
Qed.

(** The digits of [m * 2^n] and of [m / 2^n]. *)
Lemma digits_shiftl m n : 0 < m -> 0 <= n -> digits (m * 2 ^ n) = digits m + n.
Proof.
  intros Hm Hn. pose proof (digits_bounds m Hm) as [Hlo Hhi].
  pose proof (digits_pos m Hm).
  apply digits_unique; [lia|].
  replace (digits m + n - 1) with (digits m - 1 + n) by lia.
  rewrite !Z.pow_add_r by lia.
  pose proof (Z.pow_pos_nonneg 2 n). nia.
Qed.

Lemma digits_shiftr m n :
  0 < m -> 0 <= n -> digits (m / 2 ^ n) = Z.max 0 (digits m - n).
Proof.
  intros Hm Hn. pose proof (digits_bounds m Hm) as [Hlo Hhi].
  pose proof (digits_pos m Hm).
  assert (H2 : 0 < 2 ^ n) by (apply Z.pow_pos_nonneg; lia).
  destruct (Z_lt_le_dec n (digits m)) as [Hlt|Hge].
  - rewrite Z.max_r by lia. apply digits_unique; [lia|]. split.
    + apply Z.div_le_lower_bound; [lia|].
      rewrite <- Z.pow_add_r by lia.
      by replace (n + (digits m - n - 1)) with (digits m - 1) by lia.
    + apply Z.div_lt_upper_bound; [lia|].
      rewrite <- Z.pow_add_r by lia.
      by replace (n + (digits m - n)) with (digits m) by lia.
  - rewrite Z.max_l by lia. rewrite Z.div_small; [done|].
    split; [lia|]. eapply Z.lt_le_trans; [exact Hhi|].
    apply Z.pow_le_mono_r; lia.
Qed.

Lemma digits_le_pow m k : 0 <= k -> 0 <= m < 2 ^ k -> digits m <= k.
Proof.
  intros Hk [Hm Hlt]. destruct (Z.eq_dec m 0) as [->|Hne]; [done|].
  pose proof (digits_bounds m ltac:(lia)) as [Hlo _].
  pose proof (digits_pos m ltac:(lia)).
  assert (2 ^ (digits m - 1) < 2 ^ k) by lia.
  apply Z.pow_lt_mono_r_iff in H0; lia.
Qed.

Lemma digits_ge_pow m k : 0 < k -> 2 ^ (k - 1) <= m -> k <= digits m.
Proof.
  intros Hk Hm.
  assert (0 < m) by (pose proof (Z.pow_pos_nonneg 2 (k - 1)); lia).
  pose proof (digits_bounds m H) as [_ Hhi]. pose proof (digits_pos m H).
  assert (2 ^ (k - 1) < 2 ^ digits m) by lia.
  apply Z.pow_lt_mono_r_iff in H1; lia.
Qed.

(** *** Shifting a mantissa to the right *)

Lemma shr_1_m mrs :
  0 <= SpecFloat.shr_m mrs ->
  SpecFloat.shr_m (SpecFloat.shr_1 mrs) = SpecFloat.shr_m mrs / 2.
Proof.
  destruct mrs as [m r s]. simpl. intros Hm.
  destruct m as [|[p|p|]|p]; try done.
  - change (Zpos p~1) with (1 + 2 * Zpos p).
    rewrite Z.mul_comm, Z.div_add by done. done.
  - change (Zpos p~0) with (0 + 2 * Zpos p).
    rewrite Z.mul_comm, Z.div_add by done. done.
Qed.

Lemma shr_iter_m p : forall mrs,
  0 <= SpecFloat.shr_m mrs ->
  SpecFloat.shr_m (SpecFloat.iter_pos SpecFloat.shr_1 p mrs)
  = SpecFloat.shr_m mrs / 2 ^ Zpos p.
Proof.
  induction p as [p IH|p IH|]; intros mrs Hm; simpl SpecFloat.iter_pos.
  - assert (HP : 0 < 2 ^ Zpos p) by (apply Z.pow_pos_nonneg; lia).
    assert (H1 : 0 <= SpecFloat.shr_m (SpecFloat.shr_1 mrs))
      by (rewrite shr_1_m by done; apply Z.div_pos; lia).
    assert (H2 : 0 <= SpecFloat.shr_m
                        (SpecFloat.iter_pos SpecFloat.shr_1 p
                           (SpecFloat.shr_1 mrs)))
      by (rewrite IH by done; apply Z.div_pos; lia).
    rewrite (IH _ H2), (IH _ H1), shr_1_m by done.
    rewrite !Z.div_div by lia. f_equal.
    replace (Zpos p~1) with (Zpos p + Zpos p + 1) by lia.
    rewrite !Z.pow_add_r by lia. change (2 ^ 1) with 2.
    set (P := 2 ^ Zpos p). ring.
  - assert (HP : 0 < 2 ^ Zpos p) by (apply Z.pow_pos_nonneg; lia).
    assert (H2 : 0 <= SpecFloat.shr_m
                        (SpecFloat.iter_pos SpecFloat.shr_1 p mrs))
      by (rewrite IH by done; apply Z.div_pos; lia).
    rewrite (IH _ H2), (IH _ Hm).
    rewrite !Z.div_div by lia. f_equal.
    replace (Zpos p~0) with (Zpos p + Zpos p) by lia.
    by rewrite !Z.pow_add_r by lia.
  - by rewrite shr_1_m.
Qed.

Lemma shr_record_of_loc_m m l :
  SpecFloat.shr_m (SpecFloat.shr_record_of_loc m l) = m.
Proof. by destruct l as [|[]]. Qed.

(** [shr_fexp] brings a mantissa to the exponent of its format. *)
Lemma shr_fexp_spec m e l :
  0 <= m -> e <= fexp (digits m + e) ->
  SpecFloat.shr_m (SpecFloat.shr_fexp prec emax m e l).1
    = m / 2 ^ (fexp (digits m + e) - e) /\
  (SpecFloat.shr_fexp prec emax m e l).2 = fexp (digits m + e).
Proof.
  intros Hm He. unfold SpecFloat.shr_fexp, SpecFloat.shr.
  destruct (fexp (digits m + e) - e) as [|n|n] eqn:En; simpl.
  - rewrite shr_record_of_loc_m, Z.div_1_r. lia.
  - rewrite shr_iter_m by (by rewrite shr_record_of_loc_m).
    rewrite shr_record_of_loc_m. lia.
  - lia.
Qed.

Lemma shr_fexp_fixed m e :
  0 <= m -> fexp (digits m + e) <= e ->
  SpecFloat.shr_fexp prec emax m e SpecFloat.loc_Exact
  = (SpecFloat.shr_record_of_loc m SpecFloat.loc_Exact, e).
Proof.
  intros Hm He. unfold SpecFloat.shr_fexp, SpecFloat.shr.
  destruct (fexp (digits m + e) - e) as [|n|n] eqn:En; try done. lia.
Qed.

Lemma round_nearest_even_bounds m l :
  m <= SpecFloat.round_nearest_even m l <= m + 1.
Proof.
  unfold SpecFloat.round_nearest_even.
  destruct l as [|[]]; try destruct (Z.even m); lia.
Qed.

(** *** The result of rounding *)

Lemma binary_round_aux_rounded s m e l :
  0 <= m -> e <= fexp (digits m + e) ->
  0 < m \/ fexp (digits m + e) = -1074 ->
  rounded s (m / 2 ^ (fexp (digits m + e) - e)) (fexp (digits m + e))
          (SpecFloat.binary_round_aux prec emax s m e l).
Proof.
  intros Hm He Hpos. unfold SpecFloat.binary_round_aux.
  destruct (shr_fexp_spec m e l Hm He) as [H1 H2].
  destruct (SpecFloat.shr_fexp prec emax m e l) as [mrs' e'].
  simpl in H1, H2. subst e'.
  set (E := fexp (digits m + e)) in *.
  pose proof (round_nearest_even_bounds (SpecFloat.shr_m mrs')
                (SpecFloat.loc_of_shr_record mrs')) as Hr.
  set (m2 := SpecFloat.round_nearest_even _ _) in *.
  rewrite H1 in Hr. set (m1 := m / 2 ^ (E - e)) in *. clearbody m2.
  assert (HE : -1074 <= E /\ digits m + e - 53 <= E /\
               (E = -1074 \/ E = digits m + e - 53))
    by (unfold E; rewrite fexp_max; lia).
  assert (Hp2 : 0 < 2 ^ (E - e)) by (apply Z.pow_pos_nonneg; lia).
  assert (Hm1 : 0 <= m1) by (apply Z.div_pos; lia).
  assert (Hm1' : m1 < 2 ^ 53).
  { apply Z.div_lt_upper_bound; [done|].
    destruct (Z.eq_dec m 0) as [->|Hne]; [lia|].
    pose proof (digits_bounds m ltac:(lia)) as [_ Hhi].
    eapply Z.lt_le_trans; [exact Hhi|]. rewrite <- Z.pow_add_r by lia.
    apply Z.pow_le_mono_r; lia. }
  assert (Hbig : -1074 < E -> 2 ^ 52 <= m1).
  { intros HE'. destruct Hpos as [Hpos|?]; [|lia].
    apply Z.div_le_lower_bound; [done|].
    pose proof (digits_bounds m Hpos) as [Hlo _].
    rewrite <- Z.pow_add_r by lia.
    replace (E - e + 52) with (digits m - 1) by lia. done. }
  change (2 ^ 53) with 9007199254740992 in *.
  change (2 ^ 52) with 4503599627370496 in *.
  destruct (Z.eq_dec m2 9007199254740992) as [->|Hne].
  - (* the mantissa was rounded up to 2^53 *)
    unfold SpecFloat.shr_fexp.
    replace (SpecFloat.fexp prec emax (digits 9007199254740992 + E) - E)
      with 1
      by (change (digits 9007199254740992) with 54; rewrite fexp_max; lia).
    cbn -[Z.leb Z.add Z.sub].
    destruct (E + 1 <=? emax - prec) eqn:Hb; [|constructor].
    apply rounded_finite; [|lia].
    unfold SpecFloat.bounded, SpecFloat.canonical_mantissa.
    rewrite Hb, andb_true_r. apply Z.eqb_eq.
    change (Zpos (SpecFloat.digits2_pos 4503599627370496)) with 53.
    rewrite fexp_max. lia.
  - assert (Hd : digits m2 <= 53)
      by (apply digits_le_pow; [lia|];
          change (2 ^ 53) with 9007199254740992; lia).
    rewrite shr_fexp_fixed by (rewrite ?fexp_max; lia).
    cbn -[Z.leb Z.sub].
    destruct m2 as [|p|p]; [constructor; lia| |lia].
    destruct (E <=? emax - prec) eqn:Hb; [|constructor].
    apply rounded_finite; [|lia].
    unfold SpecFloat.bounded, SpecFloat.canonical_mantissa.
    rewrite Hb, andb_true_r. apply Z.eqb_eq.
    change (Zpos (SpecFloat.digits2_pos p)) with (digits (Zpos p)) in *.
    rewrite fexp_max.
    destruct (Z.eq_dec E (-1074)) as [HE'|HE']; [lia|].
    assert (53 <= digits (Zpos p))
      by (apply digits_ge_pow; [lia|];
          change (2 ^ (53 - 1)) with 4503599627370496; lia).
    lia.
Qed.

Lemma pos_iter_xO m d : Zpos (Pos.iter xO m d) = Zpos m * 2 ^ Zpos d.
Proof.
  induction d as [|d IH] using Pos.peano_ind.
  - simpl. lia.
  - rewrite Pos.iter_succ, Pos2Z.inj_xO, IH, Pos2Z.inj_succ.
    rewrite Z.pow_succ_r by lia. lia.
Qed.

(** [shl_align] lowers the exponent to [e'] when it is above it. *)
Lemma shl_align_spec m e e' :
  (SpecFloat.shl_align m e e').2 = Z.min e e' /\
  Zpos (SpecFloat.shl_align m e e').1 = Zpos m * 2 ^ (e - Z.min e e').
Proof.
  unfold SpecFloat.shl_align. destruct (e' - e) as [|d|d] eqn:Ed; simpl.
  - rewrite Z.min_l by lia. rewrite Z.sub_diag. simpl. lia.
  - rewrite Z.min_l by lia. rewrite Z.sub_diag. simpl. lia.
  - rewrite Z.min_r by lia. split; [done|].
    rewrite pos_iter_xO. f_equal. f_equal. lia.
Qed.

Lemma binary_round_rounded s m e :
  rounded s
    (Zpos m * 2 ^ (e - Z.min e (fexp (digits (Zpos m) + e)))
     / 2 ^ (fexp (digits (Zpos m) + e) - Z.min e (fexp (digits (Zpos m) + e))))
    (fexp (digits (Zpos m) + e))
    (SpecFloat.binary_round prec emax s m e).
Proof.
  unfold SpecFloat.binary_round.
  change (Zpos (SpecFloat.digits2_pos m)) with (digits (Zpos m)).
  set (E := fexp (digits (Zpos m) + e)).
  destruct (shl_align_spec m e E) as [He' Hm'].
  destruct (SpecFloat.shl_align m e E) as [mz ez]. simpl in He', Hm'.
  subst ez. rewrite <- Hm'.
  assert (Hd : digits (Zpos mz) + Z.min e E = digits (Zpos m) + e).
  { rewrite Hm', digits_shiftl by lia. lia. }
  pose proof (binary_round_aux_rounded s (Zpos mz) (Z.min e E)
                SpecFloat.loc_Exact) as H.
  rewrite Hd in H. apply H; [lia | fold E; lia | left; lia].
Qed.

(** *** Adding a positive float *)

Lemma rounded_sound_nonneg m1 E x : rounded false m1 E x -> sound_nonneg x.
Proof. by destruct 1. Qed.

Lemma bounded_canonical m e :
  SpecFloat.bounded prec emax m e = true ->
  fexp (digits (Zpos m) + e) = e.
Proof.
  unfold SpecFloat.bounded, SpecFloat.canonical_mantissa.
  intros [H _]%andb_true_iff. by apply Z.eqb_eq in H.
Qed.

Lemma fadd_finite_pos mx ex my ey :
  SpecFloat.bounded prec emax mx ex = true ->
  sound_nonneg (fadd (S754_finite false mx ex) (S754_finite false my ey)) /\
  fle (S754_finite false mx ex)
      (fadd (S754_finite false mx ex) (S754_finite false my ey)) = true.
Proof.
  intros Hx. apply bounded_canonical in Hx.
  unfold fadd, SpecFloat.SFadd, SpecFloat.cond_Zopp.
  set (ez := Z.min ex ey).
  destruct (shl_align_spec mx ex ez) as [_ Hax].
  destruct (shl_align_spec my ey ez) as [_ Hay].
  rewrite Z.min_r in Hax, Hay by (unfold ez; lia).
  set (ax := (SpecFloat.shl_align mx ex ez).1) in *.
  set (ay := (SpecFloat.shl_align my ey ez).1) in *.
  change (Zpos ax + Zpos ay) with (Zpos (ax + ay)).
  unfold SpecFloat.binary_normalize.
  pose proof (binary_round_rounded false (ax + ay) ez) as H.
  set (m := Zpos (ax + ay)) in *.
  assert (Hm : Zpos mx * 2 ^ (ex - ez) < m) by (unfold m; lia).
  assert (Hp : 0 < 2 ^ (ex - ez))
    by (apply Z.pow_pos_nonneg; unfold ez; lia).
  assert (HD : digits (Zpos mx) + ex <= digits m + ez).
  { pose proof (digits_mono (Zpos mx * 2 ^ (ex - ez)) m ltac:(lia)) as Hd.
    rewrite digits_shiftl in Hd by (unfold ez; lia). lia. }
  set (E := fexp (digits m + ez)) in *.
  assert (HE : ex <= E) by (rewrite <- Hx; by apply fexp_mono).
  assert (Hez : ez <= ex) by (unfold ez; lia).
  rewrite Z.min_l, Z.sub_diag, Z.mul_1_r in H by lia.
  assert (Hm1 : 0 < m / 2 ^ (E - ez) /\
                (E = ex -> Zpos mx <= m / 2 ^ (E - ez))).
  { split.
    - destruct (Z.eq_dec E ex) as [->|Hne].
      + apply Z.lt_le_trans with (Zpos mx); [lia|].
        apply Z.div_le_lower_bound; lia.
      + assert (E = digits m + ez - 53)
          by (unfold E in *; rewrite fexp_max in *; lia).
        apply Z.lt_le_trans with (2 ^ 52); [done|].
        apply Z.div_le_lower_bound; [apply Z.pow_pos_nonneg; lia|].
        rewrite <- Z.pow_add_r by lia.
        replace (E - ez + 52) with (digits m - 1) by lia.
        apply digits_bounds. unfold m. lia.
    - intros ->. apply Z.div_le_lower_bound; lia. }
  destruct Hm1 as [Hm1 Hm1'].
  split; [by eapply rounded_sound_nonneg|].
  unfold fle, SpecFloat.SFleb, SpecFloat.SFcompare.
  clearbody E m.
  destruct H as [H0|p e Hb [Hlt|[-> Hle]]|]; [lia| | |done].
  - assert (Hc : Z.compare ex e = Lt) by (apply Z.compare_lt_iff; lia).
    by rewrite Hc.
  - destruct (Z.compare_spec ex E) as [Heq|?|?]; [|done|lia].
    rewrite Pos.compare_cont_spec. simpl.
    specialize (Hm1' (eq_sym Heq)).
    destruct (Pos.compare_spec mx p); try done. lia.
Qed.

Lemma fle_refl x : sound_nonneg x -> fle x x = true.
Proof.
  unfold fle, SpecFloat.SFleb, SpecFloat.SFcompare.
  destruct x as [s|[]| |[] m e]; try done. intros _.
  rewrite Z.compare_refl, Pos.compare_cont_spec, Pos.compare_refl. done.
Qed.

(** Adding a positive number to a number that is not negative gives a
    number that is not negative and not below the first. *)
Lemma fadd_nonneg_pos x a :
  sound_nonneg x -> sound_pos a ->
  sound_nonneg (fadd x a) /\ fle x (fadd x a) = true.
Proof.
  destruct x as [sx|[]| |[] mx ex]; try done;
    destruct a as [sa|[]| |[] ma ea]; try done; intros Hx Ha;
    try (split; [assumption || exact I | reflexivity]).
  by apply fadd_finite_pos.
Qed.

(** *** The floats read from amounts *)

Lemma rounded_gt0 s m1 E x :
  rounded s m1 E x -> gt0 x = true -> sound_pos x.
Proof. destruct 1; destruct s; try done. Qed.

Lemma div_core_spec m1 m2 q e' l :
  0 < m1 -> 0 < m2 ->
  SpecFloat.SFdiv_core_binary prec emax m1 0 m2 0 = (q, e', l) ->
  0 <= q /\ e' <= fexp (digits q + e') /\
  (0 < q \/ fexp (digits q + e') = -1074).
Proof.
  intros H1 H2. unfold SpecFloat.SFdiv_core_binary.
  rewrite !Z.add_0_r, Z.sub_diag, Z.sub_0_l.
  change (SpecFloat.Zdigits2 m1) with (digits m1).
  change (SpecFloat.Zdigits2 m2) with (digits m2).
  set (e0 := Z.min (fexp (digits m1 - digits m2)) 0).
  set (m' := match - e0 with
             | 0 => m1
             | Zpos _ => Z.shiftl m1 (- e0)
             | Zneg _ => 0
             end).
  assert (He0 : -1074 <= e0 <= 0 /\
                (e0 = -1074 \/ e0 <= digits m1 - digits m2 - 53))
    by (unfold e0; rewrite fexp_max; lia).
  assert (Hm' : m' = m1 * 2 ^ (- e0)).
  { unfold m'. destruct (- e0) as [|s|s] eqn:Es; [simpl; lia| |lia].
    by rewrite Z.shiftl_mul_pow2. }
  destruct (Z.div_eucl m' m2) as [q0 r] eqn:Hdiv. intros [= <- <- _].
  assert (Hq : q0 = m' / m2) by (unfold Z.div; by rewrite Hdiv).
  assert (Hp : 0 < 2 ^ (- e0)) by (apply Z.pow_pos_nonneg; lia).
  assert (Hq0 : 0 <= q0) by (rewrite Hq; apply Z.div_pos; nia).
  split; [done|].
  destruct (Z.eq_dec e0 (-1074)) as [E|E].
  - rewrite E, fexp_max. split; [lia|].
    destruct (Z.eq_dec q0 0) as [->|?]; [right; simpl; lia | left; lia].
  - assert (Hbig : 2 ^ 52 <= q0).
    { rewrite Hq, Hm'. apply Z.div_le_lower_bound; [done|].
      pose proof (digits_bounds m1 H1) as [Hlo _].
      pose proof (digits_bounds m2 H2) as [_ Hhi].
      pose proof (digits_pos m1 H1). pose proof (digits_pos m2 H2).
      apply Z.le_trans with (2 ^ digits m2 * 2 ^ 52); [nia|].
      apply Z.le_trans with (2 ^ (digits m1 - 1) * 2 ^ (- e0)); [|nia].
      rewrite <- !Z.pow_add_r by lia. apply Z.pow_le_mono_r; lia. }
    assert (53 <= digits q0) by (apply digits_ge_pow; [lia | done]).
    rewrite fexp_max. split; [lia|]. left.
    pose proof (Z.pow_pos_nonneg 2 52). lia.
Qed.

Lemma round_decimal_sound neg m e :
  gt0 (round_decimal neg m e) = true -> sound_pos (round_decimal neg m e).
Proof.
  unfold round_decimal. destruct m as [|p|p]; [done| |done].
  destruct (0 <=? e) eqn:He.
  - apply Z.leb_le in He.
    assert (Hp : 0 < Zpos p * 10 ^ e)
      by (pose proof (Z.pow_pos_nonneg 10 e); lia).
    destruct (Zpos p * 10 ^ e) as [|n|n]; [lia| |lia].
    destruct neg; simpl; apply rounded_gt0 with (1 := binary_round_rounded _ n 0).
  - apply Z.leb_gt in He.
    assert (Hp : 0 < 10 ^ (- e)) by (apply Z.pow_pos_nonneg; lia).
    destruct (SpecFloat.SFdiv_core_binary prec emax (Zpos p) 0 (10 ^ (- e)) 0)
      as [[q e'] l] eqn:Hd.
    apply div_core_spec in Hd as (Hq & He' & Hq'); [|lia|done].
    apply rounded_gt0 with (1 := binary_round_aux_rounded neg q e' l Hq He' Hq').
Qed.

(** An amount that parses to a number above zero parses to a positive
    float in canonical form. *)
Lemma parse_amount_sound s a :
  parse_amount s = Some a -> gt0 a = true -> sound_pos a.
Proof.
  unfold parse_amount, float_of_str.
  destruct (parse_literal _) as [[neg| |neg m e]|]; simpl; try done;
    intros [= <-]; try done.
  - by destruct neg.
  - apply round_decimal_sound.
Qed.

End FloatFacts.

(** *** Totals of positive amounts *)

Lemma fsum_sound l :
  Forall sound_pos l -> sound_nonneg (fsum l).
Proof.
  induction l as [|a l IH] using rev_ind; [done|].
  intros [Hl Ha%Forall_inv]%Forall_app.
  rewrite fsum_snoc. by apply fadd_nonneg_pos; [apply IH|].
Qed.

Lemma fsum_snoc_le l a :
  Forall sound_pos l -> sound_pos a -> fle (fsum l) (fsum (l ++ [a])) = true.
Proof.
  intros Hl Ha. rewrite fsum_snoc.
  by apply fadd_nonneg_pos; [apply fsum_sound|].
Qed.

Lemma omap_sound {A} (f : A -> option float) (l : list A) :
  Forall (fun x => forall a, f x = Some a -> sound_pos a) l ->
  Forall sound_pos (omap f l).
Proof.
  induction 1 as [|x l Hx _ IH]; [constructor|]. simpl.
  destruct (f x) as [a|] eqn:E; [|done]. constructor; auto.
Qed.

Lemma positive_amounts_sound rows :
  Forall positive_amount rows ->
  Forall (fun row => forall a, parse_amount (amount row) = Some a ->
                               sound_pos a) rows.
Proof.
  intros H. eapply Forall_impl; [exact H|].
  intros row (a & Ha & Hpos) a' Ha'.
  rewrite Ha in Ha'. injection Ha' as <-. by eapply parse_amount_sound.
Qed.

Lemma filter_ai_transactions_positive rows :
  Forall positive_amount (Workflow.filter_ai_transactions rows).
Proof.
  apply Forall_forall. intros row Hrow.
  by apply filter_ai_transactions_elem in Hrow as (_ & _ & ?).
Qed.

Lemma total_of_bucket_of d label l :
  d !! label = bucket_of l -> total_of label d = fsum l.
Proof. unfold total_of. intros ->. by destruct l. Qed.

(** Adding a row with a positive amount lowers no total. *)
Lemma generate_summary_grows rows row label :
  Forall positive_amount (rows ++ [row]) ->
  exists d tot d' tot',
    Workflow.generate_summary rows = Some (d, tot) /\
    Workflow.generate_summary (rows ++ [row]) = Some (d', tot') /\
    fle (total_of label d) (total_of label d') = true /\
    fle tot tot' = true.
Proof.
  intros Hall.
  pose proof Hall as [Hrows [a [Ha Hpos]]%Forall_inv]%Forall_app.
  assert (Hp : forall l, Forall positive_amount l ->
            Forall (fun r => is_Some (parse_amount (amount r))) l).
  { intros l Hl. eapply Forall_impl; [exact Hl|].
    intros r (x & Hx & _). eauto. }
  destruct (generate_summary_total rows (Hp _ Hrows)) as (d & tot & E).
  destruct (generate_summary_total _ (Hp _ Hall)) as (d' & tot' & E').
  exists d, tot, d', tot'. split; [done|]. split; [done|].
  destruct (generate_summary_spec _ _ _ E) as (Hd & -> & _).
  destruct (generate_summary_spec _ _ _ E') as (Hd' & -> & _).
  rewrite (total_of_bucket_of _ _ _ (Hd label)).
  rewrite (total_of_bucket_of _ _ _ (Hd' label)).
  assert (Hsa : sound_pos a) by (by eapply parse_amount_sound).
  split.
  - unfold workflow_amounts. rewrite filter_app, omap_app.
    set (L := omap _ (filter _ rows)).
    assert (HL : Forall sound_pos L).
    { apply omap_sound, Forall_filter_keep.
      by apply positive_amounts_sound. }
    destruct (decide (Workflow.classify (description row) = label)) as [El|El].
    + rewrite filter_cons_True by done. simpl. rewrite Ha. simpl.
      by apply fsum_snoc_le.
    + rewrite filter_cons_False by done. simpl. rewrite app_nil_r.
      by apply fle_refl, fsum_sound.
  - unfold all_amounts. rewrite omap_app. simpl. rewrite Ha. simpl.
    apply fsum_snoc_le; [|done].
    by apply omap_sound, positive_amounts_sound.
Qed.

(** C6, as amended.  After every record is added, for every label, the
    count of its bucket is the number of records attributed to the label and
    its total is the float sum, in the order of the records, of their parsed
    amounts (in [ai_workflow_brain.py] a record whose amount does not parse is
    attributed to no bucket), and there is no bucket for a label without
    records.  The count never decreases as records are added.  The total
    never decreases as long as the amounts added are positive, as they are
    in [ai_workflow.py], where the summary is made of the rows that the
    filter kept; it can decrease in [ai_workflow_brain.py], which filters no
    sign: a negative amount lowers the total of its bucket. *)
Theorem aggregator_bucket_invariant (label : str) :
  (forall rows d tot,
      Workflow.generate_summary rows = Some (d, tot) ->
      d !! label = bucket_of (workflow_amounts label rows) /\
      length (workflow_amounts label rows)
      = length (filter (fun row => Workflow.classify (description row) = label)
                       rows)) /\
  (forall ts,
      (Brain.save_and_summarize ts).1 !! label
      = bucket_of (brain_amounts label ts)) /\
  (forall d tot row d' tot',
      Workflow.summary_step (d, tot) row = Some (d', tot') ->
      count_of label d <= count_of label d') /\
  (forall d tot t,
      count_of label d <= count_of label (Brain.summary_step (d, tot) t).1) /\
  (forall rows pre row post,
      Workflow.filter_ai_transactions rows = pre ++ row :: post ->
      exists d tot d' tot',
        Workflow.generate_summary pre = Some (d, tot) /\
        Workflow.generate_summary (pre ++ [row]) = Some (d', tot') /\
        fle (total_of label d) (total_of label d') = true /\
        fle tot tot' = true).
Proof.
  split; [|split; [|split; [|split]]].
  - intros rows d tot H.
    destruct (generate_summary_spec rows d tot H) as (Hd & _ & Hall).
    split; [apply Hd|]. unfold workflow_amounts.
    apply length_omap_all. by apply Forall_filter_keep.
  - intros ts. apply save_and_summarize_spec.
  - intros d tot row d' tot'. simpl.
    destruct (parse_amount (amount row)) as [a|]; [|done].
    intros [= <- _]. apply add_to_bucket_count.
  - intros d tot t. simpl.
    destruct (parse_amount (amount (Brain.txn t))) as [a|]; simpl; [|done].
    apply add_to_bucket_count.
  - intros rows pre row post E. apply generate_summary_grows.
    pose proof (filter_ai_transactions_positive rows) as H.
    rewrite E in H. apply Forall_app in H as [Hpre Hrow].
    apply Forall_app. split; [done|].
    apply Forall_cons in Hrow as [Hrow _]. by apply Forall_singleton.
Qed.

Lemma aggregator_bucket_invariant_witness :
  exists d tot,
    Workflow.generate_summary
      [mk_txn "19/05/25" "20/05/25" "ANTHROPIC ANTHROPIC.COMUS USD 5.35"
              "182.70"] = Some (d, tot) /\
    d !! py "Anthropic AI"
    = Some {| count := 1;
              total := S754_finite false 6428184780629606 (-45) |}.
Proof.
  destruct (generate_summary_total
    [mk_txn "19/05/25" "20/05/25" "ANTHROPIC ANTHROPIC.COMUS USD 5.35"
            "182.70"]) as (d & tot & E).
  { repeat constructor. vm_compute. eauto. }
  exists d, tot. split; [exact E|].
  destruct (proj1 (aggregator_bucket_invariant (py "Anthropic AI"))
              _ d tot E) as [Hd _].
  rewrite Hd. vm_compute. reflexivity.
Defined.

(** C6, the claim as stated fails: in [ai_workflow_brain.py] a refund lowers
    the total of its bucket, from 10.0 to 5.0 here. *)
Lemma brain_total_decreases :
  (total <$> (Brain.save_and_summarize
      [mk_ai "19/05/25" "20/05/25" "ANTHROPIC" "10.00" "Anthropic AI"]).1
      !! py "Anthropic AI")
  = Some (S754_finite false 5629499534213120 (-49)) /\
  (total <$> (Brain.save_and_summarize
      [mk_ai "19/05/25" "20/05/25" "ANTHROPIC" "10.00" "Anthropic AI";
       mk_ai "21/05/25" "22/05/25" "ANTHROPIC REFUND" "-5.00" "Anthropic AI"]).1
      !! py "Anthropic AI")
  = Some (S754_finite false 5629499534213120 (-50)) /\
  fle (S754_finite false 5629499534213120 (-49))
      (S754_finite false 5629499534213120 (-50)) = false.
Proof. vm_compute. repeat split. Qed.

(** C7, as amended.  The aggregator accumulates in binary floating point:
    each amount is read as the nearest binary64 number, and the grand total
    and the total of each bucket are the float sums of these numbers, added
    one by one in the order of the records; nothing is rounded to two decimal
    places before the totals are printed. *)
Theorem aggregator_totals_are_float_sums (label : str) :
  (forall rows d tot,
      Workflow.generate_summary rows = Some (d, tot) ->
      tot = fsum (all_amounts rows) /\
      forall b, d !! label = Some b ->
                total b = fsum (workflow_amounts label rows)) /\
  (forall ts,
      (Brain.save_and_summarize ts).2 = fsum (brain_all_amounts ts) /\
      forall b, (Brain.save_and_summarize ts).1 !! label = Some b ->
                total b = fsum (brain_amounts label ts)).
Proof.
  assert (Hb : forall l b, bucket_of l = Some b -> total b = fsum l).
  { intros [|a l] b; [done|]. by intros [= <-]. }
  split.
  - intros rows d tot H.
    destruct (generate_summary_spec rows d tot H) as (Hd & Htot & _).
    split; [done|]. intros b. rewrite Hd. apply Hb.
  - intros ts. destruct (save_and_summarize_spec ts) as [Hd Htot].
    split; [done|]. intros b. rewrite Hd. apply Hb.
Qed.

Lemma aggregator_totals_are_float_sums_witness :
  exists d tot,
    Workflow.generate_summary
      [mk_txn "01/09/25" "02/09/25" "OPENROUTER" "0.10";
       mk_txn "03/09/25" "04/09/25" "OPENROUTER" "0.20"] = Some (d, tot) /\
    tot = fadd (fadd fzero (S754_finite false 7205759403792794 (-56)))
               (S754_finite false 7205759403792794 (-55)).
Proof.
  destruct (generate_summary_total
    [mk_txn "01/09/25" "02/09/25" "OPENROUTER" "0.10";
     mk_txn "03/09/25" "04/09/25" "OPENROUTER" "0.20"]) as (d & tot & E).
  { repeat constructor; vm_compute; eauto. }
  exists d, tot. split; [exact E|].
  destruct (proj1 (aggregator_totals_are_float_sums (py "OpenRouter AI"))
              _ d tot E) as [Htot _].
  rewrite Htot. vm_compute. reflexivity.
Defined.

(** C7, the claim as stated fails: the amounts 0.10 and 0.20, whose exact sum
    is 3/10, accumulate to the float 5404319552844596 * 2^-54, which is
    greater than 3/10. *)
Lemma float_total_is_not_exact :
  (total <$> (Workflow.generate_summary
      [mk_txn "01/09/25" "02/09/25" "OPENROUTER" "0.10";
       mk_txn "03/09/25" "04/09/25" "OPENROUTER" "0.20"]
      ≫= fun st => st.1 !! py "OpenRouter AI"))
  = Some (S754_finite false 5404319552844596 (-54)) /\
  exact_amount (py "0.10") = Some (10 # 100)%Q /\
  exact_amount (py "0.20") = Some (20 # 100)%Q /\
  Q_of_float (S754_finite false 5404319552844596 (-54))
    = Some (5404319552844596 # 18014398509481984)%Q /\
  Qcompare (5404319552844596 # 18014398509481984)
           (Qplus (10 # 100) (20 # 100)) = Gt.
Proof. vm_compute. repeat split. Qed.
(** ** Substrings *)

Lemma startswith_spec p s : startswith p s = true <-> exists r, s = p ++ r.
Proof.
  revert s. induction p as [|a p IH]; intros s; simpl.
  - split; [by exists s | done].
  - destruct s as [|b s]; [split; [done | by intros (r & ?)]|].
    destruct (ascii_dec a b) as [->|Hne].
    + rewrite IH. split; intros (r & E); exists r; [by rewrite E|].
      by injection E.
    + split; [done|]. intros (r & E). by injection E as -> _.
Qed.

Lemma contains_spec needle s :
  contains needle s = true <-> exists pre post, s = pre ++ needle ++ post.
Proof.
  induction s as [|c s IH]; simpl.
  - rewrite orb_false_r, startswith_spec. split.
    + intros (r & E). by exists [], r.
    + intros (pre & post & E). destruct pre; [by exists post|done].
  - rewrite orb_true_iff, startswith_spec, IH. split.
    + intros [(r & E)|(pre & post & E)].
      * by exists [], r.
      * exists (c :: pre), post. by rewrite E.
    + intros (pre & post & E). destruct pre as [|x pre].
      * left. by exists post.
      * right. injection E as -> E. by exists pre, post.
Qed.

Lemma contains_infix needle a s b :
  contains needle s = true -> contains needle (a ++ s ++ b) = true.
Proof.
  rewrite !contains_spec. intros (pre & post & ->).
  exists (a ++ pre), (post ++ b). by rewrite <- !app_assoc.
Qed.

Lemma startswith_contains p s : startswith p s = true -> contains p s = true.
Proof.
  rewrite startswith_spec, contains_spec. intros (r & ->). by exists [], r.
Qed.


Lemma lstrip_by_suffix p s : exists ws, s = ws ++ lstrip_by p s.
Proof.
  induction s as [|c s [ws IH]]; [by exists []|]. simpl.
  destruct (p c); [exists (c :: ws); simpl; by f_equal | by exists []].
Qed.

Lemma strip_infix s : exists a b, s = a ++ strip s ++ b.
Proof.
  destruct (lstrip_by_suffix isspace s) as [a Ha].
  destruct (rstrip_by_prefix isspace (lstrip_by isspace s)) as [b Hb].
  exists a, b. unfold strip, strip_by. by rewrite <- Hb.
Qed.

Lemma contains_strip needle s :
  contains needle (strip s) = true -> contains needle s = true.
Proof.
  intros H. destruct (strip_infix s) as (a & b & E). rewrite E.
  by apply contains_infix.
Qed.

Lemma contains_strip_false needle s :
  contains needle s = false -> contains needle (strip s) = false.
Proof.
  intros H. destruct (contains needle (strip s)) eqn:E; [|done].
  apply contains_strip in E. congruence.
Qed.

(** ** The two pipe parsers read a line alike *)

(** The test that decides whether a line gives a record. *)
Lemma batch_parse_line_cases sid pg acc line :
  Batch.parse_line sid pg acc line =
  if (4 <=? length (split "|" line))
     && match_date (strip (nth 0 (split "|" line) []))
  then acc ++ [record_of_segments sid pg (split "|" line)] else acc.
Proof.
  destruct (andb _ _) eqn:E.
  - apply andb_true_iff in E as [E1 E2]. apply Nat.leb_le in E1.
    apply batch_parse_line_accepted; [done | by apply match_date_prefix].
  - unfold Batch.parse_line.
    rewrite (length_split_strip "|" line pipe_not_space).
    rewrite !(nth_split_strip "|" line _ pipe_not_space).
    apply andb_false_iff in E as [E|E]; rewrite E;
      repeat match goal with
      | |- context [if ?b then _ else _] => destruct b
      end; done.
Qed.

Lemma workflow_parse_line_cases sid pg acc line :
  Workflow.parse_line sid pg acc line =
  if (4 <=? length (split "|" line))
     && match_date (strip (nth 0 (split "|" line) []))
  then acc ++ [record_of_segments sid pg (split "|" line)] else acc.
Proof.
  destruct (andb _ _) eqn:E.
  - apply andb_true_iff in E as [E1 E2]. apply Nat.leb_le in E1.
    apply workflow_parse_line_accepted; [done | by apply match_date_prefix].
  - unfold Workflow.parse_line.
    destruct (contains (py "|") (strip line) && match_date (strip line))
      eqn:G; [|done].
    apply andb_true_iff in G as [_ G].
    apply match_date_first_segment in G.
    rewrite (nth_split_strip "|" line _ pipe_not_space) in G.
    rewrite (length_split_strip "|" line pipe_not_space).
    rewrite G, andb_true_r in E. by rewrite E.
Qed.


(** ** The loop of extract_transactions_opencode.py *)

Lemma opencode_parse_line_cases name acc line :
  Opencode.parse_line name acc line =
  if 4 <=? length (split "|" line)
  then acc ++ [opencode_record name
                 (record_of_segments [] [] (split "|" line))]
  else acc.
Proof.
  unfold Opencode.parse_line.
  destruct (contains (py "|") line) eqn:E; [done|].
  by rewrite (contains_sep_split "|" line E).
Qed.

(** X2.  The loop of [main] in [extract_transactions_opencode.py] keeps
    every line of four or more segments, whatever its first field is: it
    checks no date.  So it keeps every line that [parse_transactions] of
    [batch_extract_all.py] keeps, with the same four fields, and header
    lines besides. *)
Theorem opencode_loop_checks_no_date (name : str) :
  (forall acc line,
      4 <= length (split "|" line) ->
      Opencode.parse_line name acc line =
      acc ++ [opencode_record name
                (record_of_segments [] [] (split "|" line))]) /\
  (forall acc line,
      length (split "|" line) < 4 -> Opencode.parse_line name acc line = acc)
  /\
  (forall sid pg line t,
      t ∈ Batch.parse_line sid pg [] line ->
      Opencode.parse_line name [] line = [opencode_record name t]).
Proof.
  split; [|split].
  - intros acc line H. rewrite opencode_parse_line_cases.
    by destruct (Nat.leb_spec 4 (length (split "|" line))); [|lia].
  - intros acc line H. rewrite opencode_parse_line_cases.
    by destruct (Nat.leb_spec 4 (length (split "|" line))); [lia|].
  - intros sid pg line t. rewrite batch_parse_line_cases.
    rewrite opencode_parse_line_cases.
    destruct (4 <=? length (split "|" line)); [|by intros ?%elem_of_nil].
    destruct (match_date _); [|by intros ?%elem_of_nil]. simpl.
    by intros ->%list_elem_of_singleton.
Qed.

Lemma opencode_loop_checks_no_date_witness :
  let header := py "DATE|POSTING_DATE|DESCRIPTION|AMOUNT" in
  Opencode.parse_line (py "2025-01-25") [] header =
  [{| Opencode.statement := py "2025-01-25";
      Opencode.transaction_date := py "DATE";
      Opencode.posting_date := py "POSTING_DATE";
      Opencode.description := py "DESCRIPTION";
      Opencode.amount := py "AMOUNT" |}]
  /\ Batch.parse_line (py "2025-01-25") (py "1") [] header = [].
Proof.
  split; [|by vm_compute].
  apply (proj1 (opencode_loop_checks_no_date (py "2025-01-25")) []).
  vm_compute. lia.
Defined.

(** ** The parser of ai_workflow_brain.py *)

Lemma first_segment_lstripped line :
  lstrip (nth 0 (split "|" (strip line)) []) =
  nth 0 (split "|" (strip line)) [].
Proof.
  destruct (strip line) as [|c l] eqn:E; [done|].
  pose proof (strip_by_head isspace line c l E) as Hc.
  destruct (ascii_dec c "|") as [->|Hne].
  - by rewrite split_cons_sep.
  - rewrite split_cons_other by done. unfold lstrip. simpl. by rewrite Hc.
Qed.

Lemma match_date_lstripped y :
  lstrip y = y -> match_date (strip y) = match_date y.
Proof.
  intros Hy. apply eq_true_iff_eq. rewrite !match_date_prefix. split.
  - intros (tok & r & E & Htok).
    destruct (rstrip_by_prefix isspace (lstrip_by isspace y)) as [ws Hws].
    change (rstrip_by isspace (lstrip_by isspace y)) with (strip y) in Hws.
    change (lstrip_by isspace y) with (lstrip y) in Hws.
    rewrite Hy, E in Hws. exists tok, (r ++ ws). by rewrite app_assoc.
  - apply date_prefix_strip.
Qed.

Lemma brain_parse_line_cases sid pg acc line :
  BrainExtract.parse_line sid pg acc line =
  if (5 <=? length (split "|" line))
     && match_date (strip (nth 0 (split "|" line) []))
  then acc ++ [{| Brain.txn := record_of_segments sid pg (split "|" line);
                  Brain.service := strip (nth 4 (split "|" line) []) |}]
  else acc.
Proof.
  unfold BrainExtract.parse_line.
  rewrite <- (match_date_lstripped _ (first_segment_lstripped line)).
  rewrite (length_split_strip "|" line pipe_not_space).
  rewrite !(nth_split_strip "|" line _ pipe_not_space).
  destruct (contains (py "|") (strip line)) eqn:E; [done|].
  apply (contains_sep_split "|") in E.
  pose proof (length_split_strip "|" line pipe_not_space) as Hl.
  rewrite E in Hl. simpl in Hl. rewrite <- Hl. done.
Qed.

Lemma brain_parse_line_acc sid pg acc line :
  BrainExtract.parse_line sid pg acc line =
  acc ++ BrainExtract.parse_line sid pg [] line.
Proof.
  rewrite !brain_parse_line_cases. destruct (andb _ _); [done|].
  by rewrite app_nil_r.
Qed.

(** X3.  [extract_and_identify_ai_transactions] keeps a line when it has
    five or more segments and its first one starts with a date token; the
    record it builds holds the transaction that the parsers of
    [ai_workflow.py] and [batch_extract_all.py] read from the same line, and
    the stripped fifth segment as the service.  A line of four segments
    gives no record. *)
Theorem brain_parser_extends_pipe_parsers (sid pg : str) :
  (forall line t,
      t ∈ BrainExtract.parse_line sid pg [] line ->
      Workflow.parse_line sid pg [] line = [Brain.txn t] /\
      Batch.parse_line sid pg [] line = [Brain.txn t] /\
      Brain.service t = strip (nth 4 (split "|" line) []) /\
      match_date (transaction_date (Brain.txn t)) = true) /\
  (forall acc line,
      length (split "|" line) < 5 ->
      BrainExtract.parse_line sid pg acc line = acc) /\
  (forall stdout t,
      t ∈ BrainExtract.extract_and_identify_ai_transactions stdout sid pg ->
      match_date (transaction_date (Brain.txn t)) = true).
Proof.
  assert (H1 : forall line t,
      t ∈ BrainExtract.parse_line sid pg [] line ->
      Workflow.parse_line sid pg [] line = [Brain.txn t] /\
      Batch.parse_line sid pg [] line = [Brain.txn t] /\
      Brain.service t = strip (nth 4 (split "|" line) []) /\
      match_date (transaction_date (Brain.txn t)) = true).
  { intros line t. rewrite brain_parse_line_cases.
    rewrite workflow_parse_line_cases, batch_parse_line_cases.
    destruct (Nat.leb_spec 5 (length (split "|" line))) as [H5|H5];
      [|by intros ?%elem_of_nil].
    destruct (match_date _) eqn:Hd; [|by intros ?%elem_of_nil].
    destruct (Nat.leb_spec 4 (length (split "|" line))); [|lia]. simpl.
    by intros ->%list_elem_of_singleton. }
  split; [done|]. split.
  - intros acc line H. rewrite brain_parse_line_cases.
    by destruct (Nat.leb_spec 5 (length (split "|" line))); [lia|].
  - intros stdout t.
    unfold BrainExtract.extract_and_identify_ai_transactions.
    destruct (andb _ _); [|by intros ?%elem_of_nil].
    rewrite (fold_left_acc _ _ (brain_parse_line_acc sid pg)). simpl.
    intros (line & _ & Ht)%list_elem_of_In%in_flat_map.
    apply list_elem_of_In in Ht. by apply H1 in Ht as (_ & _ & _ & ?).
Qed.

Lemma brain_parser_extends_pipe_parsers_witness :
  let line :=
    py "19/05/25|20/05/25|ANTHROPIC ANTHROPIC.COMUS USD 5.35|182.70" in
  BrainExtract.parse_line (py "s") (py "1") [] line = [] /\
  length (Workflow.parse_line (py "s") (py "1") [] line) = 1.
Proof.
  split; [|by vm_compute].
  apply (proj1 (proj2 (brain_parser_extends_pipe_parsers (py "s") (py "1")))).
  vm_compute. lia.
Defined.
(** ** Reading a subject with greedy repetitions *)

Lemma rep_greedy_munch {R} (cl : ascii -> bool) lo hi
    (k : str -> nat -> option R) w : forall n s pos r,
  Forall (fun c => cl c = true) w ->
  lo <= n + length w -> Re.upto hi (n + length w) ->
  hi = Some (n + length w) \/
    match s with c :: _ => cl c = false | [] => True end ->
  k s (pos + length w) = Some r ->
  Re.rep_greedy cl lo hi k n (w ++ s) pos = Some r.
Proof.
  induction w as [|a w IH]; intros n s pos r Hw Hlo Hhi Hmax Hk; simpl in *.
  - rewrite Nat.add_0_r in *.
    assert (Hstop : Re.stop lo k n s pos = Some r).
    { unfold Re.stop. by destruct (Nat.leb_spec lo n); [|lia]. }
    destruct s as [|c s]; [done|]. simpl.
    destruct Hmax as [-> | ->]; [|done].
    unfold Re.below at 1. rewrite Nat.ltb_irrefl, andb_false_r. done.
  - apply Forall_cons in Hw as [Ha Hw]. rewrite Ha.
    rewrite (upto_below hi n (length w)) by done. cbn [andb].
    rewrite (IH (S n) s (S pos) r); try done.
    + lia.
    + by replace (S n + length w) with (n + S (length w)) by lia.
    + by replace (S n + length w) with (n + S (length w)) by lia.
    + by replace (S pos + length w) with (pos + S (length w)) by lia.
Qed.

Lemma munch_run re s pos ms :
  munch re s pos ms -> Re.run re false s pos = Some ms.
Proof.
  induction 1
    as [s pos | re s pos ms _ IH
       | cl lo hi re w s pos ms Hw Hlo Hhi Hmax _ IH];
    simpl.
  - done.
  - by rewrite IH.
  - by apply rep_greedy_munch.
Qed.

(** The longest run of a class at the start of a string. *)
Lemma span_class (p : ascii -> bool) s :
  exists w r, s = w ++ r /\ Forall (fun c => p c = true) w /\
    match r with c :: _ => p c = false | [] => True end.
Proof.
  induction s as [|c s (w & r & -> & Hw & Hr)].
  - by exists [], [].
  - destruct (p c) eqn:E.
    + exists (c :: w), r. by repeat split; [constructor|].
    + exists [], (c :: w ++ r). by repeat split.
Qed.

Lemma startswith_cons a p b s :
  startswith (a :: p) (b :: s) = if ascii_dec a b then startswith p s else false.
Proof. done. Qed.

Lemma lang_lit_inv c re w :
  Re.lang (Re.lit c :: re) w -> exists v, w = c :: v /\ Re.lang re v.
Proof.
  intros (w1 & w2 & -> & F & L & U & H)%lang_rep_inv. simpl in L, U.
  destruct w1 as [|x [|y w1]]; simpl in L, U; try lia.
  apply Forall_inv in F. simpl in F.
  destruct (ascii_dec c x) as [->|]; [|done]. by exists w2.
Qed.

Lemma in_class_char_eq x : Re.in_class (Re.CChar x) x = true.
Proof. simpl. by destruct (ascii_dec x x). Qed.

Lemma in_class_char_ne x c : x <> c -> Re.in_class (Re.CChar x) c = false.
Proof. intros H. simpl. by destruct (ascii_dec x c). Qed.

(** ** The clean-up removes every code fence *)

Lemma sub_from_skip re : forall s k,
  sub_from re k s = sub_from re 0 (drop k s).
Proof.
  induction s as [|c s IH]; intros [|k]; try done. simpl. apply IH.
Qed.

Lemma fence_open_match s :
  startswith fence s = true ->
  exists e, Re.match_ fence_open s = Some [S e].
Proof.
  intros (t & ->)%startswith_spec.
  destruct (span_class (Re.in_class word_class) t) as (w & r & -> & Hw & Hr).
  assert (Hnl : Re.in_class word_class nl = false) by (by vm_compute).
  assert (exists v r', r = v ++ r' /\
            Forall (fun c => Re.in_class (Re.CChar nl) c = true) v /\
            length v <= 1 /\
            (Some 1 = Some (length v) \/
             match r' with
             | c :: _ => Re.in_class (Re.CChar nl) c = false
             | [] => True
             end) /\
            match v ++ r' with
            | c :: _ => Re.in_class word_class c = false
            | [] => True
            end) as (v & r' & -> & Hv & Hlen & Hmaxv & Hmaxw).
  { destruct r as [|c r].
    { exists [], []. repeat split; auto. }
    destruct (ascii_dec nl c) as [<-|Hne].
    - exists [nl], r. split; [done|].
      split; [constructor; [apply in_class_char_eq | done]|].
      split; [simpl; lia|]. split; [by left | done].
    - exists [], (c :: r). split; [done|]. split; [done|].
      split; [simpl; lia|]. split; [|done].
      right. by apply in_class_char_ne. }
  exists (2 + length w + length v). unfold Re.match_. apply munch_run.
  change fence_open with
    [Re.lit "`"; Re.lit "`"; Re.lit "`"; Re.star word_class;
     Re.opt (Re.CChar nl)].
  change (fence ++ w ++ v ++ r') with
    (["`"%char] ++ ["`"%char] ++ ["`"%char] ++ w ++ v ++ r').
  assert (Hq : Forall (fun c => Re.in_class (Re.CChar "`") c = true)
                 ["`"%char]).
  { constructor; [apply in_class_char_eq | done]. }
  apply munch_rep; [done | simpl; lia | simpl; lia | by left |].
  apply munch_rep; [done | simpl; lia | simpl; lia | by left |].
  apply munch_rep; [done | simpl; lia | simpl; lia | by left |].
  apply munch_rep; [done | simpl; lia | done | by right |].
  replace [S (2 + length w + length v)] with
    [0 + 1 + 1 + 1 + length w + length v] by (f_equal; simpl; lia).
  apply munch_rep; [done | simpl; lia | done | done |].
  apply munch_nil.
Qed.

Lemma fence_open_no_match s :
  startswith fence s = false -> Re.match_ fence_open s = None.
Proof.
  intros Hs. destruct (Re.match_ fence_open s) as [m|] eqn:E; [|done].
  assert (Hsome : is_Some (Re.match_ fence_open s)) by eauto.
  apply match_some in Hsome as (w & rest & -> & Hw).
  change fence_open with
    (Re.lit "`" :: Re.lit "`" :: Re.lit "`" ::
     [Re.star word_class; Re.opt (Re.CChar nl)]) in Hw.
  apply lang_lit_inv in Hw as (w1 & -> & Hw).
  apply lang_lit_inv in Hw as (w2 & -> & Hw).
  apply lang_lit_inv in Hw as (w3 & -> & Hw).
  assert (startswith fence (("`" :: "`" :: "`" :: w3) ++ rest)%char = true)
    by (apply startswith_spec; by exists (w3 ++ rest)).
  congruence.
Qed.

Lemma sub_open_keep c s :
  startswith fence (c :: s) = false ->
  re_sub_empty fence_open (c :: s) = c :: re_sub_empty fence_open s.
Proof.
  intros H. unfold re_sub_empty. simpl.
  by rewrite (fence_open_no_match _ H).
Qed.

Lemma sub_open_drop c s :
  startswith fence (c :: s) = true ->
  exists e, re_sub_empty fence_open (c :: s)
            = re_sub_empty fence_open (drop e s).
Proof.
  intros H. destruct (fence_open_match _ H) as [e He]. exists e.
  unfold re_sub_empty. simpl. rewrite He. simpl. apply sub_from_skip.
Qed.

Lemma sub_open_head s :
  match s with c :: _ => c <> backquote | [] => True end ->
  match re_sub_empty fence_open s with
  | c :: _ => c <> backquote
  | [] => True
  end.
Proof.
  destruct s as [|c s]; [done|]. intros Hc.
  rewrite sub_open_keep; [done|].
  apply startswith_head_ne. simpl. intros E. by apply Hc.
Qed.

Lemma sub_open_two s :
  startswith (py "``") s = false ->
  startswith (py "``") (re_sub_empty fence_open s) = false.
Proof.
  destruct s as [|c s]; [done|]. intros H.
  destruct (ascii_dec backquote c) as [<-|Hne].
  - assert (Hf : startswith fence (backquote :: s) = false).
    { destruct (startswith fence (backquote :: s)) eqn:E; [|done].
      apply startswith_spec in E as (r & E).
      assert (startswith (py "``") (backquote :: s) = true); [|congruence].
      apply startswith_spec. exists (backquote :: r). by rewrite E. }
    rewrite sub_open_keep by done.
    change (py "``") with [backquote; backquote] in *.
    rewrite startswith_cons in *.
    destruct (ascii_dec backquote backquote); [|done].
    assert (Hs : match s with c :: _ => c <> backquote | [] => True end).
    { destruct s as [|d s]; [done|]. intros ->.
      rewrite startswith_cons in H.
      by destruct (ascii_dec backquote backquote). }
    apply sub_open_head in Hs.
    destruct (re_sub_empty fence_open s) as [|d r]; [done|].
    apply startswith_head_ne. by intros <-.
  - rewrite sub_open_keep.
    + by apply startswith_head_ne.
    + by apply startswith_head_ne.
Qed.

Lemma sub_open_no_fence n : forall s,
  length s <= n -> contains fence (re_sub_empty fence_open s) = false.
Proof.
  induction n as [|n IH]; intros [|c s] Hlen; simpl in Hlen; try done;
    try lia.
  destruct (startswith fence (c :: s)) eqn:E.
  - destruct (sub_open_drop _ _ E) as [e ->]. apply IH.
    rewrite length_drop. lia.
  - rewrite sub_open_keep by done.
    change (contains fence (c :: re_sub_empty fence_open s)) with
      (startswith fence (c :: re_sub_empty fence_open s)
       || contains fence (re_sub_empty fence_open s)).
    rewrite (IH s) by lia. rewrite orb_false_r.
    change fence with (backquote :: py "``") in *.
    rewrite startswith_cons in *.
    destruct (ascii_dec backquote c); [|done]. by apply sub_open_two.
Qed.

Lemma sub_close_id s :
  contains fence s = false -> re_sub_empty fence_close s = s.
Proof.
  unfold re_sub_empty. induction s as [|c s IH]; [done|]. intros H.
  assert (Hs : contains fence s = false).
  { destruct (contains fence s) eqn:E; [|done].
    apply (contains_infix fence [c] s []) in E.
    rewrite app_nil_r in E. change ([c] ++ s) with (c :: s) in E.
    congruence. }
  assert (Hm : Re.match_ fence_close (c :: s) = None).
  { destruct (Re.match_ fence_close (c :: s)) as [m|] eqn:E; [|done].
    assert (Hsome : is_Some (Re.match_ fence_close (c :: s))) by eauto.
    apply match_some in Hsome as (w & rest & Hw & Hl).
    change fence_close with
      (Re.lit nl :: Re.lit "`" :: Re.lit "`" :: Re.lit "`" :: []) in Hl.
    apply lang_lit_inv in Hl as (w0 & -> & Hl).
    apply lang_lit_inv in Hl as (w1 & -> & Hl).
    apply lang_lit_inv in Hl as (w2 & -> & Hl).
    apply lang_lit_inv in Hl as (w3 & -> & Hl).
    assert (contains fence (c :: s) = true); [|congruence].
    apply contains_spec. exists [nl], (w3 ++ rest). by rewrite Hw. }
  simpl. rewrite Hm. by rewrite IH.
Qed.

Lemma split_elem_infix sep s : forall seg,
  seg ∈ split sep s -> exists a b, s = a ++ seg ++ b.
Proof.
  induction s as [|c s IH]; intros seg.
  - intros ->%list_elem_of_singleton. by exists [], [].
  - destruct (ascii_dec c sep) as [->|Hne].
    + rewrite split_cons_sep. intros [->|H]%elem_of_cons.
      * by exists [], (sep :: s).
      * destruct (IH _ H) as (a & b & ->). by exists (sep :: a), b.
    + rewrite split_cons_other by done. intros [->|H]%elem_of_cons.
      * destruct (hd_split_prefix sep s) as [rest E].
        exists [], rest. simpl. by rewrite <- E.
      * assert (Hin : seg ∈ split sep s).
        { rewrite <- hd_tl_split. by apply elem_of_cons; right. }
        destruct (IH _ Hin) as (a & b & ->). by exists (c :: a), b.
Qed.

(** X4.  The clean-up that [extract_transactions_from_image] and
    [extract_and_identify_ai_transactions] apply to the answer of the tool
    leaves no three backquotes in a row: the first substitution removes
    every fence, so the second one changes nothing, and no line of the
    cleaned answer starts with a fence, whatever the answer was. *)
Theorem clean_output_has_no_fence (stdout : str) :
  contains fence (clean_output stdout) = false /\
  re_sub_empty fence_close (re_sub_empty fence_open (strip stdout))
    = re_sub_empty fence_open (strip stdout) /\
  forall line,
    line ∈ split nl (clean_output stdout) ->
    startswith fence (strip line) = false.
Proof.
  assert (H1 : contains fence (re_sub_empty fence_open (strip stdout))
               = false) by (by eapply sub_open_no_fence).
  assert (H2 : contains fence (clean_output stdout) = false).
  { unfold clean_output. rewrite (sub_close_id _ H1).
    by apply contains_strip_false. }
  split; [done|]. split; [by apply sub_close_id|].
  intros line Hline.
  destruct (startswith fence (strip line)) eqn:E; [|done].
  apply startswith_contains, contains_strip in E.
  destruct (split_elem_infix _ _ _ Hline) as (a & b & Hs).
  apply (contains_infix _ a _ b) in E. rewrite <- Hs in E. congruence.
Qed.
(** ** The names of the page images *)

Lemma string_of_uint_digits u :
  Forall (fun c => isdigit c = true) (py (NilEmpty.string_of_uint u)).
Proof. induction u; simpl; by constructor. Qed.

Lemma str_of_nat_digits n : Forall (fun c => isdigit c = true) (str_of_nat n).
Proof. apply string_of_uint_digits. Qed.

Lemma str_of_nat_nonempty n : str_of_nat n <> [].
Proof.
  unfold str_of_nat. destruct (Nat.to_uint n) eqn:E; try done.
  pose proof (DecimalNat.Unsigned.of_to n) as H. rewrite E in H.
  simpl in H. subst n. discriminate.
Qed.

Lemma py_inj a b : py a = py b -> a = b.
Proof.
  intros H. rewrite <- (string_of_list_ascii_of_string a).
  rewrite <- (string_of_list_ascii_of_string b). unfold py in H.
  by rewrite H.
Qed.

Lemma str_of_nat_inj n m : str_of_nat n = str_of_nat m -> n = m.
Proof.
  intros H%py_inj. apply DecimalNat.Unsigned.to_uint_inj.
  pose proof (NilEmpty.usu (Nat.to_uint n)) as Hn.
  pose proof (NilEmpty.usu (Nat.to_uint m)) as Hm.
  rewrite H in Hn. congruence.
Qed.

(** A word of the statement-id pattern: ten characters. *)
Lemma lang_statement_id w :
  Re.lang statement_id_re w ->
  exists a b c d e f g h,
    w = [a; b; c; d; "-"; e; f; "-"; g; h]%char /\
    Forall (fun x => isdigit x = true) [a; b; c; d; e; f; g; h].
Proof.
  intros H. unfold statement_id_re, Re.exactly, Re.lit in H. lang_inv H.
  repeat match goal with
  | H : Forall _ ?l, L : _ <= length ?l, U : length ?l <= _ |- _ =>
      is_var l; destruct l as [|? [|? [|? [|? [|? ?]]]]]; simpl in L, U;
      try lia; clear L U
  end.
  repeat match goal with
  | H : Forall _ (_ :: _) |- _ => apply Forall_cons in H as [? H]
  end. cbv beta in *. cbn [Re.in_class] in *.
  repeat match goal with
  | H : (if ascii_dec ?x ?y then true else false) = true |- _ =>
      destruct (ascii_dec x y); [subst | discriminate]
  end.
  eexists _, _, _, _, _, _, _, _. split; [reflexivity|].
  repeat constructor; done.
Qed.

Lemma lit_word c : Forall (fun x => Re.in_class (Re.CChar c) x = true) [c].
Proof. constructor; [apply in_class_char_eq | done]. Qed.

Ltac digits_word :=
  repeat (apply Forall_cons; split; [assumption|]); by apply Forall_nil.

Ltac munch_lit c :=
  apply (munch_rep _ _ _ _ [c]);
    [apply lit_word | simpl; lia | simpl; lia | by left |].

(** The marks of the pattern of the stems on a name made of a statement
    id, [_page_] and a run of digits. *)
Lemma stem_re_marks name ds rest :
  Re.lang statement_id_re name ->
  Forall (fun c => isdigit c = true) ds -> ds <> [] ->
  match rest with c :: _ => isdigit c = false | [] => True end ->
  munch stem_re (name ++ py "_page_" ++ ds ++ rest) 0
    [0; 10; 16; 16 + length ds; 16 + length ds].
Proof.
  intros (a & b & c & d & e & f & g & h & -> & Hd)%lang_statement_id
    Hds Hne Hrest.
  repeat match goal with
  | H : Forall _ (_ :: _) |- _ => apply Forall_cons in H as [? H]
  end.
  unfold stem_re, Re.exactly, Re.plus.
  apply munch_mark.
  apply (munch_rep _ _ _ _ [a; b; c; d]);
    [digits_word | simpl; lia | simpl; lia | by left |].
  munch_lit "-"%char.
  apply (munch_rep _ _ _ _ [e; f]);
    [digits_word | simpl; lia | simpl; lia | by left |].
  munch_lit "-"%char.
  apply (munch_rep _ _ _ _ [g; h]);
    [digits_word | simpl; lia | simpl; lia | by left |].
  apply munch_mark.
  munch_lit "_"%char. munch_lit "p"%char. munch_lit "a"%char.
  munch_lit "g"%char. munch_lit "e"%char. munch_lit "_"%char.
  apply munch_mark.
  apply munch_rep; [done | | done | by right |].
  { destruct ds; [done | simpl; lia]. }
  apply munch_mark. apply munch_nil.
Qed.

Lemma image_name_re_marks name ds rest :
  Re.lang statement_id_re name ->
  Forall (fun c => isdigit c = true) ds -> ds <> [] ->
  munch BatchMain.image_name_re
    (name ++ py "_page_" ++ ds ++ py ".jpg" ++ rest) 0
    [0; 10; 16; 16 + length ds; 20 + length ds].
Proof.
  intros (a & b & c & d & e & f & g & h & -> & Hd)%lang_statement_id
    Hds Hne.
  repeat match goal with
  | H : Forall _ (_ :: _) |- _ => apply Forall_cons in H as [? H]
  end.
  unfold BatchMain.image_name_re, Re.exactly, Re.plus.
  apply munch_mark.
  apply (munch_rep _ _ _ _ [a; b; c; d]);
    [digits_word | simpl; lia | simpl; lia | by left |].
  munch_lit "-"%char.
  apply (munch_rep _ _ _ _ [e; f]);
    [digits_word | simpl; lia | simpl; lia | by left |].
  munch_lit "-"%char.
  apply (munch_rep _ _ _ _ [g; h]);
    [digits_word | simpl; lia | simpl; lia | by left |].
  apply munch_mark.
  munch_lit "_"%char. munch_lit "p"%char. munch_lit "a"%char.
  munch_lit "g"%char. munch_lit "e"%char. munch_lit "_"%char.
  apply munch_mark.
  apply munch_rep; [done | | done | by right |].
  { destruct ds; [done | simpl; lia]. }
  apply munch_mark.
  munch_lit "."%char. munch_lit "j"%char. munch_lit "p"%char.
  munch_lit "g"%char.
  replace (20 + length ds) with (0 + 4 + 1 + 2 + 1 + 2 + 1 + 1 + 1 + 1 + 1
    + 1 + length ds + 1 + 1 + 1 + 1) by (simpl; lia).
  apply munch_nil.
Qed.

Lemma groups_of_name name ds rest e :
  length name = 10 ->
  let s := name ++ py "_page_" ++ ds ++ rest in
  let m := [0; 10; 16; 16 + length ds; e] in
  Re.group s m 1 = name /\ Re.group s m 2 = ds.
Proof.
  intros Hlen s m. split.
  - change (Re.group s m 1) with (take (10 - 0) (drop 0 s)).
    simpl. rewrite <- Hlen. apply take_app_length.
  - change (Re.group s m 2) with
      (take (16 + length ds - 16) (drop 16 s)).
    replace (16 + length ds - 16) with (length ds) by lia.
    replace (drop 16 s) with (ds ++ rest).
    + apply take_app_length.
    + unfold s. replace 16 with (length name + 6) by lia.
      rewrite <- drop_drop, drop_app_length. done.
Qed.

Lemma statement_id_length name :
  Re.lang statement_id_re name -> length name = 10.
Proof.
  by intros (a & b & c & d & e & f & g & h & -> & _)%lang_statement_id.
Qed.

(** X5.  The name that [convert_pdf_to_jpeg] and [convert_pdfs_to_images]
    give to the image of a page is read back by the loops over the images:
    for a document whose name has the shape of a statement id they recover
    the name as the statement id and the page number as written, from the
    file name in [batch_extract_all.py] and from its stem in
    [ai_workflow.py] and [ai_workflow_brain.py]. *)
Theorem image_name_round_trip (name : str) (page_num : nat) :
  is_Some (Re.fullmatch statement_id_re name) ->
  BatchMain.statement_and_page (Converter.jpeg_filename name page_num)
    = (name, str_of_nat (page_num + 1)) /\
  statement_and_page_of_stem
    (name ++ py "_page_" ++ str_of_nat (page_num + 1))
    = (name, str_of_nat (page_num + 1)).
Proof.
  intros Hname%fullmatch_some.
  pose proof (statement_id_length _ Hname) as Hlen.
  pose proof (str_of_nat_digits (page_num + 1)) as Hds.
  pose proof (str_of_nat_nonempty (page_num + 1)) as Hne.
  set (ds := str_of_nat (page_num + 1)) in *.
  split.
  - unfold BatchMain.statement_and_page, Converter.jpeg_filename.
    fold ds. unfold Re.match_.
    pose proof (image_name_re_marks name ds [] Hname Hds Hne) as Hm.
    rewrite app_nil_r in Hm. rewrite (munch_run _ _ _ _ Hm).
    destruct (groups_of_name name ds (py ".jpg") (20 + length ds) Hlen)
      as [-> ->]. done.
  - unfold statement_and_page_of_stem, Re.match_.
    pose proof (stem_re_marks name ds [] Hname Hds Hne I) as Hm.
    rewrite app_nil_r in Hm. rewrite (munch_run _ _ _ _ Hm).
    pose proof (groups_of_name name ds [] (16 + length ds) Hlen) as Hg.
    rewrite app_nil_r in Hg. by destruct Hg as [-> ->].
Qed.

Lemma image_name_round_trip_witness :
  BatchMain.statement_and_page (py "2511-25-01_page_12.jpg")
    = (py "2511-25-01", py "12") /\
  statement_and_page_of_stem (py "2511-25-01_page_12")
    = (py "2511-25-01", py "12").
Proof.
  apply (image_name_round_trip (py "2511-25-01") 11).
  vm_compute. by eexists.
Defined.

(** A run of digits in front of another character is read in one way. *)
Lemma digit_run_unique w1 : forall w2 c1 c2 r1 r2,
  Forall (fun c => isdigit c = true) w1 ->
  Forall (fun c => isdigit c = true) w2 ->
  isdigit c1 = false -> isdigit c2 = false ->
  w1 ++ c1 :: r1 = w2 ++ c2 :: r2 -> w1 = w2 /\ r1 = r2.
Proof.
  induction w1 as [|a w1 IH]; intros [|b w2] c1 c2 r1 r2 H1 H2 Hc1 Hc2 E;
    simpl in E.
  - by injection E as _ ->.
  - injection E as -> _. apply Forall_inv in H2. congruence.
  - injection E as -> _. apply Forall_inv in H1. congruence.
  - injection E as -> E. apply Forall_cons in H1 as [_ H1].
    apply Forall_cons in H2 as [_ H2].
    destruct (IH _ _ _ _ _ H1 H2 Hc1 Hc2 E) as [-> ->]. done.
Qed.

Lemma jpeg_filename_inj a b n m :
  Converter.jpeg_filename a n = Converter.jpeg_filename b m ->
  a = b /\ n = m.
Proof.
  unfold Converter.jpeg_filename. intros E.
  rewrite !(app_assoc _ _ (py ".jpg")) in E.
  apply app_inv_tail in E. apply (f_equal (@rev ascii)) in E.
  rewrite !rev_app_distr in E.
  change (rev (py "_page_")) with ("_"%char :: py "egap_") in E.
  rewrite <- !app_assoc in E. simpl in E.
  apply digit_run_unique in E as [E1 E2]; try done.
  - apply (f_equal (@rev ascii)) in E1. rewrite !rev_involutive in E1.
    apply str_of_nat_inj in E1.
    injection E2 as E2. apply (f_equal (@rev ascii)) in E2.
    rewrite !rev_involutive in E2. split; [done | lia].
  - apply Forall_rev, str_of_nat_digits.
  - apply Forall_rev, str_of_nat_digits.
Qed.

(** X6.  Two pages are written to the same image name only when they are
    the same page of documents of the same name: the name of the document
    and the page number can be read off the name of the image.  So
    [convert_pdf_to_jpeg] writes as many images as the document has pages,
    under names that are pairwise different, and returns this number. *)
Theorem page_images_have_distinct_names :
  (forall a b n m,
      Converter.jpeg_filename a n = Converter.jpeg_filename b m ->
      a = b /\ n = m) /\
  (forall pdf_name total_pages,
      NoDup (Converter.convert_pdf_to_jpeg pdf_name total_pages).1 /\
      length (Converter.convert_pdf_to_jpeg pdf_name total_pages).1
      = total_pages /\
      (Converter.convert_pdf_to_jpeg pdf_name total_pages).2 = total_pages).
Proof.
  split; [apply jpeg_filename_inj|].
  intros pdf_name total_pages.
  assert (Hnd : forall n start,
    NoDup (map (Converter.jpeg_filename pdf_name) (seq start n))).
  { induction n as [|k IH]; intros start; simpl; [constructor|].
    constructor; [|apply IH].
    intros (j & E & Hj)%list_elem_of_In%in_map_iff.
    apply jpeg_filename_inj in E as [_ ->]. apply in_seq in Hj. lia. }
  unfold Converter.convert_pdf_to_jpeg.
  destruct (Nat.eqb_spec total_pages 0) as [->|Hne]; cbn [fst snd].
  - split; [constructor | done].
  - rewrite length_map, length_seq. split; [apply Hnd | done].
Qed.

Lemma page_images_have_distinct_names_witness :
  (Converter.convert_pdf_to_jpeg (py "2511-25-01") 2).1
  = [py "2511-25-01_page_1.jpg"; py "2511-25-01_page_2.jpg"] /\
  py "2511-25-01" = py "2511-25-01" /\ 0 = 0.
Proof.
  split; [by vm_compute|].
  apply (proj1 page_images_have_distinct_names
           (py "2511-25-01") (py "2511-25-01") 0 0).
  reflexivity.
Defined.
(** ** Image names without a statement id *)

Lemma image_patterns_need_digit s :
  match s with c :: _ => isdigit c = false | [] => True end ->
  Re.match_ BatchMain.image_name_re s = None /\ Re.match_ stem_re s = None.
Proof.
  intros Hs.
  assert (H : forall re,
    is_Some (Re.match_ (Re.Mark :: Re.exactly Re.CDigit 4 :: re) s) -> False).
  { intros re (w & rest & -> & Hw)%match_some.
    apply lang_mark_inv, lang_rep_inv in Hw
      as (w1 & w2 & -> & F & L & _ & _).
    destruct w1 as [|c w1]; simpl in L; [lia|].
    apply Forall_inv in F. simpl in Hs, F. congruence. }
  split.
  - destruct (Re.match_ BatchMain.image_name_re s) eqn:E; [|done].
    destruct (H _ (mk_is_Some _ _ E)).
  - destruct (Re.match_ stem_re s) eqn:E; [|done].
    destruct (H _ (mk_is_Some _ _ E)).
Qed.

Lemma replace_from_skip old new : forall s k,
  replace_from old new k s = replace_from old new 0 (drop k s).
Proof.
  induction s as [|c s IH]; intros [|k]; try done. simpl. apply IH.
Qed.

Lemma replace_from_cons old new c s :
  replace_from old new 0 (c :: s) =
  if startswith old (c :: s)
  then new ++ replace_from old new (length old - 1) s
  else c :: replace_from old new 0 s.
Proof. done. Qed.

(** Removing [old] from a string that holds it at its end only. *)
Lemma replace_tail old x :
  old <> [] ->
  (forall a b, x = a ++ b -> b <> [] -> startswith old (b ++ old) = false) ->
  replace old [] (x ++ old) = x.
Proof.
  intros Hold. unfold replace. induction x as [|c x IH]; intros Hx.
  - destruct old as [|o old]; [done|].
    change ([] ++ o :: old) with (o :: old). rewrite replace_from_cons.
    assert (startswith (o :: old) (o :: old) = true) as ->
      by (apply startswith_spec; exists []; by rewrite app_nil_r).
    rewrite replace_from_skip. simpl. rewrite Nat.sub_0_r, drop_all. done.
  - change ((c :: x) ++ old) with (c :: x ++ old).
    rewrite replace_from_cons.
    pose proof (Hx [] (c :: x) eq_refl ltac:(done)) as Hc.
    change ((c :: x) ++ old) with (c :: x ++ old) in Hc.
    rewrite Hc. f_equal. apply IH.
    intros a b -> Hb. by apply (Hx (c :: a) b).
Qed.

(** X7.  For a document whose name holds no dot and does not start with a
    digit, the loops over the images do not read the page number back: the
    statement id is the whole name of the image without [.jpg], page suffix
    included, and the page is 1 for every page. *)
Theorem image_name_without_statement_id (name : str) (page_num : nat) :
  Forall (fun c => c <> "."%char) name ->
  match name with c :: _ => isdigit c = false | [] => True end ->
  BatchMain.statement_and_page (Converter.jpeg_filename name page_num)
    = (name ++ py "_page_" ++ str_of_nat (page_num + 1), py "1") /\
  statement_and_page_of_stem
    (name ++ py "_page_" ++ str_of_nat (page_num + 1))
    = (name ++ py "_page_" ++ str_of_nat (page_num + 1), py "1").
Proof.
  intros Hdot Hhead.
  assert (Hh : forall r,
    match name ++ py "_page_" ++ r with
    | c :: _ => isdigit c = false
    | [] => True
    end) by (intros r; by destruct name).
  split.
  - unfold BatchMain.statement_and_page, Converter.jpeg_filename.
    rewrite (proj1 (image_patterns_need_digit _ (Hh _))). f_equal.
    rewrite !(app_assoc _ _ (py ".jpg")). apply replace_tail; [done|].
    intros a b E Hb.
    assert (Hall : Forall (fun c => c <> "."%char) (a ++ b)).
    { rewrite <- E, <- ?app_assoc.
      apply Forall_app. split; [done|]. apply Forall_app. split.
      - by repeat constructor.
      - eapply Forall_impl; [apply str_of_nat_digits|].
        by intros c Hc ->. }
    apply Forall_app in Hall as [_ Hall].
    destruct b as [|c b]; [done|]. apply Forall_inv in Hall.
    apply startswith_head_ne. simpl. congruence.
  - unfold statement_and_page_of_stem.
    by rewrite (proj2 (image_patterns_need_digit _ (Hh _))).
Qed.

Lemma image_name_without_statement_id_witness :
  BatchMain.statement_and_page (py "statement_page_2.jpg")
    = (py "statement_page_2", py "1") /\
  statement_and_page_of_stem (py "statement_page_2")
    = (py "statement_page_2", py "1").
Proof.
  apply (image_name_without_statement_id (py "statement") 1).
  - by repeat constructor.
  - reflexivity.
Defined.

(** ** The number of records of a summary *)

Lemma total_count_add service a d :
  total_count (add_to_bucket service a d) = S (total_count d).
Proof.
  unfold total_count, add_to_bucket.
  assert (Hc : forall (m : gmap str bucket) (j1 j2 : str) (z1 z2 : bucket)
                      (y : nat),
    j1 <> j2 -> m !! j1 = Some z1 -> m !! j2 = Some z2 ->
    count z1 + (count z2 + y) = count z2 + (count z1 + y))
    by (intros; lia).
  destruct (d !! service) as [b|] eqn:E; simpl.
  - rewrite <- insert_delete_eq.
    rewrite map_fold_insert_L; [|by apply Hc | by apply lookup_delete_eq].
    rewrite (map_fold_delete_L _ _ service b d); [|by apply Hc | done].
    simpl. lia.
  - rewrite map_fold_insert_L; [|by apply Hc | done]. simpl. lia.
Qed.

Lemma length_omap_le {A B} (f : A -> option B) (l : list A) :
  length (omap f l) <= length l.
Proof.
  induction l as [|x l IH]; [done|].
  change (omap f (x :: l)) with
    (match f x with Some y => y :: omap f l | None => omap f l end).
  destruct (f x); simpl; lia.
Qed.

Lemma generate_summary_count rows : forall d tot,
  Workflow.generate_summary rows = Some (d, tot) ->
  total_count d = length rows.
Proof.
  unfold Workflow.generate_summary.
  induction rows as [|row rows IH] using rev_ind; intros d tot.
  - by intros [= <- <-].
  - rewrite summary_loop_snoc.
    destruct (Workflow.summary_loop (∅, fzero) rows) as [[d0 tot0]|];
      [|done]. simpl.
    destruct (parse_amount (amount row)) as [a|]; [|done].
    intros [= <- <-]. rewrite total_count_add, (IH d0 tot0 eq_refl).
    rewrite length_app. simpl. lia.
Qed.

(** X8.  The number of transactions printed on the TOTAL line, the sum of
    the counts of the buckets, is the number of rows given to
    [generate_summary]; in [save_and_summarize] it is the number of records
    whose amount parses, which can be less than the number of records
    saved. *)
Theorem total_count_is_number_of_records :
  (forall rows d tot,
      Workflow.generate_summary rows = Some (d, tot) ->
      total_count d = length rows) /\
  (forall ts,
      total_count (Brain.save_and_summarize ts).1
      = length (brain_all_amounts ts)) /\
  (forall ts,
      total_count (Brain.save_and_summarize ts).1 <= length ts).
Proof.
  assert (Hb : forall ts,
      total_count (Brain.save_and_summarize ts).1
      = length (brain_all_amounts ts)).
  { unfold Brain.save_and_summarize, brain_all_amounts.
    induction ts as [|t ts IH] using rev_ind; [done|].
    rewrite fold_left_app, omap_app, length_app. simpl.
    destruct (fold_left Brain.summary_step ts (∅, fzero)) as [d0 tot0].
    simpl in *.
    destruct (parse_amount (amount (Brain.txn t))) as [a|]; simpl.
    - rewrite total_count_add, IH. lia.
    - rewrite IH. lia. }
  split; [apply generate_summary_count|]. split; [done|].
  intros ts. rewrite Hb. apply length_omap_le.
Qed.

Lemma total_count_is_number_of_records_witness :
  exists d tot,
    Workflow.generate_summary
      [mk_txn "19/05/25" "20/05/25" "ANTHROPIC" "182.70";
       mk_txn "01/09/25" "02/09/25" "OPENROUTER" "191.91";
       mk_txn "02/09/25" "03/09/25" "ANTHROPIC" "10.00"] = Some (d, tot) /\
    total_count d = 3.
Proof.
  destruct (generate_summary_total
    [mk_txn "19/05/25" "20/05/25" "ANTHROPIC" "182.70";
     mk_txn "01/09/25" "02/09/25" "OPENROUTER" "191.91";
     mk_txn "02/09/25" "03/09/25" "ANTHROPIC" "10.00"]) as (d & tot & E).
  { repeat constructor; vm_compute; by eexists. }
  exists d, tot. split; [done|].
  exact (proj1 total_count_is_number_of_records _ _ _ E).
Defined.

(** X9.  [generate_summary] has no [try] around [float], but on the rows
    that [filter_ai_transactions] returns it never raises: it ends with a
    summary that counts every one of these rows, and neither the grand total
    nor the total of a bucket is negative or a NaN. *)
Theorem summary_of_filtered_rows (rows : list transaction) :
  exists d tot,
    Workflow.generate_summary (Workflow.filter_ai_transactions rows)
    = Some (d, tot) /\
    total_count d = length (Workflow.filter_ai_transactions rows) /\
    sound_nonneg tot /\
    forall label b, d !! label = Some b ->
                    1 <= count b /\ sound_nonneg (total b).
Proof.
  pose proof (filter_ai_transactions_positive rows) as Hpos.
  set (kept := Workflow.filter_ai_transactions rows) in *.
  assert (Hsome : Forall (fun r => is_Some (parse_amount (amount r))) kept).
  { eapply Forall_impl; [exact Hpos|]. intros r (x & Hx & _). eauto. }
  destruct (generate_summary_total kept Hsome) as (d & tot & E).
  exists d, tot. split; [done|].
  split; [by eapply generate_summary_count|].
  destruct (generate_summary_spec _ _ _ E) as (Hd & -> & _).
  split.
  - by apply fsum_sound, omap_sound, positive_amounts_sound.
  - intros label b. rewrite Hd.
    destruct (workflow_amounts label kept) as [|x l] eqn:El; [done|].
    intros [= <-]. simpl. split; [lia|].
    rewrite <- El. apply fsum_sound. unfold workflow_amounts.
    by apply omap_sound, Forall_filter_keep, positive_amounts_sound.
Qed.
(** ** The keywords of the filter and the labels of the summary *)

Lemma search_spec re s :
  Re.search re s = true <->
  exists pre w post, s = pre ++ w ++ post /\ Re.lang re w.
Proof.
  induction s as [|c s IH]; simpl.
  - destruct (Re.match_ re []) as [m|] eqn:E.
    + split; [intros _|done].
      destruct (proj1 (match_some re []) (mk_is_Some _ _ E))
        as (w & rest & Hs & Hw).
      by exists [], w, rest.
    + split; [done|]. intros (pre & w & post & Hs & Hw).
      assert (Hsome : is_Some (Re.match_ re [])).
      { apply match_some. exists w, post. split; [|done].
        by destruct pre. }
      rewrite E in Hsome. by destruct Hsome.
  - destruct (Re.match_ re (c :: s)) as [m|] eqn:E.
    + split; [intros _|done].
      destruct (proj1 (match_some re (c :: s)) (mk_is_Some _ _ E))
        as (w & rest & Hs & Hw).
      by exists [], w, rest.
    + rewrite IH. split.
      * intros (pre & w & post & -> & Hw). by exists (c :: pre), w, post.
      * intros (pre & w & post & Hs & Hw). destruct pre as [|x pre].
        -- assert (Hsome : is_Some (Re.match_ re (c :: s))).
           { apply match_some. by exists w, post. }
           rewrite E in Hsome. by destruct Hsome.
        -- injection Hs as -> ->. by exists pre, w, post.
Qed.

Lemma lang_lits_inv l re w :
  Re.lang (map Re.lit l ++ re) w -> exists v, w = l ++ v /\ Re.lang re v.
Proof.
  revert w. induction l as [|c l IH]; intros w; simpl.
  - by exists w.
  - intros (v & -> & Hv)%lang_lit_inv.
    destruct (IH _ Hv) as (v' & -> & Hv'). by exists v'.
Qed.

(** A keyword without special characters is searched as a substring. *)
Lemma search_lits k s :
  Re.search (Re.lits k) s = true -> contains (py k) s = true.
Proof.
  intros (pre & w & post & -> & Hw)%search_spec.
  unfold Re.lits in Hw. rewrite <- (app_nil_r (map _ _)) in Hw.
  apply lang_lits_inv in Hw as (v & -> & ->%lang_nil_inv).
  apply contains_spec. exists pre, post. by rewrite app_nil_r.
Qed.

(** [A.*B] finds [A] and, after it, [B]. *)
Lemma search_two a b s :
  Re.search (Re.lits a ++ [Re.star Re.CDot] ++ Re.lits b) s = true ->
  contains (py a) s = true /\ contains (py b) s = true.
Proof.
  intros (pre & w & post & -> & Hw)%search_spec.
  unfold Re.lits in Hw.
  apply lang_lits_inv in Hw as (v & -> & Hv).
  apply lang_rep_inv in Hv as (w1 & w2 & -> & _ & _ & _ & Hv).
  rewrite <- (app_nil_r (map _ _)) in Hv.
  apply lang_lits_inv in Hv as (v & -> & ->%lang_nil_inv).
  split; apply contains_spec.
  - exists pre, ((w1 ++ py b ++ []) ++ post). by rewrite <- !app_assoc.
  - exists (pre ++ py a ++ w1), post. by rewrite <- !app_assoc.
Qed.

(** [KIE.AI] as a pattern: any character but a newline between KIE and
    AI. *)
Lemma search_kie_ai s :
  Re.search (Re.lits "KIE" ++ [Re.exactly Re.CDot 1] ++ Re.lits "AI") s
    = true ->
  exists pre c post, s = pre ++ py "KIE" ++ [c] ++ py "AI" ++ post.
Proof.
  intros (pre & w & post & -> & Hw)%search_spec.
  unfold Re.lits in Hw.
  apply lang_lits_inv in Hw as (v & -> & Hv).
  apply lang_rep_inv in Hv as (w1 & w2 & -> & _ & L & U & Hv).
  simpl in L, U. destruct w1 as [|c [|? ?]]; simpl in L, U; try lia.
  rewrite <- (app_nil_r (map _ _)) in Hv.
  apply lang_lits_inv in Hv as (v & -> & ->%lang_nil_inv).
  exists pre, c, post. by rewrite <- !app_assoc.
Qed.

(** X10.  A row that the filter of [ai_workflow.py] keeps is labelled
    [Other AI Service] by [generate_summary] only when the dot of the
    keyword [KIE.AI], read as a pattern, matched another character than a
    dot or a space: the description holds KIE and AI with one such
    character between them.  Every other kept row gets the label of a
    vendor. *)
Theorem other_ai_service_needs_kie (row : transaction) :
  Workflow.is_ai row = true ->
  Workflow.classify (description row) = py "Other AI Service" ->
  exists pre c post,
    upper (description row) = pre ++ py "KIE" ++ [c] ++ py "AI" ++ post /\
    c <> "."%char /\ c <> " "%char.
Proof.
  unfold Workflow.is_ai, Workflow.classify, Workflow.service_of.
  set (u := upper (description row)).
  intros Hai Hother.
  destruct (contains (py "OPENROUTER") u) eqn:E1;
    [by apply py_inj in Hother|].
  destruct (contains (py "ANTHROPIC") u) eqn:E2;
    [by apply py_inj in Hother|].
  destruct (contains (py "RUNPOD") u) eqn:E3;
    [by apply py_inj in Hother|].
  destruct (contains (py "KIE.AI") u) eqn:E4;
    [by apply py_inj in Hother|].
  destruct (contains (py "KIE AI") u) eqn:E5;
    [by apply py_inj in Hother|].
  destruct (contains (py "BUDGIEAI") u) eqn:E6;
    [by apply py_inj in Hother|].
  destruct (contains (py "BUDGIE AI") u) eqn:E7;
    [by apply py_inj in Hother|].
  destruct (contains (py "DIGITALOCEAN") u) eqn:E8;
    [by apply py_inj in Hother|].
  cbn [orb] in Hother.
  destruct (contains (py "STRIPE") u && contains (py "Z.AI") u) eqn:E9;
    [by apply py_inj in Hother|].
  destruct (contains (py "GOOGLE") u && contains (py "CLOUD") u) eqn:E10;
    [by apply py_inj in Hother|].
  clear Hother.
  apply existsb_exists in Hai as (kw & Hin & Hs).
  unfold Workflow.ai_keywords in Hin. cbn [In] in Hin.
  repeat match type of Hin with
  | Re.lits ?k = kw \/ _ =>
      destruct Hin as [<-|Hin]; [apply search_lits in Hs; congruence|]
  end.
  destruct Hin as [<-|Hin].
  { apply search_kie_ai in Hs as (pre & c & post & Hs).
    exists pre, c, post. split; [done|]. split; intros ->.
    - assert (contains (py "KIE.AI") u = true); [|congruence].
      apply contains_spec. by exists pre, post.
    - assert (contains (py "KIE AI") u = true); [|congruence].
      apply contains_spec. by exists pre, post. }
  repeat match type of Hin with
  | Re.lits ?k = kw \/ _ =>
      destruct Hin as [<-|Hin]; [apply search_lits in Hs; congruence|]
  end.
  destruct Hin as [<-|Hin].
  { apply search_two in Hs as [H1 H2]. rewrite H1, H2 in E9. done. }
  destruct Hin as [<-|[]].
  apply search_two in Hs as [H1 H2]. rewrite H1, H2 in E10. done.
Qed.

Lemma other_ai_service_needs_kie_witness :
  exists pre c post,
    upper (py "Kie-Ai studio") = pre ++ py "KIE" ++ [c] ++ py "AI" ++ post /\
    c <> "."%char /\ c <> " "%char.
Proof.
  apply (other_ai_service_needs_kie
           (mk_txn "01/09/25" "02/09/25" "Kie-Ai studio" "10.00"));
    by vm_compute.
Defined.

(** A description with Z.AI in front of STRIPE is labelled by
    [generate_summary], but the filter, whose pattern wants STRIPE first,
    does not keep it. *)
Example filter_wants_stripe_first :
  Workflow.classify (py "Z.AI via STRIPE") = py "Z.AI Service" /\
  Workflow.filter_ai_transactions
    [mk_txn "01/09/25" "02/09/25" "Z.AI via STRIPE" "10.00"] = [].
Proof. by vm_compute. Qed.
(** ** The export for the spreadsheet *)

Lemma key_ltb_spec a b :
  Sheets.key_ltb a b = true <->
  a.1.1 < b.1.1 \/
  (a.1.1 = b.1.1 /\ (a.1.2 < b.1.2 \/ (a.1.2 = b.1.2 /\ a.2 < b.2))).
Proof.
  destruct a as [[y1 m1] d1], b as [[y2 m2] d2]. unfold Sheets.key_ltb.
  simpl. rewrite !orb_true_iff, !andb_true_iff, !orb_true_iff,
    !andb_true_iff, !Nat.ltb_lt, !Nat.eqb_eq. done.
Qed.

Lemma key_ltb_false a b :
  Sheets.key_ltb a b = false <->
  ~ (a.1.1 < b.1.1 \/
     (a.1.1 = b.1.1 /\ (a.1.2 < b.1.2 \/ (a.1.2 = b.1.2 /\ a.2 < b.2)))).
Proof. rewrite <- key_ltb_spec. by destruct (Sheets.key_ltb a b). Qed.

Lemma date_le_trans a b c : date_le a b -> date_le b c -> date_le a c.
Proof. unfold date_le. rewrite !key_ltb_false. lia. Qed.

Lemma key_ltb_asym a b :
  Sheets.key_ltb a b = true -> Sheets.key_ltb b a = false.
Proof. rewrite key_ltb_spec, key_ltb_false. lia. Qed.

Lemma key_ltb_ne a b : Sheets.key_ltb a b = true -> a <> b.
Proof. rewrite key_ltb_spec. intros H ->. lia. Qed.

Lemma insert_sorted_strongly x l :
  StronglySorted date_le l -> StronglySorted date_le (Sheets.insert_sorted x l).
Proof.
  induction 1 as [|y l Hs IH Hy]; simpl.
  - by repeat constructor.
  - destruct (Sheets.key_ltb _ _) eqn:E.
    + constructor; [done|]. rewrite insert_sorted_perm.
      constructor; [|done]. by apply key_ltb_asym.
    + constructor; [by constructor|]. constructor; [done|].
      eapply Forall_impl; [exact Hy|]. intros z Hz.
      by apply date_le_trans with y.
Qed.

Lemma sort_by_date_sorted l : StronglySorted date_le (Sheets.sort_by_date l).
Proof.
  induction l as [|x l IH]; simpl; [constructor|].
  by apply insert_sorted_strongly.
Qed.

(** Inserting a row moves no row of its own date. *)
Lemma insert_sorted_stable x l k :
  filter (fun r => Sheets.sort_key r = k) (Sheets.insert_sorted x l) =
  filter (fun r => Sheets.sort_key r = k) (x :: l).
Proof.
  induction l as [|y l IH]; simpl; [done|].
  destruct (Sheets.key_ltb _ _) eqn:E; [|done].
  apply key_ltb_ne in E.
  rewrite (filter_cons _ y), IH, !(filter_cons _ x), !(filter_cons _ y).
  destruct (decide (Sheets.sort_key y = k)) as [Hy|Hy]; [|done].
  destruct (decide (Sheets.sort_key x = k)) as [Hx|Hx]; [congruence|done].
Qed.

Lemma sort_by_date_stable l k :
  filter (fun r => Sheets.sort_key r = k) (Sheets.sort_by_date l) =
  filter (fun r => Sheets.sort_key r = k) l.
Proof.
  induction l as [|x l IH]; simpl; [done|].
  rewrite insert_sorted_stable, !filter_cons, IH. done.
Qed.

(** X11.  The rows that [format_for_google_sheets] writes are in the order
    of their dates, no row coming before a row of an earlier date, and the
    sort is stable: the rows of one date keep the order in which they were
    read from the input file. *)
Theorem sheet_rows_sorted_by_date (rows : list transaction)
    (out : list Sheets.sheet_row) :
  Sheets.format_for_google_sheets rows = Some out ->
  exists kept,
    Sheets.format_loop [] rows = Some kept /\
    StronglySorted date_le out /\
    forall k,
      filter (fun r => Sheets.sort_key r = k) out =
      filter (fun r => Sheets.sort_key r = k) kept.
Proof.
  unfold Sheets.format_for_google_sheets.
  destruct (Sheets.format_loop [] rows) as [kept|]; [|done].
  intros [= <-]. exists kept. split; [done|]. split.
  - apply sort_by_date_sorted.
  - apply sort_by_date_stable.
Qed.

Lemma sheet_rows_sorted_by_date_witness :
  exists out,
    Sheets.format_for_google_sheets
      [mk_txn "01/09/25" "02/09/25" "OPENROUTER" "191.91";
       mk_txn "19/05/25" "20/05/25" "ANTHROPIC" "182.70";
       mk_txn "01/09/25" "02/09/25" "RUNPOD" "10.00"] = Some out /\
    map Sheets.row_description out
    = [py "Anthropic AI"; py "OpenRouter AI"; py "RunPod GPU"] /\
    StronglySorted date_le out.
Proof.
  eexists. split; [by vm_compute|]. split; [by vm_compute|].
  match goal with
  | |- StronglySorted date_le ?o =>
      destruct (sheet_rows_sorted_by_date
        [mk_txn "01/09/25" "02/09/25" "OPENROUTER" "191.91";
         mk_txn "19/05/25" "20/05/25" "ANTHROPIC" "182.70";
         mk_txn "01/09/25" "02/09/25" "RUNPOD" "10.00"] o)
        as (kept & _ & Hs & _); [by vm_compute | exact Hs]
  end.
Defined.

(** *** Dates *)

Lemma between_nat lo hi c :
  Sheets.between lo hi c = true ->
  match py lo, py hi with
  | [a], [b] => code a <= code c <= code b
  | _, _ => False
  end.
Proof.
  unfold Sheets.between.
  destruct (py lo) as [|a [|? ?]], (py hi) as [|b [|? ?]]; try done.
  by intros [?%Nat.leb_le ?%Nat.leb_le]%andb_true_iff.
Qed.

Lemma is_char_eq x c : is_char x c = true -> x = c.
Proof. unfold is_char. by destruct (ascii_dec x c). Qed.

Lemma isdigit_code c : isdigit c = true -> 48 <= code c <= 57.
Proof.
  unfold isdigit. by intros [?%Nat.leb_le ?%Nat.leb_le]%andb_true_iff.
Qed.

Ltac code_bounds :=
  repeat match goal with
  | H : _ || _ = true |- _ => apply orb_true_iff in H as [H|H]
  | H : _ && _ = true |- _ =>
      let H' := fresh H in apply andb_true_iff in H as [H H']
  | H : is_char _ _ = true |- _ => apply is_char_eq in H; subst
  | H : isdigit _ = true |- _ => apply isdigit_code in H
  | H : Sheets.between "0" "1" ?c = true |- _ =>
      apply between_nat in H; change (48 <= code c <= 49) in H
  | H : Sheets.between "1" "2" ?c = true |- _ =>
      apply between_nat in H; change (49 <= code c <= 50) in H
  | H : Sheets.between "0" "2" ?c = true |- _ =>
      apply between_nat in H; change (48 <= code c <= 50) in H
  | H : Sheets.between "1" "9" ?c = true |- _ =>
      apply between_nat in H; change (49 <= code c <= 57) in H
  end.

Lemma parse_day_range s n : Sheets.parse_day s = Some n -> 1 <= n <= 31.
Proof.
  unfold Sheets.parse_day, Sheets.digit_nat.
  destruct s as [|a [|b [|? ?]]]; try done.
  - destruct (Sheets.between "1" "9" a) eqn:E; [|done].
    intros [= <-]. code_bounds. lia.
  - destruct (_ || _) eqn:E.
    + intros [= <-].
      code_bounds; try change (code "3") with 51; try change (code "0") with 48;
        lia.
    + destruct (is_char a " " && Sheets.between "1" "9" b) eqn:E'; [|done].
      intros [= <-]. code_bounds. lia.
Qed.

Lemma parse_month_range s n : Sheets.parse_month s = Some n -> 1 <= n <= 12.
Proof.
  unfold Sheets.parse_month, Sheets.digit_nat.
  destruct s as [|a [|b [|? ?]]]; try done.
  - destruct (Sheets.between "1" "9" a) eqn:E; [|done].
    intros [= <-]. code_bounds. lia.
  - destruct (_ || _) eqn:E; [|done]. intros [= <-].
    code_bounds; try change (code "1") with 49; try change (code "0") with 48;
      lia.
Qed.

Lemma parse_year_range ys n :
  Sheets.parse_year (py "20" ++ ys) = Some n -> 2000 <= n <= 2099.
Proof.
  unfold Sheets.parse_year, Sheets.digit_nat.
  destruct ys as [|c [|d [|? ?]]]; try done.
  change (py "20" ++ [c; d]) with ["2"%char; "0"%char; c; d].
  cbv beta iota.
  destruct (_ && _) eqn:E; [|done]. intros [= <-].
  apply andb_true_iff in E as [E Hd]. apply andb_true_iff in E as [_ Hc].
  code_bounds. change (code "2") with 50. change (code "0") with 48. lia.
Qed.

Lemma parse_date_range s d :
  Sheets.parse_date s = Some d ->
  2000 <= Sheets.year d <= 2099 /\ 1 <= Sheets.month d <= 12 /\
  1 <= Sheets.day d <= Sheets.days_in_month (Sheets.year d) (Sheets.month d).
Proof.
  unfold Sheets.parse_date, Sheets.strptime.
  destruct (split "/" s) as [|dd [|mm [|ys [|? ?]]]]; try done.
  destruct (Sheets.parse_day dd) as [n1|] eqn:E1; [|done].
  destruct (Sheets.parse_month mm) as [n2|] eqn:E2; [|done].
  destruct (Sheets.parse_year _) as [n3|] eqn:E3; [|done].
  destruct (_ && _) eqn:E; [|done]. intros [= <-]. simpl.
  apply andb_true_iff in E as [_ E%Nat.leb_le].
  apply parse_day_range in E1. apply parse_month_range in E2.
  apply parse_year_range in E3. lia.
Qed.

(** X12.  A date that [parse_date] accepts is a calendar date of the years
    2000 to 2099: its month is between 1 and 12 and its day between 1 and
    the number of days of that month in that year; so [get_month_thai]
    never indexes outside the list of the twelve names.  The string has
    exactly three fields between slashes. *)
Theorem parse_date_is_calendar_date (date_str : str) (d : Sheets.date) :
  Sheets.parse_date date_str = Some d ->
  2000 <= Sheets.year d <= 2099 /\
  1 <= Sheets.month d <= 12 /\
  1 <= Sheets.day d <= Sheets.days_in_month (Sheets.year d) (Sheets.month d)
  /\ Sheets.get_month_thai d ∈ Sheets.months_thai /\
  length (split "/" date_str) = 3.
Proof.
  intros H. destruct (parse_date_range _ _ H) as (Hy & Hm & Hd).
  repeat split; try lia.
  - apply list_elem_of_In. unfold Sheets.get_month_thai.
    apply nth_In. simpl. lia.
  - unfold Sheets.parse_date in H.
    by destruct (split "/" date_str) as [|? [|? [|? [|? ?]]]].
Qed.

Lemma parse_date_is_calendar_date_witness :
  Sheets.get_month_thai
    {| Sheets.year := 2024; Sheets.month := 2; Sheets.day := 29 |}
  ∈ Sheets.months_thai.
Proof.
  apply (parse_date_is_calendar_date (py "29/02/24")). by vm_compute.
Defined.

(** *** The rows of the export *)

Lemma format_loop_rows rows : forall acc kept r,
  Sheets.format_loop acc rows = Some kept -> r ∈ kept ->
  r ∈ acc \/
  exists row a svc d,
    row ∈ rows /\
    parse_amount (amount row) = Some a /\ gt0 a = true /\
    Sheets.classify (description row) = Some svc /\
    Sheets.parse_date (transaction_date row) = Some d /\
    r = {| Sheets.row_date := transaction_date row;
           Sheets.row_month := Sheets.get_month_thai d;
           Sheets.row_description := svc;
           Sheets.row_price := a; Sheets.row_quantity := 1;
           Sheets.row_total := a |}.
Proof.
  induction rows as [|row rows IH]; intros acc kept r; simpl.
  - intros [= <-]. by left.
  - destruct (Sheets.format_step acc row) as [acc'|] eqn:E; [|done].
    intros Hk Hr. destruct (IH _ _ _ Hk Hr) as [Hin|Hin].
    + unfold Sheets.format_step in E.
      destruct (parse_amount (amount row)) as [a|] eqn:Ha; [|done].
      destruct (Sheets.service_name_of _) as [svc|] eqn:Hs;
        [|injection E as <-; by left].
      destruct (gt0 a) eqn:Hg; [|injection E as <-; by left].
      destruct (Sheets.parse_date _) as [d|] eqn:Hd;
        [|injection E as <-; by left].
      injection E as <-. apply elem_of_app in Hin as [Hin|Hin]; [by left|].
      apply list_elem_of_singleton in Hin. right.
      exists row, a, svc, d. repeat split; try done. apply list_elem_of_here.
    + right. destruct Hin as (row' & a & svc & d & Hin & H).
      exists row', a, svc, d. split; [by apply list_elem_of_further | done].
Qed.

(** X13.  Every row that [format_for_google_sheets] writes comes from a
    row of the input whose upper-cased description has a vendor signature,
    whose amount parses to a number above zero and whose transaction date
    is a calendar date: it carries that date, the month name of it, the
    label of the vendor, the amount as price and as total, and the quantity
    1.  The key of the sort is thus never the fallback [datetime.min]. *)
Theorem sheet_rows_come_from_input (rows : list transaction)
    (out : list Sheets.sheet_row) (r : Sheets.sheet_row) :
  Sheets.format_for_google_sheets rows = Some out ->
  r ∈ out ->
  Sheets.row_quantity r = 1 /\
  Sheets.row_total r = Sheets.row_price r /\
  gt0 (Sheets.row_price r) = true /\
  exists row d,
    row ∈ rows /\
    Sheets.row_date r = transaction_date row /\
    Sheets.parse_date (Sheets.row_date r) = Some d /\
    Sheets.row_month r = Sheets.get_month_thai d /\
    Sheets.sort_key r = (Sheets.year d, Sheets.month d, Sheets.day d) /\
    Sheets.classify (description row) = Some (Sheets.row_description r) /\
    parse_amount (amount row) = Some (Sheets.row_price r).
Proof.
  unfold Sheets.format_for_google_sheets.
  destruct (Sheets.format_loop [] rows) as [kept|] eqn:E; [|done].
  intros [= <-] Hr. rewrite sort_by_date_perm in Hr.
  destruct (format_loop_rows _ _ _ _ E Hr)
    as [Hin|(row & a & svc & d & Hin & Ha & Hg & Hs & Hd & ->)].
  { by apply elem_of_nil in Hin. }
  simpl. repeat split; try done.
  exists row, d. unfold Sheets.sort_key. simpl. by rewrite Hd.
Qed.

Lemma sheet_rows_come_from_input_witness :
  exists r,
    Sheets.format_for_google_sheets
      [mk_txn "19/05/25" "20/05/25" "ANTHROPIC ANTHROPIC.COMUS USD 5.35"
              "182.70"] = Some [r] /\
    Sheets.row_quantity r = 1 /\ Sheets.row_month r = py "May".
Proof.
  eexists. split; [by vm_compute|]. split; [|by vm_compute].
  eapply (sheet_rows_come_from_input
    [mk_txn "19/05/25" "20/05/25" "ANTHROPIC ANTHROPIC.COMUS USD 5.35"
            "182.70"]).
  - by vm_compute.
  - apply list_elem_of_here.
Defined.
(** ** The offsets of a match *)

Section RepeatSound.
Context {R : Type}.
Variable cl : ascii -> bool.
Variable lo : nat.
Variable hi : option nat.
Variable k : str -> nat -> option R.
Variable K : str -> nat -> R -> Prop.
Hypothesis k_K : forall s pos r, k s pos = Some r -> K s pos r.

Lemma stop_sound n s pos r :
  Re.stop lo k n s pos = Some r ->
  Re.upto hi n ->
  exists w s', s = w ++ s' /\ Forall (fun c => cl c = true) w /\
    lo <= n + length w /\ Re.upto hi (n + length w) /\
    K s' (pos + length w) r.
Proof.
  unfold Re.stop. destruct (Nat.leb_spec lo n); [|done]. intros Hk Hu.
  exists [], s. simpl. rewrite !Nat.add_0_r. repeat split; auto.
Qed.

Lemma rep_greedy_sound s : forall n pos r,
  Re.rep_greedy cl lo hi k n s pos = Some r ->
  Re.upto hi n ->
  exists w s', s = w ++ s' /\ Forall (fun c => cl c = true) w /\
    lo <= n + length w /\ Re.upto hi (n + length w) /\
    K s' (pos + length w) r.
Proof.
  induction s as [|c s IH]; intros n pos r; simpl.
  - apply stop_sound.
  - destruct (cl c && Re.below hi n) eqn:E; [|apply stop_sound].
    destruct (Re.rep_greedy cl lo hi k (S n) s (S pos)) as [r'|] eqn:E2;
      [|apply stop_sound].
    intros [= <-] Hu. apply andb_true_iff in E as [Hc Hb].
    destruct (IH _ _ _ E2 (below_upto hi n Hb))
      as (w & s' & -> & Hw & Hlo & Hhi & HK).
    exists (c :: w), s'. simpl.
    replace (n + S (length w)) with (S n + length w) by lia.
    replace (pos + S (length w)) with (S pos + length w) by lia.
    repeat split; auto.
Qed.

Lemma rep_lazy_sound s : forall n pos r,
  Re.rep_lazy cl lo hi k n s pos = Some r ->
  Re.upto hi n ->
  exists w s', s = w ++ s' /\ Forall (fun c => cl c = true) w /\
    lo <= n + length w /\ Re.upto hi (n + length w) /\
    K s' (pos + length w) r.
Proof.
  induction s as [|c s IH]; intros n pos r; simpl.
  - destruct (Re.stop lo k n [] pos) as [r'|] eqn:E; [|done].
    intros [= <-]. by apply stop_sound.
  - destruct (Re.stop lo k n (c :: s) pos) as [r'|] eqn:E.
    { intros [= <-]. by apply stop_sound. }
    destruct (cl c && Re.below hi n) eqn:E1; [|done].
    intros E2 Hu. apply andb_true_iff in E1 as [Hc Hb].
    destruct (IH _ _ _ E2 (below_upto hi n Hb))
      as (w & s' & -> & Hw & Hlo & Hhi & HK).
    exists (c :: w), s'. simpl.
    replace (n + S (length w)) with (S n + length w) by lia.
    replace (pos + S (length w)) with (S pos + length w) by lia.
    repeat split; auto.
Qed.
End RepeatSound.

(** A match reads a word of the pattern in front of the subject, and its
    offsets are those of the group marks in this word. *)
Lemma run_marked re anchored : forall s pos ms,
  Re.run re anchored s pos = Some ms ->
  exists w rest, s = w ++ rest /\ marked re w pos ms /\
                 (anchored = true -> rest = []).
Proof.
  induction re as [|[cl lo hi g|] re IH]; intros s pos ms; simpl.
  - destruct anchored.
    + destruct s; [|done]. intros [= <-]. exists [], [].
      repeat split; constructor.
    + intros [= <-]. exists [], s. repeat split; [constructor | done].
  - intros H.
    assert (Hu : Re.upto hi 0) by (destruct hi; simpl; lia).
    assert (exists w s', s = w ++ s' /\
              Forall (fun c => Re.in_class cl c = true) w /\
              lo <= 0 + length w /\ Re.upto hi (0 + length w) /\
              exists w2 rest, s' = w2 ++ rest /\
                marked re w2 (pos + length w) ms /\
                (anchored = true -> rest = []))
      as (w & s' & -> & Hw & Hlo & Hhi & w2 & rest & -> & Hm & Hr).
    { destruct g.
      - by apply (rep_greedy_sound _ _ _ _ _ IH _ _ _ _ H).
      - by apply (rep_lazy_sound _ _ _ _ _ IH _ _ _ _ H). }
    exists (w ++ w2), rest. rewrite <- app_assoc.
    repeat split; [|done]. by constructor.
  - destruct (Re.run re anchored s pos) as [ms'|] eqn:E; [|done].
    intros [= <-]. destruct (IH _ _ _ E) as (w & rest & -> & Hm & Hr).
    exists w, rest. repeat split; [|done]. by constructor.
Qed.

Lemma marked_mark_inv re w pos ms :
  marked (Re.Mark :: re) w pos ms ->
  exists ms', ms = pos :: ms' /\ marked re w pos ms'.
Proof. inversion 1; subst. eauto. Qed.

Lemma marked_rep_inv cl lo hi g re w pos ms :
  marked (Re.Rep cl lo hi g :: re) w pos ms ->
  exists w1 w2, w = w1 ++ w2 /\
    Forall (fun c => Re.in_class cl c = true) w1 /\
    lo <= length w1 /\ Re.upto hi (length w1) /\
    marked re w2 (pos + length w1) ms.
Proof. inversion 1; subst. eauto 10. Qed.

Lemma marked_nil_inv w pos ms : marked [] w pos ms -> w = [] /\ ms = [pos].
Proof. by inversion 1. Qed.

Ltac marked_inv H :=
  repeat match type of H with
  | marked (Re.Mark :: _) _ _ _ =>
      let ms := fresh "ms" in let E := fresh "E" in
      apply marked_mark_inv in H as (ms & E & H); subst
  | marked (Re.Rep _ _ _ _ :: _) _ _ _ =>
      let w1 := fresh "w" in let w2 := fresh "v" in
      let E := fresh "E" in let F := fresh "F" in
      let L := fresh "L" in let U := fresh "U" in
      apply marked_rep_inv in H as (w1 & w2 & E & F & L & U & H);
      simpl in L, U; subst
  | marked [] _ _ _ =>
      let E := fresh "E" in
      apply marked_nil_inv in H as [E H]; subst
  end.

Lemma slice_mid (x y z : str) a b :
  a = length x -> b = a + length y -> Re.slice (x ++ y ++ z) a b = y.
Proof.
  intros -> ->. unfold Re.slice.
  replace (length x + length y - length x) with (length y) by lia.
  by rewrite drop_app_length, take_app_length.
Qed.
(** ** The records of the OCR parser *)

Lemma slice_eq (s x y z : str) a b :
  s = x ++ y ++ z -> a = length x -> b = length x + length y ->
  Re.slice s a b = y.
Proof. intros -> -> ->. by apply slice_mid. Qed.

Ltac slice_parts x y z :=
  apply (slice_eq _ x y z);
    [ rewrite <- ?app_assoc; simpl; reflexivity
    | rewrite ?length_app; simpl; lia
    | rewrite ?length_app; simpl; lia ].

Lemma in_class_char_inv x c : Re.in_class (Re.CChar x) c = true -> x = c.
Proof. simpl. by destruct (ascii_dec x c). Qed.

(** A date of two to four year digits starts with a date token. *)
Lemma date_group_prefix (a s1 b s2 y : str) :
  Forall (fun c => Re.in_class Re.CDigit c = true) a -> length a = 2 ->
  Forall (fun c => Re.in_class (Re.CChar "/") c = true) s1 -> length s1 = 1 ->
  Forall (fun c => Re.in_class Re.CDigit c = true) b -> length b = 2 ->
  Forall (fun c => Re.in_class (Re.CChar "/") c = true) s2 -> length s2 = 1 ->
  Forall (fun c => Re.in_class Re.CDigit c = true) y -> 2 <= length y ->
  Re.prefix_in date_re (a ++ s1 ++ b ++ s2 ++ y).
Proof.
  intros Ha La Hs1 Ls1 Hb Lb Hs2 Ls2 Hy Ly.
  exists (a ++ s1 ++ b ++ s2 ++ take 2 y ++ []), (drop 2 y). split.
  - rewrite app_nil_r, <- !app_assoc. by rewrite take_drop.
  - unfold date_re, Re.exactly, Re.lit.
    apply Re.lang_rep; [done | lia | simpl; lia |].
    apply Re.lang_rep; [done | lia | simpl; lia |].
    apply Re.lang_rep; [done | lia | simpl; lia |].
    apply Re.lang_rep; [done | lia | simpl; lia |].
    apply Re.lang_rep;
      [by apply Forall_take | rewrite length_take; lia
      | simpl; rewrite length_take; lia | constructor].
Qed.

(** What the four groups of a match of the pattern hold. *)
Lemma ocr_match_groups subject m :
  Re.match_ Ocr.pattern subject = Some m ->
  Re.prefix_in date_re (Re.group subject m 1) /\
  Re.prefix_in date_re (Re.group subject m 2) /\
  (Re.group subject m 3 <> [] /\
   Forall (fun c => c <> nl) (Re.group subject m 3)) /\
  exists sign body d1 d2,
    Re.group subject m 4 = sign ++ body ++ ["."%char; d1; d2] /\
    (sign = [] \/ sign = ["-"%char]) /\
    body <> [] /\
    Forall (fun c => isdigit c = true \/ c = ","%char) body /\
    isdigit d1 = true /\ isdigit d2 = true.
Proof.
  intros (w & rest & -> & Hm & _)%run_marked.
  unfold Ocr.pattern, Ocr.date_group, Re.exactly, Re.lit, Re.plus,
    Re.plus_lazy, Re.opt in Hm.
  simpl app in Hm.
  marked_inv Hm.
  match goal with
  | |- context [Re.group ?s ?ms _] => set (subj := s); set (marks := ms)
  end.
  assert (G1 : Re.group subj marks 1 = w0 ++ w ++ w1 ++ w2 ++ w3).
  { change (Re.group subj marks 1) with
      (Re.slice subj (nth 0 marks 0) (nth 1 marks 0)).
    unfold subj. cbn [nth marks].
    slice_parts (@nil ascii) (w0 ++ w ++ w1 ++ w2 ++ w3)
      (w4 ++ w5 ++ w6 ++ w7 ++ w8 ++ w9 ++ w10 ++ w11 ++ w12 ++ w13 ++ w14
       ++ w15 ++ w16 ++ rest). }
  assert (G2 : Re.group subj marks 2 = w5 ++ w6 ++ w7 ++ w8 ++ w9).
  { change (Re.group subj marks 2) with
      (Re.slice subj (nth 2 marks 0) (nth 3 marks 0)).
    unfold subj. cbn [nth marks].
    slice_parts (w0 ++ w ++ w1 ++ w2 ++ w3 ++ w4)
      (w5 ++ w6 ++ w7 ++ w8 ++ w9)
      (w10 ++ w11 ++ w12 ++ w13 ++ w14 ++ w15 ++ w16 ++ rest). }
  assert (G3 : Re.group subj marks 3 = w11).
  { change (Re.group subj marks 3) with
      (Re.slice subj (nth 4 marks 0) (nth 5 marks 0)).
    unfold subj. cbn [nth marks].
    slice_parts (w0 ++ w ++ w1 ++ w2 ++ w3 ++ w4 ++ w5 ++ w6 ++ w7 ++ w8
                 ++ w9 ++ w10)
      w11 (w12 ++ w13 ++ w14 ++ w15 ++ w16 ++ rest). }
  assert (G4 : Re.group subj marks 4 = w13 ++ w14 ++ w15 ++ w16).
  { change (Re.group subj marks 4) with
      (Re.slice subj (nth 6 marks 0) (nth 7 marks 0)).
    unfold subj. cbn [nth marks].
    slice_parts (w0 ++ w ++ w1 ++ w2 ++ w3 ++ w4 ++ w5 ++ w6 ++ w7 ++ w8
                 ++ w9 ++ w10 ++ w11 ++ w12)
      (w13 ++ w14 ++ w15 ++ w16) rest. }
  rewrite G1, G2, G3, G4. clear G1 G2 G3 G4 subj marks.
  split; [apply date_group_prefix; done || lia|].
  split; [apply date_group_prefix; done || lia|].
  split.
  - split; [destruct w11; [simpl in L11; lia | done]|].
    eapply Forall_impl; [exact F11|]. intros c Hc ->. by vm_compute in Hc.
  - destruct w15 as [|p [|? ?]]; simpl in L15, U15; try lia.
    apply Forall_inv, in_class_char_inv in F15. subst p.
    destruct w16 as [|d1 [|d2 [|? ?]]]; simpl in L16, U16; try lia.
    apply Forall_cons in F16 as [Hd1 F16].
    apply Forall_cons in F16 as [Hd2 _].
    exists w13, w14, d1, d2. split; [done|]. split; [|split; [|split]].
    + destruct w13 as [|c [|? ?]]; simpl in U13; try lia; [by left|].
      apply Forall_inv, in_class_char_inv in F13. subst c. by right.
    + destruct w14; [simpl in L14; lia | done].
    + eapply Forall_impl; [exact F14|]. intros c Hc.
      change (Re.in_class Re.CDigit c || Re.in_class (Re.CChar ",") c = true)
        in Hc.
      apply orb_true_iff in Hc as [Hc|Hc]; [by left|].
      apply in_class_char_inv in Hc. by right.
    + done.
Qed.

(** *** Amounts of the shape [-?[\d,]+\.\d{2}] are read by [float] *)

Lemma drop_underscores_none s : forall prev,
  is_char prev "_" = false ->
  Forall (fun c => is_char c "_" = false) s ->
  drop_underscores prev s = Some s.
Proof.
  induction s as [|c s IH]; intros prev Hp Hs; simpl.
  - by rewrite Hp.
  - apply Forall_cons in Hs as [Hc Hs]. rewrite Hc, Hp. simpl.
    by rewrite (IH c Hc Hs).
Qed.

Lemma span_app p w r :
  Forall (fun c => p c = true) w ->
  match r with c :: _ => p c = false | [] => True end ->
  span p (w ++ r) = (w, r).
Proof.
  intros Hw Hr. induction Hw as [|c w Hc _ IH]; simpl.
  - destruct r as [|c r]; [done|]. simpl. by rewrite Hr.
  - by rewrite Hc, IH.
Qed.

Lemma digit_no_underscore c : isdigit c = true -> is_char c "_" = false.
Proof.
  intros H. unfold is_char. destruct (ascii_dec c "_") as [->|]; [|done].
  by vm_compute in H.
Qed.

Lemma digit_no_c_space c : isdigit c = true -> is_c_space c = false.
Proof.
  intros [H1 H2]%isdigit_code. unfold is_c_space.
  destruct (Nat.leb_spec 9 (code c)), (Nat.leb_spec (code c) 13),
    (Nat.eqb_spec (code c) 32); simpl; try done; lia.
Qed.

Lemma digit_no_sign c :
  isdigit c = true -> is_char c "-" = false /\ is_char c "+" = false.
Proof.
  intros H. unfold is_char. split.
  - destruct (ascii_dec c "-") as [->|]; [by vm_compute in H | done].
  - destruct (ascii_dec c "+") as [->|]; [by vm_compute in H | done].
Qed.

(** [float] reads digits, a point and two digits, with or without a minus
    sign in front. *)
Lemma float_of_fixed_point sign ip d1 d2 :
  sign = [] \/ sign = ["-"%char] ->
  Forall (fun c => isdigit c = true) ip ->
  isdigit d1 = true -> isdigit d2 = true ->
  is_Some (float_of_str (sign ++ ip ++ ["."%char; d1; d2])).
Proof.
  intros Hsign Hip Hd1 Hd2.
  set (body := ip ++ ["."%char; d1; d2]).
  assert (Hbody_us : Forall (fun c => is_char c "_" = false) body).
  { apply Forall_app. split.
    - eapply Forall_impl; [exact Hip|]. apply digit_no_underscore.
    - repeat constructor; by auto using digit_no_underscore. }
  assert (Hbody_sp : Forall (fun c => is_c_space c = false) body).
  { apply Forall_app. split.
    - eapply Forall_impl; [exact Hip|]. apply digit_no_c_space.
    - repeat constructor; by auto using digit_no_c_space. }
  assert (Hbody_ne : body <> []) by (unfold body; by destruct ip).
  assert (Hsign' : take_sign (sign ++ body) = (negb (bool_decide (sign = [])),
                                              body)).
  { destruct Hsign as [-> | ->]; [|done]. simpl.
    destruct body as [|c b] eqn:Eb; [done|]. simpl.
    assert (Hc : is_char c "-" = false /\ is_char c "+" = false).
    { unfold body in Eb. destruct ip as [|x ip].
      - injection Eb as <- _. by vm_compute.
      - injection Eb as <- _. apply digit_no_sign. by apply Forall_inv in Hip. }
    destruct Hc as [-> ->]. done. }
  unfold float_of_str, parse_literal.
  rewrite drop_underscores_none; [|done|].
  2:{ apply Forall_app. split; [|done].
      destruct Hsign as [-> | ->]; by repeat constructor. }
  assert (strip_by is_c_space (sign ++ body) = sign ++ body) as ->.
  { rewrite <- (app_nil_r (sign ++ body)) at 1.
    rewrite strip_by_keep_app.
    - by rewrite rstrip_by_nil, app_nil_r.
    - destruct sign; [done | done].
    - apply Forall_app. split; [|done].
      destruct Hsign as [-> | ->]; by repeat constructor. }
  rewrite Hsign'.
  assert (Hdot : In "."%char (map lower_char body)).
  { change "."%char with (lower_char "."). apply in_map.
    unfold body. apply in_or_app. right. by left. }
  assert (Hlow : forall k, ~ In "."%char (py k) ->
            str_eqb (map lower_char body) (py k) = false).
  { intros k Hk. apply bool_decide_eq_false. intros E. by rewrite E in Hdot. }
  rewrite (Hlow "inf"), (Hlow "infinity"), (Hlow "nan");
    try (simpl; intuition discriminate).
  cbn [orb]. unfold parse_number, body.
  rewrite span_app; [|done | by vm_compute].
  change (is_char "." ".") with true. cbv beta iota.
  rewrite <- (app_nil_r [d1; d2]).
  rewrite span_app; [|by repeat constructor | done].
  destruct (ip ++ [d1; d2]) eqn:E; [by destruct ip|]. eauto.
Qed.

Lemma remove_char_app c a b :
  remove_char c (a ++ b) = remove_char c a ++ remove_char c b.
Proof. unfold remove_char. apply filter_app. Qed.

Lemma remove_char_cons c x s :
  remove_char c (x :: s) =
  if ascii_dec x c then remove_char c s else x :: remove_char c s.
Proof.
  unfold remove_char. rewrite filter_cons.
  by destruct (ascii_dec x c).
Qed.

(** X14.  Every record of [parse_transactions] of
    [extract_transactions.py] has a transaction date and a posting date
    that start with a date token, a description without spaces at its ends,
    and an amount that [float] reads once the commas are removed: a minus
    sign or none, digits and commas, a point and two digits. *)
Theorem ocr_records_are_well_formed (text : str) (t : Ocr.transaction) :
  t ∈ Ocr.parse_transactions text ->
  match_date (Ocr.transaction_date t) = true /\
  match_date (Ocr.posting_date t) = true /\
  strip (Ocr.description t) = Ocr.description t /\
  is_Some (parse_amount (Ocr.amount t)).
Proof.
  unfold Ocr.parse_transactions.
  rewrite (fold_left_acc _ _ ocr_parse_line_acc). simpl.
  intros (line & _ & Ht)%list_elem_of_In%in_flat_map.
  unfold Ocr.parse_line in Ht.
  destruct (Re.match_ Ocr.pattern (strip line)) as [m|] eqn:E; [|done].
  destruct Ht as [<-|[]]. simpl.
  destruct (ocr_match_groups _ _ E)
    as (H1 & H2 & _ & sign & body & d1 & d2 & -> & Hs & _ & Hb & Hd1 & Hd2).
  split; [by apply match_date_prefix|].
  split; [by apply match_date_prefix|].
  split; [apply strip_by_idem|].
  unfold parse_amount. rewrite !remove_char_app.
  assert (remove_char "," sign = sign) as ->.
  { destruct Hs as [-> | ->]; [done|]. rewrite remove_char_cons.
    by destruct (ascii_dec "-" ","). }
  assert (remove_char "," ["."%char; d1; d2] = ["."%char; d1; d2]) as ->.
  { rewrite !remove_char_cons.
    destruct (ascii_dec "." ","); [done|].
    destruct (ascii_dec d1 ",") as [->|]; [by vm_compute in Hd1|].
    destruct (ascii_dec d2 ",") as [->|]; [by vm_compute in Hd2|]. done. }
  apply float_of_fixed_point; try done.
  clear -Hb.
  induction Hb as [|c l Hc _ IH]; [constructor|].
  rewrite remove_char_cons.
  destruct (ascii_dec c ",") as [->|Hne]; [done|].
  constructor; [|done]. by destruct Hc.
Qed.

Lemma ocr_records_are_well_formed_witness :
  parse_amount (py "-8,851.33")
  = Some (S754_finite true 4866070128141271 (-39)) /\
  match_date (py "07/01/2025") = true.
Proof.
  split; [by vm_compute|].
  apply (ocr_records_are_well_formed
    (py "07/01/2025 07/01/25  Payment-KTB Internet   -8,851.33 THB")
    {| Ocr.transaction_date := py "07/01/2025";
       Ocr.posting_date := py "07/01/25";
       Ocr.description := py "Payment-KTB Internet";
       Ocr.amount := py "-8,851.33" |}).
  vm_compute. apply list_elem_of_here.
Defined.
(** ** The main loop of batch_extract_all.py *)

Lemma batch_parse_transactions_elem output sid pg t :
  t ∈ Batch.parse_transactions output sid pg ->
  statement_id t = sid /\ page t = pg /\
  match_date (transaction_date t) = true.
Proof.
  rewrite batch_parse_transactions_lines.
  destruct (_ || _); [by intros ?%elem_of_nil|].
  intros (line & _ & Ht)%list_elem_of_In%in_flat_map.
  rewrite batch_parse_line_cases in Ht.
  destruct (4 <=? _); [|done].
  destruct (match_date _) eqn:E; [|done].
  by destruct Ht as [<-|[]].
Qed.

(** The two tests of [main] on the result are implied by the guard of
    [parse_transactions]. *)
Lemma process_image_spec all_transactions img :
  BatchMain.process_image all_transactions img =
  all_transactions ++
  Batch.parse_transactions
    (BatchMain.extract_transactions_from_image img.2)
    (BatchMain.statement_and_page img.1).1
    (BatchMain.statement_and_page img.1).2.
Proof.
  destruct img as [img_file r]. unfold BatchMain.process_image.
  cbn [fst snd].
  destruct (BatchMain.statement_and_page img_file) as [sid pg].
  cbn [fst snd].
  set (result := BatchMain.extract_transactions_from_image r).
  destruct (startswith (py "ERROR") result) eqn:E1.
  { apply startswith_contains in E1. unfold Batch.parse_transactions.
    by rewrite E1, orb_true_r, app_nil_r. }
  destruct (str_eqb result (py "NO_TRANSACTIONS")) eqn:E2.
  { unfold Batch.parse_transactions.
    by rewrite E2, orb_true_r, app_nil_r. }
  destruct (Batch.parse_transactions result sid pg); [|done].
  by rewrite app_nil_r.
Qed.

Lemma process_image_acc acc img :
  BatchMain.process_image acc img = acc ++ BatchMain.process_image [] img.
Proof. by rewrite !process_image_spec. Qed.

Lemma batch_main_spec all_images :
  BatchMain.main all_images =
  Batch.deduplicate_transactions
    (flat_map (BatchMain.process_image []) all_images).
Proof.
  unfold BatchMain.main.
  by rewrite (fold_left_acc _ _ process_image_acc).
Qed.

(** X15.  [main] of [batch_extract_all.py] writes the first occurrences of
    the records parsed from the cleaned answers for the images, in the
    order of the images: its tests for an answer that starts with ERROR or
    is NO_TRANSACTIONS change nothing, the guard of [parse_transactions]
    discarding these answers anyway.  No two rows written have the same
    date, posting date, description and amount; each row has a transaction
    date that starts with a date token and the statement id and page read
    from the name of its image; an image on which the tool timed out or
    failed changes nothing in what is written. *)
Theorem batch_main_writes_parsed_records
    (all_images : list (str * BatchMain.tool_result)) :
  BatchMain.main all_images =
    Batch.deduplicate_transactions
      (flat_map
         (fun img =>
            Batch.parse_transactions
              (BatchMain.extract_transactions_from_image img.2)
              (BatchMain.statement_and_page img.1).1
              (BatchMain.statement_and_page img.1).2)
         all_images) /\
  NoDup (map Batch.key_of (BatchMain.main all_images)) /\
  (forall t,
      t ∈ BatchMain.main all_images ->
      match_date (transaction_date t) = true /\
      exists img,
        img ∈ all_images /\
        statement_id t = (BatchMain.statement_and_page img.1).1 /\
        page t = (BatchMain.statement_and_page img.1).2) /\
  (forall pre img_file r post,
      r = BatchMain.Timeout \/ (exists message, r = BatchMain.Failure message) ->
      BatchMain.main (pre ++ (img_file, r) :: post)
      = BatchMain.main (pre ++ post)).
Proof.
  split; [|split; [|split]].
  - rewrite batch_main_spec. f_equal.
    induction all_images as [|img l IH]; [done|]. simpl.
    by rewrite IH, process_image_spec.
  - rewrite batch_main_spec, deduplicate_first_occurrences.
    apply first_occurrences_fresh.
  - intros t. rewrite batch_main_spec, deduplicate_first_occurrences.
    intros Ht.
    unfold first_occurrences in Ht.
    pose proof (elem_of_sublist _ _ _ Ht (first_occurrences_sublist _ []))
      as Ht'.
    clear Ht. rename Ht' into Ht.
    apply list_elem_of_In, in_flat_map in Ht as (img & Himg & Ht).
    rewrite process_image_spec in Ht. apply list_elem_of_In in Ht.
    apply batch_parse_transactions_elem in Ht as (? & ? & ?).
    split; [done|]. exists img. by split; [apply list_elem_of_In|].
  - intros pre img_file r post Hr. rewrite !batch_main_spec. f_equal.
    rewrite !flat_map_app. f_equal. cbn [flat_map].
    rewrite process_image_spec. cbn [fst snd app].
    assert (Batch.parse_transactions
              (BatchMain.extract_transactions_from_image r)
              (BatchMain.statement_and_page img_file).1
              (BatchMain.statement_and_page img_file).2 = []) as ->; [|done].
    unfold Batch.parse_transactions.
    assert (contains (py "ERROR")
              (BatchMain.extract_transactions_from_image r) = true) as ->;
      [|by rewrite orb_true_r].
    destruct Hr as [->|[message ->]]; [done|].
    apply startswith_contains, startswith_spec.
    by exists (py ": " ++ message).
Qed.

Lemma batch_main_writes_parsed_records_witness :
  BatchMain.main
    [(py "2511-25-01_page_1.jpg",
      BatchMain.Stdout (py "```
18/12/24|20/12/24|SHOPEE BANGKOK TH|199.00
```"));
     (py "2511-25-01_page_2.jpg", BatchMain.Timeout);
     (py "2511-25-01_page_3.jpg",
      BatchMain.Stdout (py "18/12/24|20/12/24|SHOPEE BANGKOK TH|199.00"))]
  = [{| statement_id := py "2511-25-01"; page := py "1";
        transaction_date := py "18/12/24"; posting_date := py "20/12/24";
        description := py "SHOPEE BANGKOK TH"; amount := py "199.00" |}].
Proof.
  refine (eq_trans
    (proj2 (proj2 (proj2 (batch_main_writes_parsed_records [])))
       [(py "2511-25-01_page_1.jpg",
         BatchMain.Stdout (py "```
18/12/24|20/12/24|SHOPEE BANGKOK TH|199.00
```"))] (py "2511-25-01_page_2.jpg") BatchMain.Timeout
       [(py "2511-25-01_page_3.jpg",
         BatchMain.Stdout
           (py "18/12/24|20/12/24|SHOPEE BANGKOK TH|199.00"))] _) _);
    [by left | by vm_compute].
Defined.

(** An answer with ERROR inside a description: [main] of
    [extract_transactions_opencode.py], which only tests how the answer
    starts, keeps its lines; [parse_transactions] discards them. *)
Example opencode_keeps_error_inside :
  length (Opencode.process_result (py "s")
            (py "19/05/25|20/05/25|ERRORLESS SHOP|100.00") []) = 1 /\
  Batch.parse_transactions
    (py "19/05/25|20/05/25|ERRORLESS SHOP|100.00") (py "s") (py "1") = [].
Proof. by vm_compute. Qed.

(** ** The filter and the two classifiers *)

(** X16.  [filter_ai_transactions] returns rows of its input in their
    order, and filtering its result again changes nothing. *)
Theorem filter_keeps_order_and_is_idempotent (rows : list transaction) :
  sublist (Workflow.filter_ai_transactions rows) rows /\
  Workflow.filter_ai_transactions (Workflow.filter_ai_transactions rows)
  = Workflow.filter_ai_transactions rows.
Proof.
  rewrite !filter_ai_transactions_filter.
  set (f := fun row : transaction => _).
  split; induction rows as [|row rows IH]; simpl; try done.
  - destruct (f row); by constructor.
  - destruct (f row) eqn:E; [|done]. simpl. by rewrite E, IH.
Qed.

(** X17.  The classifiers of [generate_summary] and of
    [format_for_sheets.py] know the same descriptions: the second gives no
    label exactly when the first gives [Other AI Service], and a label that
    the second gives, unless it is [Google Cloud], is the label that the
    first gives; when the first gives [Google Cloud], so does the second. *)
Theorem classifiers_agree_up_to_google_cloud (d : str) :
  (Sheets.classify d = None <->
   Workflow.classify d = py "Other AI Service") /\
  (forall svc,
      Sheets.classify d = Some svc -> svc <> py "Google Cloud" ->
      Workflow.classify d = svc) /\
  (Workflow.classify d = py "Google Cloud" ->
   Sheets.classify d = Some (py "Google Cloud")).
Proof.
  unfold Sheets.classify, Workflow.classify, Sheets.service_name_of,
    Workflow.service_of.
  set (u := upper d).
  destruct (contains (py "OPENROUTER") u).
  { split; [split; [done | by intros ?%py_inj] |].
    split; [by intros svc [= <-] | by intros ?%py_inj]. }
  destruct (contains (py "GOOGLE") u && contains (py "CLOUD") u).
  - split; [|split].
    + split; [done|]. intros H.
      repeat match type of H with
      | (if ?b then _ else _) = _ => destruct b; [by apply py_inj in H|]
      end. by apply py_inj in H.
    + by intros svc [= <-].
    + done.
  - repeat match goal with
    | |- context [if ?b then _ else _] =>
        destruct b;
          [split; [split; [done | by intros ?%py_inj] |];
           split; [by intros svc [= <-] | by intros ?%py_inj]|]
    end.
    split; [done|]. split; [done | by intros ?%py_inj].
Qed.

Lemma classifiers_agree_up_to_google_cloud_witness :
  Workflow.classify (py "Stripe* Z.AI subscription") = py "Z.AI Service".
Proof.
  apply (proj1 (proj2 (classifiers_agree_up_to_google_cloud
                         (py "Stripe* Z.AI subscription")))).
  - by vm_compute.
  - by intros ?%py_inj.
Defined.
(** ** Amounts that [float] cannot read *)

Lemma format_loop_none rows : forall acc,
  Sheets.format_loop acc rows = None <->
  Exists (fun row => parse_amount (amount row) = None) rows.
Proof.
  induction rows as [|row rows IH]; intros acc; simpl.
  - by rewrite Exists_nil.
  - rewrite Exists_cons. unfold Sheets.format_step.
    destruct (parse_amount (amount row)) as [a|] eqn:Ha; [|by split; auto].
    assert (forall P : Prop, P <-> (Some a = None \/ P)) as <-
      by (intros P; split; [auto | by intros [?|?]]).
    destruct (Sheets.service_name_of _); [|apply IH].
    destruct (gt0 a); [|apply IH].
    destruct (Sheets.parse_date _); apply IH.
Qed.

Lemma summary_loop_none rows : forall st,
  Workflow.summary_loop st rows = None <->
  Exists (fun row => parse_amount (amount row) = None) rows.
Proof.
  induction rows as [|row rows IH]; intros [d tot]; simpl.
  - by rewrite Exists_nil.
  - rewrite Exists_cons.
    destruct (parse_amount (amount row)) as [a|] eqn:Ha; [|by split; auto].
    rewrite IH. split; [auto | by intros [?|?]].
Qed.

(** X18.  [format_for_google_sheets] and [generate_summary] call [float]
    outside any [try]: each of them ends with an exception exactly when
    the amount of some row of its input cannot be read as a float, in
    [format_for_google_sheets] also when that row has no vendor signature
    and would not be exported. *)
Theorem float_without_try_aborts (rows : list transaction) :
  (Sheets.format_for_google_sheets rows = None <->
   Exists (fun row => parse_amount (amount row) = None) rows) /\
  (Workflow.generate_summary rows = None <->
   Exists (fun row => parse_amount (amount row) = None) rows).
Proof.
  split.
  - rewrite <- (format_loop_none rows []).
    unfold Sheets.format_for_google_sheets.
    by destruct (Sheets.format_loop [] rows).
  - apply summary_loop_none.
Qed.

(** One row of a shop with an amount that is not a number ends the export,
    although the row would not be part of it. *)
Example export_aborts_on_other_row :
  Sheets.classify (py "SHOPEE BANGKOK TH") = None /\
  Sheets.format_for_google_sheets
    [mk_txn "19/05/25" "20/05/25" "ANTHROPIC" "182.70";
     mk_txn "18/12/24" "20/12/24" "SHOPEE BANGKOK TH" "199.00 THB"] = None.
Proof. by vm_compute. Qed.
(** ** The order in which the matcher tries the runs of a repetition *)

Section RepeatChoice.
Context {R : Type}.
Variable cl : ascii -> bool.
Variable lo : nat.
Variable hi : option nat.
Variable k : str -> nat -> option R.
Variable K : str -> Prop.
Hypothesis k_K : forall s pos, is_Some (k s pos) <-> K s.

Lemma upto_le n m : Re.upto hi (n + m) -> Re.upto hi n.
Proof. unfold Re.upto. destruct hi; [lia | done]. Qed.

Lemma picks_stop greedy n s pos r :
  Re.stop lo k n s pos = Some r ->
  (greedy = true ->
   forall w2 s2, s = w2 ++ s2 -> Forall (fun c => cl c = true) w2 ->
     lo <= n + length w2 -> Re.upto hi (n + length w2) ->
     0 < length w2 -> ~ K s2) ->
  Re.upto hi n -> picks cl lo hi k K greedy n s pos r.
Proof.
  unfold Re.stop. destruct (Nat.leb_spec lo n); [|done]. intros Hk Hg Hu.
  exists [], s. simpl. rewrite !Nat.add_0_r. repeat split; auto.
  intros w2 s2 E Hw2 Hlo Hhi Hlen. destruct greedy; [|lia].
  by apply (Hg eq_refl w2 s2).
Qed.

Lemma picks_cons greedy n c s pos r :
  cl c = true -> Re.below hi n = true ->
  (greedy = false -> lo <= n -> ~ K (c :: s)) ->
  picks cl lo hi k K greedy (S n) s (S pos) r ->
  picks cl lo hi k K greedy n (c :: s) pos r.
Proof.
  intros Hc Hb Hl (w & s' & -> & Hw & Hlo & Hhi & Hk & Hp).
  exists (c :: w), s'. simpl.
  replace (n + S (length w)) with (S n + length w) by lia.
  replace (pos + S (length w)) with (S pos + length w) by lia.
  repeat split; auto.
  intros w2 s2 E Hw2 Hlo2 Hhi2 Hlen.
  destruct w2 as [|c2 w2]; simpl in *.
  - destruct greedy; [lia|]. subst s2. rewrite Nat.add_0_r in Hlo2. auto.
  - injection E as <- E. apply Forall_cons in Hw2 as [_ Hw2].
    apply (Hp w2 s2); [done | done | lia | | destruct greedy; lia].
    by replace (S (n + length w2)) with (n + S (length w2)) by lia.
Qed.

Lemma rep_greedy_picks s : forall n pos r,
  Re.upto hi n ->
  Re.rep_greedy cl lo hi k n s pos = Some r ->
  picks cl lo hi k K true n s pos r.
Proof.
  induction s as [|c s IH]; intros n pos r Hu; simpl.
  - intros H. apply picks_stop; [done | | done].
    intros _ w2 s2 E. symmetry in E. apply app_eq_nil in E as [-> _].
    simpl. lia.
  - destruct (cl c) eqn:Hc; simpl.
    2:{ intros H. apply picks_stop; [done | | done].
        intros _ [|c2 w2] s2 E Hw2; simpl; [lia|].
        injection E as <- _. apply Forall_inv in Hw2. congruence. }
    destruct (Re.below hi n) eqn:Hb.
    2:{ intros H. apply picks_stop; [done | | done].
        intros _ [|c2 w2] s2 E Hw2 _ Hhi; simpl in *; [lia|].
        apply upto_below in Hhi. congruence. }
    destruct (Re.rep_greedy cl lo hi k (S n) s (S pos)) as [r'|] eqn:E.
    + intros [= <-]. apply picks_cons; [done | done | done |].
      apply IH; [by apply below_upto | done].
    + intros H. apply picks_stop; [done | | done].
      intros _ [|c2 w2] s2 E2 Hw2 Hlo2 Hhi2 Hlen HK; simpl in *; [lia|].
      injection E2 as <- ->. apply Forall_cons in Hw2 as [_ Hw2].
      assert (Hsome : is_Some (Re.rep_greedy cl lo hi k (S n) (w2 ++ s2)
                                 (S pos))).
      { apply (rep_greedy_some cl lo hi k K k_K);
          [by apply below_upto|].
        exists w2, s2. repeat split; auto.
        - lia.
        - by replace (S n + length w2) with (n + S (length w2)) by lia. }
      rewrite E in Hsome. by destruct Hsome.
Qed.

Lemma rep_lazy_picks s : forall n pos r,
  Re.upto hi n ->
  Re.rep_lazy cl lo hi k n s pos = Some r ->
  picks cl lo hi k K false n s pos r.
Proof.
  induction s as [|c s IH]; intros n pos r Hu; simpl.
  - destruct (Re.stop lo k n [] pos) as [r'|] eqn:E; [|done].
    intros [= <-]. by apply picks_stop.
  - destruct (Re.stop lo k n (c :: s) pos) as [r'|] eqn:E.
    { intros [= <-]. by apply picks_stop. }
    destruct (cl c) eqn:Hc; simpl; [|done].
    destruct (Re.below hi n) eqn:Hb; [|done].
    intros H. apply picks_cons; [done | done | |].
    + intros _ Hlo HK.
      assert (Hsome : is_Some (Re.stop lo k n (c :: s) pos))
        by (by apply (stop_some lo k K k_K)).
      rewrite E in Hsome. by destruct Hsome.
    + apply IH; [by apply below_upto | done].
Qed.

Lemma picks_rep_greedy w : forall n s' pos r,
  Forall (fun c => cl c = true) w ->
  lo <= n + length w -> Re.upto hi (n + length w) ->
  k s' (pos + length w) = Some r ->
  (forall w2 s2,
      w ++ s' = w2 ++ s2 -> Forall (fun c => cl c = true) w2 ->
      lo <= n + length w2 -> Re.upto hi (n + length w2) ->
      length w < length w2 -> ~ K s2) ->
  Re.rep_greedy cl lo hi k n (w ++ s') pos = Some r.
Proof.
  induction w as [|a w IH]; intros n s' pos r Hw Hlo Hhi Hk Hp; simpl in *.
  - rewrite Nat.add_0_r in *.
    assert (Hstop : Re.stop lo k n s' pos = Some r).
    { unfold Re.stop. by destruct (Nat.leb_spec lo n); [|lia]. }
    destruct s' as [|c t]; [done|]. simpl.
    destruct (cl c) eqn:Hc; simpl; [|done].
    destruct (Re.below hi n) eqn:Hb; [|done].
    destruct (Re.rep_greedy cl lo hi k (S n) t (S pos)) as [r'|] eqn:E;
      [|done].
    assert (Hw3 : rep_word cl lo hi K (S n) t).
    { apply (rep_greedy_some cl lo hi k K k_K t (S n) (S pos));
        [by apply below_upto | by rewrite E]. }
    destruct Hw3 as (w3 & s3 & -> & Hw3 & Hlo3 & Hhi3 & HK).
    destruct (Hp (c :: w3) s3); simpl; auto.
    + lia.
    + by replace (n + S (length w3)) with (S n + length w3) by lia.
    + lia.
  - apply Forall_cons in Hw as [Ha Hw]. rewrite Ha.
    rewrite (upto_below hi n (length w)) by done. cbn [andb].
    rewrite (IH (S n) s' (S pos) r); try done.
    + lia.
    + by replace (S n + length w) with (n + S (length w)) by lia.
    + by replace (S pos + length w) with (pos + S (length w)) by lia.
    + intros w2 s2 E Hw2 Hlo2 Hhi2 Hlen.
      apply (Hp (a :: w2) s2); simpl; auto.
      * by rewrite E.
      * lia.
      * by replace (n + S (length w2)) with (S n + length w2) by lia.
      * lia.
Qed.

Lemma picks_rep_lazy w : forall n s' pos r,
  Forall (fun c => cl c = true) w ->
  lo <= n + length w -> Re.upto hi (n + length w) ->
  k s' (pos + length w) = Some r ->
  (forall w2 s2,
      w ++ s' = w2 ++ s2 -> Forall (fun c => cl c = true) w2 ->
      lo <= n + length w2 -> Re.upto hi (n + length w2) ->
      length w2 < length w -> ~ K s2) ->
  Re.rep_lazy cl lo hi k n (w ++ s') pos = Some r.
Proof.
  induction w as [|a w IH]; intros n s' pos r Hw Hlo Hhi Hk Hp; simpl in *.
  - rewrite Nat.add_0_r in *.
    assert (Hstop : Re.stop lo k n s' pos = Some r).
    { unfold Re.stop. by destruct (Nat.leb_spec lo n); [|lia]. }
    destruct s' as [|c t]; simpl; by rewrite Hstop.
  - destruct (Re.stop lo k n (a :: w ++ s') pos) as [r'|] eqn:E.
    { assert (Hsome : is_Some (Re.stop lo k n (a :: w ++ s') pos))
        by (by rewrite E).
      apply (stop_some lo k K k_K) in Hsome as [Hlo' HK].
      destruct (Hp [] (a :: w ++ s')); simpl; auto.
      - by rewrite Nat.add_0_r.
      - rewrite Nat.add_0_r. by eapply upto_le.
      - lia. }
    apply Forall_cons in Hw as [Ha Hw]. rewrite Ha.
    rewrite (upto_below hi n (length w)) by done. cbn [andb].
    apply IH; try done.
    + lia.
    + by replace (S n + length w) with (n + S (length w)) by lia.
    + by replace (S pos + length w) with (pos + S (length w)) by lia.
    + intros w2 s2 E2 Hw2 Hlo2 Hhi2 Hlen.
      apply (Hp (a :: w2) s2); simpl; auto.
      * by rewrite E2.
      * lia.
      * by replace (n + S (length w2)) with (S n + length w2) by lia.
      * lia.
Qed.
End RepeatChoice.

Lemma run_prefix_in re s pos :
  is_Some (Re.run re false s pos) <-> Re.prefix_in re s.
Proof.
  rewrite run_some. unfold Re.prefix_in. split.
  - intros (w & rest & ? & ? & _). eauto.
  - intros (w & rest & ? & ?). exists w, rest. by repeat split.
Qed.

(** The matcher returns the offsets of the reading described by
    [chosen], and of no other. *)
Lemma run_chosen re : forall s pos ms,
  Re.run re false s pos = Some ms <-> chosen re s pos ms.
Proof.
  induction re as [|[cl lo hi g|] re IH]; intros s pos ms; simpl.
  - split; [intros [= <-]; constructor | by inversion 1].
  - assert (Hu : Re.upto hi 0) by (destruct hi; simpl; lia).
    split.
    + intros H.
      assert (picks (Re.in_class cl) lo hi (Re.run re false)
                (Re.prefix_in re) g 0 s pos ms)
        as (w & s' & -> & Hw & Hlo & Hhi & Hk & Hp).
      { destruct g.
        - apply rep_greedy_picks; [apply run_prefix_in | done | done].
        - apply rep_lazy_picks; [apply run_prefix_in | done | done]. }
      apply IH in Hk. by constructor.
    + inversion 1 as [| |? ? ? ? ? w s' ? ? Hw Hlo Hhi Hp Hc]; subst.
      apply IH in Hc. destruct g.
      * apply (picks_rep_greedy _ _ _ _ (Re.prefix_in re));
          auto using run_prefix_in.
      * apply (picks_rep_lazy _ _ _ _ (Re.prefix_in re));
          auto using run_prefix_in.
  - split.
    + destruct (Re.run re false s pos) as [ms'|] eqn:E; [|done].
      intros [= <-]. constructor. by apply IH.
    + inversion 1 as [|? ? ? ms' Hc|]; subst.
      by rewrite (proj2 (IH s pos ms') Hc).
Qed.
(** ** The reading of the OCR parser *)

Lemma chosen_nil_inv s pos ms : chosen [] s pos ms -> ms = [pos].
Proof. by inversion 1. Qed.

Lemma chosen_mark_inv re s pos ms :
  chosen (Re.Mark :: re) s pos ms ->
  exists ms', ms = pos :: ms' /\ chosen re s pos ms'.
Proof. inversion 1; subst. eauto. Qed.

Lemma chosen_rep_inv cl lo hi g re s pos ms :
  chosen (Re.Rep cl lo hi g :: re) s pos ms ->
  exists w s', s = w ++ s' /\
    Forall (fun c => Re.in_class cl c = true) w /\
    lo <= length w /\ Re.upto hi (length w) /\
    (forall w2 s2,
        w ++ s' = w2 ++ s2 ->
        Forall (fun c => Re.in_class cl c = true) w2 ->
        lo <= length w2 -> Re.upto hi (length w2) ->
        (if g then length w < length w2 else length w2 < length w) ->
        ~ Re.prefix_in re s2) /\
    chosen re s' (pos + length w) ms.
Proof.
  inversion 1 as [| |? ? ? ? ? w s' ? ? F L U P C]; subst.
  exists w, s'. exact (conj eq_refl (conj F (conj L (conj U (conj P C))))).
Qed.

Lemma chosen_at re s pos pos' ms :
  pos' = pos -> chosen re s pos ms -> chosen re s pos' ms.
Proof. by intros ->. Qed.

Lemma chosen_mark_at re s pos p ms :
  p = pos -> chosen re s pos ms -> chosen (Re.Mark :: re) s pos (p :: ms).
Proof. intros ->. by constructor. Qed.

(** No longer run of a class starts where the run in front of a character
    outside the class starts. *)
Lemma longer_run (p : ascii -> bool) (w s w2 s2 : str) :
  w ++ s = w2 ++ s2 -> Forall (fun c => p c = true) w2 ->
  length w < length w2 ->
  match s with c :: _ => p c = false | [] => True end -> False.
Proof.
  intros E F2 Hlen M.
  apply app_eq_app in E as [l [[-> E] | [-> E]]].
  - rewrite length_app in Hlen. lia.
  - rewrite length_app in Hlen. destruct l as [|c l]; [simpl in Hlen; lia|].
    subst s. simpl in M. apply Forall_app in F2 as [_ F2].
    apply Forall_inv in F2. congruence.
Qed.

(** A greedy repetition that reaches its upper bound, or stops in front of
    a character outside its class, reads the run whatever follows. *)
Lemma chosen_rep_munch cl lo hi re w s pos ms :
  Forall (fun c => Re.in_class cl c = true) w ->
  lo <= length w -> Re.upto hi (length w) ->
  hi = Some (length w) \/
    match s with c :: _ => Re.in_class cl c = false | [] => True end ->
  chosen re s (pos + length w) ms ->
  chosen (Re.Rep cl lo hi true :: re) (w ++ s) pos ms.
Proof.
  intros F L U M C. apply chosen_rep; try done.
  intros w2 s2 E F2 L2 U2 Hlen _. destruct M as [-> | M].
  - simpl in U2. lia.
  - by apply (longer_run (Re.in_class cl) w s w2 s2).
Qed.

Lemma prefix_in_mark re s :
  Re.prefix_in (Re.Mark :: re) s <-> Re.prefix_in re s.
Proof.
  split; intros (w & rest & -> & H); exists w, rest; split; try done.
  - by apply lang_mark_inv.
  - by constructor.
Qed.

Lemma prefix_of_shorter (x y x' y' : str) :
  x ++ y = x' ++ y' -> length x' <= length x -> x' = take (length x') x.
Proof.
  intros E Hl. apply (f_equal (take (length x'))) in E.
  by rewrite take_app_le, take_app_length in E.
Qed.

Lemma in_class_dot c : Re.in_class Re.CDot c = true <-> c <> nl.
Proof. simpl. by destruct (ascii_dec c nl). Qed.

(** The groups of the pattern of the source. *)
Lemma ocr_pattern_groups :
  Ocr.pattern
  = Ocr.date_group ++ [Re.plus Re.CSpace] ++
    Ocr.date_group ++ [Re.plus Re.CSpace] ++
    ocr_description_group ++ [Re.plus Re.CSpace] ++ ocr_amount_group.
Proof. reflexivity. Qed.

(** *** The parts of the pattern, one by one *)

Lemma chosen_date_group re s pos ms :
  chosen (Ocr.date_group ++ re) s pos ms ->
  exists d s' ms', s = d ++ s' /\ Re.lang Ocr.date_group d /\
    ms = pos :: pos + length d :: ms' /\ chosen re s' (pos + length d) ms'.
Proof.
  unfold Ocr.date_group, Re.exactly, Re.lit. simpl app. intros H.
  apply chosen_mark_inv in H as (m1 & -> & H).
  apply chosen_rep_inv in H as (a & s1 & -> & Fa & La & Ua & _ & H).
  apply chosen_rep_inv in H as (b & s2 & -> & Fb & Lb & Ub & _ & H).
  apply chosen_rep_inv in H as (c & s3 & -> & Fc & Lc & Uc & _ & H).
  apply chosen_rep_inv in H as (d & s4 & -> & Fd & Ld & Ud & _ & H).
  apply chosen_rep_inv in H as (e & s5 & -> & Fe & Le & Ue & _ & H).
  apply chosen_mark_inv in H as (m2 & -> & H).
  assert (Hl : Re.lang
                 [Re.Mark; Re.Rep Re.CDigit 2 (Some 2) true;
                  Re.Rep (Re.CChar "/") 1 (Some 1) true;
                  Re.Rep Re.CDigit 2 (Some 2) true;
                  Re.Rep (Re.CChar "/") 1 (Some 1) true;
                  Re.Rep Re.CDigit 2 (Some 4) true; Re.Mark]
                 (a ++ b ++ c ++ d ++ e ++ [])).
  { constructor. repeat (apply Re.lang_rep; [done | done | done |]).
    repeat constructor. }
  rewrite app_nil_r in Hl.
  exists (a ++ b ++ c ++ d ++ e), s5, m2.
  assert (Hpos : pos + length a + length b + length c + length d + length e
                 = pos + length (a ++ b ++ c ++ d ++ e))
    by (rewrite !length_app; lia).
  rewrite Hpos in H. rewrite Hpos.
  split; [by rewrite <- !app_assoc | done].
Qed.

Lemma date_group_chosen re d s pos ms :
  Re.lang Ocr.date_group d ->
  match s with c :: _ => isdigit c = false | [] => True end ->
  chosen re s (pos + length d) ms ->
  chosen (Ocr.date_group ++ re) (d ++ s) pos (pos :: pos + length d :: ms).
Proof.
  unfold Ocr.date_group, Re.exactly, Re.lit. intros Hd Hs H. lang_inv Hd.
  rewrite app_nil_r in *. rewrite <- !app_assoc. simpl app.
  rewrite !length_app in *.
  constructor.
  apply chosen_rep_munch; [done | done | done | left; f_equal; lia |].
  apply chosen_rep_munch; [done | done | done | left; f_equal; lia |].
  apply chosen_rep_munch; [done | done | done | left; f_equal; lia |].
  apply chosen_rep_munch; [done | done | done | left; f_equal; lia |].
  apply chosen_rep_munch; [done | done | done | by right |].
  apply chosen_mark_at; [lia|].
  eapply chosen_at; [|exact H]. lia.
Qed.

Lemma date_group_head d :
  Re.lang Ocr.date_group d -> exists c t, d = c :: t /\ isdigit c = true.
Proof.
  unfold Ocr.date_group, Re.exactly. intros Hd.
  apply lang_mark_inv, lang_rep_inv in Hd
    as (w & v & -> & F & L & _ & _).
  destruct w as [|c w]; [simpl in L; lia|].
  apply Forall_inv in F. by exists c, (w ++ v).
Qed.

Lemma chosen_spaces re s pos ms :
  chosen ([Re.plus Re.CSpace] ++ re) s pos ms <->
  exists w s', s = w ++ s' /\ spaces w /\
    (forall w2 s2, w ++ s' = w2 ++ s2 -> spaces w2 ->
        length w < length w2 -> ~ Re.prefix_in re s2) /\
    chosen re s' (pos + length w) ms.
Proof.
  split.
  - intros (w & s' & -> & F & L & _ & P & H)%chosen_rep_inv.
    exists w, s'. split; [done|]. split; [|split; [|done]].
    + split; [|done]. destruct w; [simpl in L; lia | done].
    + intros w2 s2 E [Hne F2] Hlen. apply (P w2 s2); try done.
      destruct w2; [done | simpl; lia].
  - intros (w & s' & -> & [Hne F] & P & H).
    apply chosen_rep; try done.
    + destruct w; [done | simpl; lia].
    + intros w2 s2 E F2 L2 _ Hlen. apply (P w2 s2); try done.
      split; [|done]. destruct w2; [simpl in L2; lia | done].
Qed.

Lemma chosen_description re s pos ms :
  chosen (ocr_description_group ++ re) s pos ms <->
  exists desc s' ms', s = desc ++ s' /\
    desc <> [] /\ Forall (fun c => c <> nl) desc /\
    (forall desc' tail, desc ++ s' = desc' ++ tail -> desc' <> [] ->
        length desc' < length desc -> ~ Re.prefix_in re tail) /\
    ms = pos :: pos + length desc :: ms' /\
    chosen re s' (pos + length desc) ms'.
Proof.
  unfold ocr_description_group, Re.plus_lazy. simpl app. split.
  - intros (m1 & -> & H)%chosen_mark_inv.
    apply chosen_rep_inv in H as (w & s' & -> & F & L & _ & P & H).
    apply chosen_mark_inv in H as (m2 & -> & H).
    exists w, s', m2. split; [done|].
    split; [destruct w; [simpl in L; lia | done]|].
    split; [eapply Forall_impl; [exact F|]; intros c; apply in_class_dot|].
    split; [|done].
    intros desc' tail E Hne Hlen HP. apply (P desc' tail); try done.
    + rewrite (prefix_of_shorter _ _ _ _ E) by lia. by apply Forall_take.
    + destruct desc'; [done | simpl; lia].
    + by apply prefix_in_mark.
  - intros (w & s' & m2 & -> & Hne & F & P & -> & H).
    constructor. apply chosen_rep.
    + eapply Forall_impl; [exact F|]. intros c. apply in_class_dot.
    + destruct w; [done | simpl; lia].
    + done.
    + intros w2 s2 E F2 L2 _ Hlen HP.
      apply (proj1 (prefix_in_mark _ _)) in HP.
      apply (P w2 s2); try done. destruct w2; [simpl in L2; lia | done].
    + by constructor.
Qed.

Lemma chosen_amount_group s pos ms :
  chosen ocr_amount_group s pos ms <->
  exists amt rest, s = amt ++ rest /\ Re.lang ocr_amount_group amt /\
    ms = [pos; pos + length amt; pos + length amt].
Proof.
  unfold ocr_amount_group, Re.opt, Re.plus, Re.lit, Re.exactly. split.
  - intros (m1 & -> & H)%chosen_mark_inv.
    apply chosen_rep_inv in H as (a & s1 & -> & Fa & La & Ua & _ & H).
    apply chosen_rep_inv in H as (b & s2 & -> & Fb & Lb & Ub & _ & H).
    apply chosen_rep_inv in H as (c & s3 & -> & Fc & Lc & Uc & _ & H).
    apply chosen_rep_inv in H as (d & s4 & -> & Fd & Ld & Ud & _ & H).
    apply chosen_mark_inv in H as (m2 & -> & H).
    apply chosen_nil_inv in H as ->.
    assert (Hl : Re.lang
                   [Re.Mark; Re.Rep (Re.CChar "-") 0 (Some 1) true;
                    Re.Rep (Re.COr Re.CDigit (Re.CChar ",")) 1 None true;
                    Re.Rep (Re.CChar ".") 1 (Some 1) true;
                    Re.Rep Re.CDigit 2 (Some 2) true; Re.Mark]
                   (a ++ b ++ c ++ d ++ [])).
    { constructor. repeat (apply Re.lang_rep; [done | done | done |]).
      repeat constructor. }
    rewrite app_nil_r in Hl.
    exists (a ++ b ++ c ++ d), s4.
    split; [by rewrite <- !app_assoc|]. split; [done|].
    by replace (pos + length (a ++ b ++ c ++ d))
      with (pos + length a + length b + length c + length d)
      by (rewrite !length_app; lia).
  - intros (amt & rest & -> & Hl & ->). lang_inv Hl.
    rewrite app_nil_r in *. rewrite <- !app_assoc. rewrite !length_app.
    destruct w0 as [|x w0]; [simpl in L0; lia|].
    apply Forall_cons in F0 as [Hx F0].
    destruct w1 as [|y w1]; [simpl in L1; lia|].
    pose proof (in_class_char_inv _ _ (Forall_inv F1)) as <-.
    constructor.
    apply chosen_rep_munch; [done | done | done | |].
    { destruct w as [|m [|? ?]]; simpl in U; [right | by left | lia].
      simpl app. cbv beta iota.
      change (Re.in_class Re.CDigit x || Re.in_class (Re.CChar ",") x = true)
        in Hx.
      apply orb_true_iff in Hx as [Hx | <-%in_class_char_inv]; [|done].
      apply in_class_char_ne. intros <-. by vm_compute in Hx. }
    apply chosen_rep_munch;
      [by apply Forall_cons | simpl; lia | done | by right |].
    apply chosen_rep_munch; [done | done | done | left; f_equal; lia |].
    apply chosen_rep_munch; [done | done | done | left; f_equal; lia |].
    apply chosen_mark_at; [simpl; lia|].
    eapply chosen_at; [|constructor]. simpl. lia.
Qed.

Lemma amount_group_head amt :
  Re.lang ocr_amount_group amt ->
  exists c t, amt = c :: t /\ isspace c = false.
Proof.
  unfold ocr_amount_group, Re.opt, Re.plus. intros Hl.
  apply lang_mark_inv, lang_rep_inv in Hl
    as (a & v & -> & Fa & _ & Ua & Hl).
  apply lang_rep_inv in Hl as (b & v' & -> & Fb & Lb & _ & _).
  destruct b as [|x b]; [simpl in Lb; lia|].
  apply Forall_inv in Fb.
  change (Re.in_class Re.CDigit x || Re.in_class (Re.CChar ",") x = true)
    in Fb.
  destruct a as [|m a].
  - exists x, (b ++ v'). split; [done|].
    apply orb_true_iff in Fb as [Hx | <-%in_class_char_inv]; [|done].
    by apply digit_not_space.
  - apply Forall_inv, in_class_char_inv in Fa. subst m.
    by exists "-"%char, (a ++ (x :: b) ++ v').
Qed.

(** The four groups of a match, from the offsets of the marks. *)
Lemma ocr_groups (d1 s1 d2 s2 desc s3 amt rest : str) (m : list nat) :
  nth 0 m 0 = 0 -> nth 1 m 0 = length d1 ->
  nth 2 m 0 = length d1 + length s1 ->
  nth 3 m 0 = length d1 + length s1 + length d2 ->
  nth 4 m 0 = length d1 + length s1 + length d2 + length s2 ->
  nth 5 m 0 = length d1 + length s1 + length d2 + length s2 + length desc ->
  nth 6 m 0 = length d1 + length s1 + length d2 + length s2 + length desc
              + length s3 ->
  nth 7 m 0 = length d1 + length s1 + length d2 + length s2 + length desc
              + length s3 + length amt ->
  let subject := d1 ++ s1 ++ d2 ++ s2 ++ desc ++ s3 ++ amt ++ rest in
  Re.group subject m 1 = d1 /\ Re.group subject m 2 = d2 /\
  Re.group subject m 3 = desc /\ Re.group subject m 4 = amt.
Proof.
  intros H0 H1 H2 H3 H4 H5 H6 H7 subject. unfold subject.
  repeat split.
  - change (Re.group ?s m 1) with (Re.slice s (nth 0 m 0) (nth 1 m 0)).
    rewrite H0, H1.
    slice_parts (@nil ascii) d1
      (s1 ++ d2 ++ s2 ++ desc ++ s3 ++ amt ++ rest).
  - change (Re.group ?s m 2) with (Re.slice s (nth 2 m 0) (nth 3 m 0)).
    rewrite H2, H3.
    slice_parts (d1 ++ s1) d2 (s2 ++ desc ++ s3 ++ amt ++ rest).
  - change (Re.group ?s m 3) with (Re.slice s (nth 4 m 0) (nth 5 m 0)).
    rewrite H4, H5.
    slice_parts (d1 ++ s1 ++ d2 ++ s2) desc (s3 ++ amt ++ rest).
  - change (Re.group ?s m 4) with (Re.slice s (nth 6 m 0) (nth 7 m 0)).
    rewrite H6, H7.
    slice_parts (d1 ++ s1 ++ d2 ++ s2 ++ desc ++ s3) amt rest.
Qed.

(** *** The record of a match *)

Lemma spaces_head w :
  spaces w -> exists c t, w = c :: t /\ isspace c = true.
Proof.
  intros [Hne F]. destruct w as [|c t]; [done|].
  apply Forall_inv in F. by exists c, t.
Qed.

Lemma ocr_match_reads subject m :
  Re.match_ Ocr.pattern subject = Some m ->
  ocr_reads subject
    {| Ocr.transaction_date := Re.group subject m 1;
       Ocr.posting_date := Re.group subject m 2;
       Ocr.description := strip (Re.group subject m 3);
       Ocr.amount := Re.group subject m 4 |}.
Proof.
  unfold Re.match_. rewrite run_chosen, ocr_pattern_groups. intros H.
  apply chosen_date_group in H as (d1 & r1 & m1 & -> & Hd1 & -> & H).
  apply chosen_spaces in H as (s1 & r2 & -> & Hs1 & _ & H).
  apply chosen_date_group in H as (d2 & r3 & m2 & -> & Hd2 & -> & H).
  apply chosen_spaces in H as (s2 & r4 & -> & Hs2 & P2 & H).
  apply chosen_description in H
    as (desc & r5 & m3 & -> & Hne & Hdesc & P3 & -> & H).
  apply chosen_spaces in H as (s3 & r6 & -> & Hs3 & _ & H).
  apply chosen_amount_group in H as (amt & rest & -> & Hamt & ->).
  destruct (ocr_groups d1 s1 d2 s2 desc s3 amt rest
              [0; 0 + length d1; 0 + length d1 + length s1;
               0 + length d1 + length s1 + length d2;
               0 + length d1 + length s1 + length d2 + length s2;
               0 + length d1 + length s1 + length d2 + length s2
               + length desc;
               0 + length d1 + length s1 + length d2 + length s2
               + length desc + length s3;
               0 + length d1 + length s1 + length d2 + length s2
               + length desc + length s3 + length amt;
               0 + length d1 + length s1 + length d2 + length s2
               + length desc + length s3 + length amt])
    as (G1 & G2 & G3 & G4); try (cbn [nth]; lia).
  rewrite G1, G2, G3, G4.
  exists d1, s1, d2, s2, desc, s3, amt, rest.
  repeat (split; [done|]). done.
Qed.

Lemma ocr_reads_match subject t :
  ocr_reads subject t ->
  exists m, Re.match_ Ocr.pattern subject = Some m /\
    t = {| Ocr.transaction_date := Re.group subject m 1;
           Ocr.posting_date := Re.group subject m 2;
           Ocr.description := strip (Re.group subject m 3);
           Ocr.amount := Re.group subject m 4 |}.
Proof.
  intros (d1 & s1 & d2 & s2 & desc & s3 & amt & rest & -> & -> & Hd1 & Hd2
          & Hs1 & Hs2 & Hs3 & Hne & Hdesc & Hamt & P2 & P3).
  destruct (date_group_head d2 Hd2) as (c2 & t2 & E2 & Hc2).
  destruct (amount_group_head amt Hamt) as (ca & ta & Ea & Hca).
  destruct (spaces_head s1 Hs1) as (c1 & t1 & E1 & Hc1).
  destruct (spaces_head s2 Hs2) as (c3 & t3 & E3 & Hc3).
  set (m := [0; 0 + length d1; 0 + length d1 + length s1;
             0 + length d1 + length s1 + length d2;
             0 + length d1 + length s1 + length d2 + length s2;
             0 + length d1 + length s1 + length d2 + length s2
             + length desc;
             0 + length d1 + length s1 + length d2 + length s2
             + length desc + length s3;
             0 + length d1 + length s1 + length d2 + length s2
             + length desc + length s3 + length amt;
             0 + length d1 + length s1 + length d2 + length s2
             + length desc + length s3 + length amt]).
  exists m. split.
  - unfold Re.match_. rewrite run_chosen, ocr_pattern_groups.
    apply date_group_chosen; [done | |].
    { rewrite E1. simpl.
      destruct (isdigit c1) eqn:Hd; [|done].
      apply digit_not_space in Hd. congruence. }
    apply chosen_spaces. exists s1, (d2 ++ s2 ++ desc ++ s3 ++ amt ++ rest).
    split; [done|]. split; [done|]. split.
    { intros w2 tail E [_ F2] Hlen _.
      apply (longer_run isspace _ _ _ _ E F2 Hlen).
      rewrite E2. simpl. by apply digit_not_space. }
    apply date_group_chosen; [done | |].
    { rewrite E3. simpl.
      destruct (isdigit c3) eqn:Hd; [|done].
      apply digit_not_space in Hd. congruence. }
    apply chosen_spaces. exists s2, (desc ++ s3 ++ amt ++ rest).
    split; [done|]. split; [done|]. split; [exact P2|].
    apply chosen_description. exists desc, (s3 ++ amt ++ rest).
    eexists. split; [done|]. split; [done|]. split; [done|].
    split; [exact P3|]. split; [reflexivity|].
    apply chosen_spaces. exists s3, (amt ++ rest).
    split; [done|]. split; [done|]. split.
    { intros w2 tail E [_ F2] Hlen _.
      apply (longer_run isspace _ _ _ _ E F2 Hlen).
      rewrite Ea. simpl. done. }
    apply chosen_amount_group. exists amt, rest. done.
  - destruct (ocr_groups d1 s1 d2 s2 desc s3 amt rest m)
      as (G1 & G2 & G3 & G4); try (unfold m; cbn [nth]; lia).
    by rewrite G1, G2, G3, G4.
Qed.
(** ** The two filters of the classify-and-filter mode, row by row *)

Lemma format_step_row acc row :
  Sheets.format_step acc row
  = match parse_amount (amount row) with
    | Some _ => Some (acc ++ omap sheet_row_of [row])
    | None => None
    end.
Proof.
  unfold Sheets.format_step.
  change (omap sheet_row_of [row]) with
    (match sheet_row_of row with Some y => [y] | None => [] end).
  unfold sheet_row_of, Sheets.classify.
  destruct (parse_amount (amount row)) as [a|]; [|done].
  destruct (Sheets.service_name_of _); [|by rewrite app_nil_r].
  destruct (gt0 a); [|by rewrite app_nil_r].
  destruct (Sheets.parse_date _); [done | by rewrite app_nil_r].
Qed.

Lemma format_loop_spec rows : forall acc kept,
  Sheets.format_loop acc rows = Some kept <->
  Forall (fun row => is_Some (parse_amount (amount row))) rows /\
  kept = acc ++ omap sheet_row_of rows.
Proof.
  induction rows as [|row rows IH]; intros acc kept.
  - simpl. rewrite app_nil_r.
    split; [intros [= <-]; by split | by intros [_ ->]].
  - cbn [Sheets.format_loop]. rewrite format_step_row, Forall_cons.
    destruct (parse_amount (amount row)) as [a|].
    + rewrite IH, <- app_assoc, <- omap_app.
      split; [intros [? ?]; by eauto | by intros [[_ ?] ?]].
    + split; [done | by intros [[[? ?] _] _]].
Qed.

Lemma sheet_row_of_spec row r :
  sheet_row_of row = Some r <->
  exists a svc d,
    parse_amount (amount row) = Some a /\ gt0 a = true /\
    Sheets.classify (description row) = Some svc /\
    Sheets.parse_date (transaction_date row) = Some d /\
    r = {| Sheets.row_date := transaction_date row;
           Sheets.row_month := Sheets.get_month_thai d;
           Sheets.row_description := svc;
           Sheets.row_price := a; Sheets.row_quantity := 1;
           Sheets.row_total := a |}.
Proof.
  unfold sheet_row_of.
  destruct (parse_amount (amount row)) as [a|].
  2:{ split; [done | by intros (? & ? & ? & ? & _)]. }
  destruct (Sheets.classify (description row)) as [svc|].
  2:{ split; [done | by intros (? & ? & ? & _ & _ & ? & _)]. }
  destruct (gt0 a) eqn:Hg.
  2:{ split; [done|]. intros (? & ? & ? & [= <-] & ? & _). congruence. }
  destruct (Sheets.parse_date (transaction_date row)) as [d|].
  2:{ split; [done | by intros (? & ? & ? & _ & _ & _ & ? & _)]. }
  split.
  - intros [= <-]. by exists a, svc, d.
  - by intros (? & ? & ? & [= <-] & _ & [= <-] & [= <-] & ->).
Qed.

(** C4, as amended.  In the classify-and-filter mode a record is kept only
    if its amount, parsed without the commas, is greater than zero, and the
    amount is not the only test.  The filter of [ai_workflow.py] keeps a row
    exactly when its upper-cased description is matched, as by
    [re.search], by one of the regular expressions [ai_keywords] and its
    amount parses to a number greater than zero.  [format_for_sheets.py] ends with an error when the
    amount of some row does not parse; otherwise it writes, sorted by date,
    one row for each row of its input that has a vendor signature, an
    amount greater than zero and a transaction date that reads as a
    calendar date DD/MM/YY, and no other row.  A row whose amount parses to
    a number that is not greater than zero is kept by neither, whatever its
    description.  The statement payment of -8,851.33 is such a row, and its
    description has no vendor signature either. *)
Theorem mode_a_keeps_positive_amounts (row : transaction) :
  (forall rows,
      row ∈ Workflow.filter_ai_transactions rows <->
      row ∈ rows /\ Workflow.is_ai row = true /\
      exists a, parse_amount (amount row) = Some a /\ gt0 a = true) /\
  (Workflow.is_ai row = true <->
   exists keyword,
     keyword ∈ Workflow.ai_keywords /\
     Re.search keyword (upper (description row)) = true) /\
  (forall r,
      sheet_row_of row = Some r <->
      exists a svc d,
        parse_amount (amount row) = Some a /\ gt0 a = true /\
        Sheets.classify (description row) = Some svc /\
        Sheets.parse_date (transaction_date row) = Some d /\
        r = {| Sheets.row_date := transaction_date row;
               Sheets.row_month := Sheets.get_month_thai d;
               Sheets.row_description := svc;
               Sheets.row_price := a; Sheets.row_quantity := 1;
               Sheets.row_total := a |}) /\
  (forall rows out,
      Sheets.format_for_google_sheets rows = Some out <->
      Forall (fun row' => is_Some (parse_amount (amount row'))) rows /\
      out = Sheets.sort_by_date (omap sheet_row_of rows)) /\
  (forall rows out,
      Sheets.format_for_google_sheets rows = Some out ->
      out ≡ₚ omap sheet_row_of rows /\
      forall r, r ∈ out <->
                exists row', row' ∈ rows /\ sheet_row_of row' = Some r) /\
  (forall a,
      parse_amount (amount row) = Some a -> gt0 a = false ->
      (forall rows, row ∉ Workflow.filter_ai_transactions rows) /\
      sheet_row_of row = None /\
      (forall acc, Sheets.format_step acc row = Some acc)) /\
  (parse_amount (amount ktb_payment)
     = Some (S754_finite true 4866070128141271 (-39)) /\
   gt0 (S754_finite true 4866070128141271 (-39)) = false /\
   Workflow.is_ai ktb_payment = false /\
   Sheets.classify (description ktb_payment) = None /\
   Workflow.filter_ai_transactions [ktb_payment] = [] /\
   Sheets.format_for_google_sheets [ktb_payment] = Some []).
Proof.
  assert (Hfmt : forall rows out,
             Sheets.format_for_google_sheets rows = Some out <->
             Forall (fun row' => is_Some (parse_amount (amount row'))) rows /\
             out = Sheets.sort_by_date (omap sheet_row_of rows)).
  { intros rows out. unfold Sheets.format_for_google_sheets. split.
    - destruct (Sheets.format_loop [] rows) as [kept|] eqn:E; [|done].
      apply format_loop_spec in E as [Hall ->]. by intros [= <-].
    - intros [Hall ->].
      by rewrite (proj2 (format_loop_spec rows [] _) (conj Hall eq_refl)). }
  split; [|split; [|split; [|split; [|split; [|split]]]]].
  - intros rows. apply filter_ai_transactions_elem.
  - unfold Workflow.is_ai. rewrite existsb_exists.
    split; intros (keyword & Hin & Hs); exists keyword;
      (split; [by apply list_elem_of_In | done]).
  - intros r. apply sheet_row_of_spec.
  - exact Hfmt.
  - intros rows out [_ ->]%Hfmt.
    split; [apply sort_by_date_perm|].
    intros r. rewrite sort_by_date_perm. apply list_elem_of_omap.
  - intros a Ha Hg.
    assert (Hnone : sheet_row_of row = None).
    { unfold sheet_row_of. rewrite Ha, Hg.
      by destruct (Sheets.classify (description row)). }
    split; [|split; [done|]].
    + intros rows (_ & _ & a' & Ha' & Hg')%filter_ai_transactions_elem.
      congruence.
    + intros acc. rewrite format_step_row, Ha.
      change (omap sheet_row_of [row]) with
        (match sheet_row_of row with Some y => [y] | None => [] end).
      by rewrite Hnone, app_nil_r.
  - vm_compute. repeat split.
Qed.

Lemma mode_a_keeps_positive_amounts_witness :
  mk_txn "01/09/25" "02/09/25" "OPENROUTER, INC OPENROUTER.AIUS USD 5.80"
    "191.91"
  ∈ Workflow.filter_ai_transactions
      [ktb_payment;
       mk_txn "01/09/25" "02/09/25" "OPENROUTER, INC OPENROUTER.AIUS USD 5.80"
           "191.91"] /\
  sheet_row_of (mk_txn "01/09/25" "02/09/25" "OPENROUTER" "-8,851.33") = None /\
  Sheets.format_step [] (mk_txn "01/09/25" "02/09/25" "OPENROUTER" "-8,851.33")
  = Some [].
Proof.
  split.
  - apply (proj2 (proj1 (mode_a_keeps_positive_amounts _) _)).
    split; [apply list_elem_of_further, list_elem_of_here|].
    split; [vm_compute; reflexivity|].
    eexists. split; vm_compute; reflexivity.
  - destruct (mode_a_keeps_positive_amounts
                (mk_txn "01/09/25" "02/09/25" "OPENROUTER" "-8,851.33"))
      as (_ & _ & _ & _ & _ & Hneg & _).
    destruct (Hneg (S754_finite true 4866070128141271 (-39)))
      as (_ & Hrow & Hstep); [vm_compute; reflexivity .. |].
    split; [exact Hrow | exact (Hstep [])].
Defined.

(** C4, the claim as stated fails on both sides: a record with a vendor
    label and a positive amount is dropped by [format_for_sheets.py] when
    its transaction date, here with a four-digit year, does not read as
    DD/MM/YY; and a record that [generate_summary] and
    [format_for_sheets.py] label Z.AI Service, with a positive amount, is
    dropped by the filter of [ai_workflow.py], whose regular expression
    wants STRIPE in front of Z.AI, while [format_for_sheets.py] keeps it. *)
Lemma classified_positive_amount_dropped :
  (Sheets.classify
     (description (mk_txn "19/05/2025" "20/05/2025" "OPENROUTER" "100.00"))
   = Some (py "OpenRouter AI") /\
   (gt0 <$> parse_amount
              (amount (mk_txn "19/05/2025" "20/05/2025" "OPENROUTER"
                         "100.00")))
   = Some true /\
   Sheets.format_for_google_sheets
     [mk_txn "19/05/2025" "20/05/2025" "OPENROUTER" "100.00"] = Some []) /\
  (Workflow.classify
     (description (mk_txn "01/09/25" "02/09/25" "Z.AI via STRIPE" "10.00"))
   = py "Z.AI Service" /\
   Sheets.classify
     (description (mk_txn "01/09/25" "02/09/25" "Z.AI via STRIPE" "10.00"))
   = Some (py "Z.AI Service") /\
   (gt0 <$> parse_amount
              (amount (mk_txn "01/09/25" "02/09/25" "Z.AI via STRIPE"
                         "10.00")))
   = Some true /\
   Workflow.filter_ai_transactions
     [mk_txn "01/09/25" "02/09/25" "Z.AI via STRIPE" "10.00"] = [] /\
   length <$> Sheets.format_for_google_sheets
     [mk_txn "01/09/25" "02/09/25" "Z.AI via STRIPE" "10.00"] = Some 1).
Proof. vm_compute. repeat split. Qed.

(** ** The records of the OCR parser, one for one *)

(** C8, as amended.  The fixed-column parser accepts a line, and adds one
    record for it, exactly when some prefix of the stripped line is a word of
    the composite pattern: a date token (with a year of two to four digits),
    white space, a date token, white space, a description, white space, and
    a signed amount with two fraction digits; a line with no such prefix
    adds no record.  The record it adds is the one that [ocr_reads]
    describes and no other: the two dates, the description stripped and the
    amount, where the white space in front of the description is the
    longest that leaves a description and an amount, the description is the
    shortest that is followed by white space and an amount, and the amount
    need not end the line.  A stripped line is read as one record at most;
    the groups of [ocr_reads] are those of the pattern of the source; and
    the records of a text are those of its lines, in order. *)
Theorem ocr_parser_accepts_pattern_prefix (acc : list Ocr.transaction)
    (line : str) :
  ((exists t, Ocr.parse_line acc line = acc ++ [t]) <->
   Re.prefix_in Ocr.pattern (strip line)) /\
  (~ Re.prefix_in Ocr.pattern (strip line) -> Ocr.parse_line acc line = acc) /\
  (forall t,
      Ocr.parse_line acc line = acc ++ [t] <-> ocr_reads (strip line) t) /\
  (forall t t',
      ocr_reads (strip line) t -> ocr_reads (strip line) t' -> t = t') /\
  Ocr.pattern
  = Ocr.date_group ++ [Re.plus Re.CSpace] ++
    Ocr.date_group ++ [Re.plus Re.CSpace] ++
    ocr_description_group ++ [Re.plus Re.CSpace] ++ ocr_amount_group /\
  (forall text,
      Ocr.parse_transactions text
      = flat_map (Ocr.parse_line []) (split nl text)).
Proof.
  assert (Hreads : forall t,
             Ocr.parse_line acc line = acc ++ [t] <->
             ocr_reads (strip line) t).
  { intros t. unfold Ocr.parse_line. split.
    - destruct (Re.match_ Ocr.pattern (strip line)) as [m|] eqn:E.
      + intros [= <-]%app_inv_head. by apply ocr_match_reads.
      + intros H. apply (f_equal (@length _)) in H.
        rewrite length_app in H. simpl in H. lia.
    - intros (m & -> & ->)%ocr_reads_match. done. }
  rewrite <- match_some.
  split; [|split; [|split; [done|split; [|split; [reflexivity|]]]]].
  - unfold Ocr.parse_line.
    destruct (Re.match_ Ocr.pattern (strip line)) as [m|].
    + split; eauto.
    + split; [|by intros [? ?]].
      intros [t E]. apply (f_equal (@length _)) in E.
      rewrite length_app in E. simpl in E. lia.
  - unfold Ocr.parse_line.
    destruct (Re.match_ Ocr.pattern (strip line)) as [m|]; [|done].
    intros H. destruct H. eauto.
  - intros t t' Ht%Hreads Ht'%Hreads. rewrite Ht in Ht'.
    by apply app_inv_head in Ht' as [= ->].
  - intros text. unfold Ocr.parse_transactions.
    by rewrite (fold_left_acc _ _ ocr_parse_line_acc).
Qed.

Lemma ocr_parser_accepts_pattern_prefix_witness :
  Ocr.parse_line [] (py "TRANS DATE POSTING DATE DESCRIPTION 12.00") = [] /\
  ocr_reads (strip (py "19/05/25 20/05/25 ANTHROPIC USD 5.35 182.70"))
    {| Ocr.transaction_date := py "19/05/25";
       Ocr.posting_date := py "20/05/25";
       Ocr.description := py "ANTHROPIC USD";
       Ocr.amount := py "5.35" |}.
Proof.
  split.
  - apply (proj1 (proj2 (ocr_parser_accepts_pattern_prefix [] _))).
    intros H%match_some. vm_compute in H. by destruct H.
  - apply (proj1 (proj1 (proj2 (proj2
             (ocr_parser_accepts_pattern_prefix [] _))) _)).
    vm_compute. reflexivity.
Defined.

(** C8, the claim as stated fails: a line is accepted although it is no
    word of the composite pattern, its amount not being at the end of the
    line. *)
Lemma ocr_parser_accepts_trailing_text :
  Ocr.parse_line [] (py "19/05/25 20/05/25 SHOP 100.00 extra")
  = [{| Ocr.transaction_date := py "19/05/25";
        Ocr.posting_date := py "20/05/25";
        Ocr.description := py "SHOP";
        Ocr.amount := py "100.00" |}]
  /\ ~ Re.lang Ocr.pattern (strip (py "19/05/25 20/05/25 SHOP 100.00 extra")).
Proof.
  split; [vm_compute; reflexivity|].
  intros H%fullmatch_some. vm_compute in H. by destruct H.
Qed.
